(** * ski-conditions-data: the collection pipeline of [fetchData.js]

    A shallow embedding of the data fetcher: the retry executor, the four
    source adapters, the aggregator ([main]) and the publisher
    ([updateGitHubData]), followed by the properties of the pipeline.

    Modelling conventions.
    - The file [fetchData.js] is present in two revisions that differ in
      [getMetroparkConditions] only: one fetches the park-closures page once
      ([SharedFetch]), the other once per park ([PerPark]).  The script run
      directly is [program]: the check of the environment variables, then
      [main].  An earlier revision of the weather and regional adapters is
      in [Legacy].
    - A JavaScript string is a [string] whose characters are its UTF-16 code
      units, for text whose code units are below 256; [trim] and
      [toLowerCase] are exact on that range.
    - An [async] function is a computation in the monad [M]: it threads the
      history of externally visible actions (DNS lookups, HTTP requests,
      timer waits, store reads and writes, process exit) and either returns
      a value or throws.  Console output is not part of the history, except
      for the retry line of [fetchWithRetry].
    - What the runtime and the libraries provide (the network, the clock,
      [Date] parsing, [JSON.stringify], base64, the cheerio selectors) is a
      field of the environment record [Env]; a page is represented by the
      results of the selector queries the code runs on it.
    - The network of [Env] answers a URL the same way on every attempt of
      a run, which is exact for what the adapters return when a request
      fails for good or succeeds at once.  The module [Live] has the same
      pipeline over a network whose answer may change from one attempt to
      the next; the properties about the number of attempts, the waits and
      the exit status of a run are stated there.
    - The branches of a [Promise.all] are recorded one after the other.
      The values are those of the code; the histories give which actions a
      run performs and their order within one branch, not the interleaving
      of concurrent branches. *)

From Stdlib Require Import ZArith String Ascii List Bool Lia Permutation.
From stdpp Require Import base gmap strings list pretty.

Local Open Scope string_scope.
Local Open Scope list_scope.
Local Open Scope Z_scope.

(** ** JavaScript string operations *)

Module JsString.

(** [WhiteSpace] and [LineTerminator] code units below 256: TAB, LF, VT,
    FF, CR, SP and NBSP. *)
Definition isWhiteSpace (a : ascii) : bool :=
  let n := N_of_ascii a in
  ((9 <=? n) && (n <=? 13) || (n =? 32) || (n =? 160))%N.

Fixpoint trimStart (s : string) : string :=
  match s with
  | EmptyString => EmptyString
  | String a rest => if isWhiteSpace a then trimStart rest else s
  end.

Fixpoint trimEnd (s : string) : string :=
  match s with
  | EmptyString => EmptyString
  | String a rest =>
      match trimEnd rest with
      | EmptyString => if isWhiteSpace a then EmptyString else String a EmptyString
      | kept => String a kept
      end
  end.

(** [s.trim()] *)
Definition trim (s : string) : string := trimEnd (trimStart s).

(** Lower-casing of one code unit below 256: A-Z, and the Latin-1 capitals
    U+00C0-U+00DE without the multiplication sign U+00D7. *)
Definition toLowerUnit (a : ascii) : ascii :=
  let n := N_of_ascii a in
  if ((65 <=? n) && (n <=? 90)
      || (192 <=? n) && (n <=? 222) && negb (n =? 215))%N
  then ascii_of_N (n + 32) else a.

(** [s.toLowerCase()] *)
Fixpoint toLowerCase (s : string) : string :=
  match s with
  | EmptyString => EmptyString
  | String a rest => String (toLowerUnit a) (toLowerCase rest)
  end.

(** [s.startsWith(p)] *)
Fixpoint startsWith (p s : string) : bool :=
  match p, s with
  | EmptyString, _ => true
  | String _ _, EmptyString => false
  | String a p', String b s' => if Ascii.eqb a b then startsWith p' s' else false
  end.

(** [s.includes(needle)] *)
Fixpoint includes (s needle : string) : bool :=
  if startsWith needle s then true
  else match s with
       | EmptyString => false
       | String _ rest => includes rest needle
       end.

Definition consHead (a : ascii) (pieces : list string) : list string :=
  match pieces with
  | [] => [String a EmptyString]
  | piece :: others => String a piece :: others
  end.

(** The scan of [s.split(sep)] for a non-empty separator: [skip] counts the
    code units of a matched separator that are still to be passed over. *)
Fixpoint splitGo (sep : string) (skip : nat) (s : string) : list string :=
  match s with
  | EmptyString => [EmptyString]
  | String a rest =>
      match skip with
      | S k => splitGo sep k rest
      | O =>
          if startsWith sep s
          then EmptyString :: splitGo sep (Nat.pred (String.length sep)) rest
          else consHead a (splitGo sep 0 rest)
      end
  end.

(** [s.split(sep)], [sep] non-empty. *)
Definition split (sep s : string) : list string := splitGo sep 0 s.

(** [s.substring(n)] *)
Fixpoint substringFrom (n : nat) (s : string) : string :=
  match n, s with
  | O, _ => s
  | S _, EmptyString => EmptyString
  | S k, String _ rest => substringFrom k rest
  end.

(** [s.replace(pat, rep)] for string arguments, [pat] non-empty and [rep]
    free of dollar patterns: the first occurrence is replaced. *)
Fixpoint replaceFirst (pat rep s : string) : string :=
  if startsWith pat s then rep +:+ substringFrom (String.length pat) s
  else match s with
       | EmptyString => EmptyString
       | String a rest => String a (replaceFirst pat rep rest)
       end.

(** A string is truthy when it is not empty. *)
Definition truthy (s : string) : bool :=
  match s with EmptyString => false | String _ _ => true end.

(** [a[i]] on an array of strings, with [$(undefined).text()] and a missing
    part both read as the empty string by the callers below. *)
Definition at_ (i : nat) (l : list string) : string := nth i l EmptyString.

End JsString.

Import JsString.

(** ** Effects: history, results and the monad of asynchronous code *)

Inductive JsError : Type :=
| NetworkError (message : string)
| TypeError (message : string)
| PlainError (message : string).

Definition errorMessage (e : JsError) : string :=
  match e with NetworkError m => m | TypeError m => m | PlainError m => m end.

(** Remote file write: [createOrUpdateFileContents] arguments. *)
Record PutRequest : Type := mkPut {
  put_path : string;
  put_message : string;
  put_content : string;
  put_sha : option string
}.

Inductive Event : Type :=
| EvDns (hostname : string)
| EvGet (url : string)
| EvSleep (ms : Z)
| EvRetryLog (attempt retries : Z)
| EvGetContent (path : string)
| EvPut (req : PutRequest)
| EvPost (url content : string)
| EvExit (code : Z).

Inductive Res (A : Type) : Type :=
| Ok (a : A)
| Throw (e : JsError).
Arguments Ok {A} a.
Arguments Throw {A} e.

Definition M (A : Type) : Type := list Event -> Res A * list Event.

Definition ret {A} (a : A) : M A := fun h => (Ok a, h).

Definition throw {A} (e : JsError) : M A := fun h => (Throw e, h).

Definition bind {A B} (m : M A) (k : A -> M B) : M B :=
  fun h => match m h with
           | (Ok a, h') => k a h'
           | (Throw e, h') => (Throw e, h')
           end.

(** [try { m } catch (err) { handler err }] *)
Definition tryCatch {A} (m : M A) (handler : JsError -> M A) : M A :=
  fun h => match m h with
           | (Ok a, h') => (Ok a, h')
           | (Throw e, h') => handler e h'
           end.

Definition emit (ev : Event) : M unit := fun h => (Ok tt, h ++ [ev]).

Notation "'let*' x ':=' m 'in' k" := (bind m (fun x => k))
  (at level 10, x pattern, m at level 100, k at level 200).
Notation "m ';;' k" := (bind m (fun _ => k))
  (at level 100, k at level 200, right associativity).

(** [for (const x of l) { acc = body acc x }] *)
Fixpoint forEachM {A S} (body : S -> A -> M S) (l : list A) (acc : S) : M S :=
  match l with
  | [] => ret acc
  | x :: rest => let* acc' := body acc x in forEachM body rest acc'
  end.

(** [Promise.all([a, b])]: both computations are started and both run to
    their end; the result is the pair of their values, or a rejection when
    one of them fails.  The history lists the actions of [a] before those
    of [b]: the interleaving of the two, and the fact that the caller goes
    on at the first rejection while the other branch is still running, are
    not represented. *)
Definition promiseAll2 {A B} (a : M A) (b : M B) : M (A * B) :=
  fun h => match a h with
           | (ra, h1) =>
               match b h1 with
               | (rb, h2) =>
                   match ra, rb with
                   | Ok x, Ok y => (Ok (x, y), h2)
                   | Throw e, _ => (Throw e, h2)
                   | Ok _, Throw e => (Throw e, h2)
                   end
               end
           end.

(** ** Retry executor *)

Definition sleep (ms : Z) : M unit := emit (EvSleep ms).

(** The loop [for (let i = 0; i < retries; i++)] of [fetchWithRetry] from
    index [i] on; [n] bounds the number of iterations that are left, and
    [Z.to_nat (retries - i)] of them are. *)
Fixpoint retryLoop {A} (fn : M A) (retries : Z) (n : nat) (i : Z) : M (option A) :=
  match n with
  | O => ret None
  | S n' =>
      if i <? retries then
        tryCatch (let* v := fn in ret (Some v))
          (fun err =>
             if i =? retries - 1 then throw err
             else (sleep (1000 * 2 ^ i);;
                   emit (EvRetryLog (i + 1) retries);;
                   retryLoop fn retries n' (i + 1)))
      else ret None
  end.

(** [fetchWithRetry(fn, retries)]; [None] is the [undefined] the function
    returns when the loop ends without a [return]. *)
Definition fetchWithRetry {A} (fn : M A) (retries : Z) : M (option A) :=
  retryLoop fn retries (Z.to_nat retries) 0.

Definition defaultRetries : Z := 3.

(** An operation as the executor sees it: each invocation is recorded under
    [label], and its outcome may depend on everything that happened before. *)
Definition request {A} (label : string) (outcome : list Event -> Res A) : M A :=
  fun h => (outcome h, h ++ [EvGet label]).

(** The history after [j] failed attempts that were each followed by the
    wait and the retry line. *)
Fixpoint afterFailures (label : string) (retries : Z) (j : nat) (h : list Event)
  : list Event :=
  match j with
  | O => h
  | S j' =>
      afterFailures label retries j' h
        ++ [EvGet label; EvSleep (1000 * 2 ^ Z.of_nat j');
            EvRetryLog (Z.of_nat j' + 1) retries]
  end.

Definition isGet (label : string) (ev : Event) : bool :=
  match ev with EvGet u => String.eqb u label | _ => false end.

(** Number of invocations recorded under [label]. *)
Fixpoint calls (label : string) (h : list Event) : nat :=
  match h with
  | [] => 0%nat
  | ev :: rest => ((if isGet label ev then 1 else 0) + calls label rest)%nat
  end.

(** The waits recorded in a history, in order. *)
Fixpoint delays (h : list Event) : list Z :=
  match h with
  | [] => []
  | EvSleep ms :: rest => ms :: delays rest
  | _ :: rest => delays rest
  end.

(** 1000 * 2^0, ..., 1000 * 2^(n-1) *)
Definition backoff (n : nat) : list Z :=
  map (fun j => 1000 * 2 ^ Z.of_nat j) (seq 0 n).

(** ** Data model, and the environment: runtime, network and remote store *)

(** One forecast period of the weather service's [properties.periods]. *)
Record Period : Type := mkPeriod {
  period_name : string;
  period_startTime : string;
  period_temperature : Z;
  (** [probabilityOfPrecipitation.value]: a number or [null] *)
  period_probabilityOfPrecipitation : option Z;
  period_shortForecast : string;
  period_detailedForecast : string
}.

(** An [h4] element of a trail-report page: [$(header).text()] and
    [$(header).nextAll("p").first().text()]. *)
Record Heading : Type := mkHeading {
  heading_text : string;
  heading_nextP : string
}.

(** An element together with a related text: for a [p] or [li], its text and
    the text of its first [strong] descendant; for a [strong], its text and
    the text of its parent [p]. *)
Record Element : Type := mkElement {
  el_text : string;
  el_related : string
}.

(** A [.vc_tta-panel] of the park-closures page. *)
Record Panel : Type := mkPanel {
  panel_title : string;          (** [.find(".vc_tta-title-text").text()] *)
  panel_p : list Element;        (** [.find("p")], with first [strong] *)
  panel_li : list Element;       (** [.find("ul li")], with first [strong] *)
  panel_strong : list Element    (** [.find("strong")], with parent [p] *)
}.

(** A loaded HTML page, as the selector queries of the adapters see it. *)
Record Page : Type := mkPage {
  page_h4 : list Heading;
  page_panels : list (string * Panel);   (** panels by [id] *)
  (** [.glm-conditions-record.flex] rows: the texts of their
      [.conditions-cell] descendants *)
  page_records : list (list string)
}.

(** A successful HTTP response, as the code reads it. *)
Record Response : Type := mkResponse {
  (** [data.properties.forecast], when the body has it *)
  resp_forecast : option string;
  (** [data.properties.periods], when the body has it *)
  resp_periods : option (list Period);
  (** [cheerio.load(data)], when the body can be loaded *)
  resp_page : option Page
}.

Record Location : Type := mkLocation {
  loc_lat : string;    (** the coordinate as it prints in a URL *)
  loc_lon : string;
  loc_name : string
}.

Record ForecastPeriod : Type := mkForecastPeriod {
  fp_name : string;
  fp_timestamp : option Z;          (** [None]: [NaN] *)
  fp_temp : option Z;               (** [None]: [null] *)
  fp_snowfall : option Z;           (** [None]: [null] *)
  fp_snowAmount : string;
  fp_shortForecast : string;
  fp_detailedForecast : option string   (** [None]: the key is absent *)
}.

Record WeatherEntry : Type := mkWeatherEntry {
  we_name : string;
  we_forecast : list ForecastPeriod
}.

(** A section of a park bulletin. *)
Record BulletinSection : Type := mkSection {
  sec_header : string;
  sec_content : string
}.

Record ParkEntry : Type := mkParkEntry {
  park_title : option string;       (** [None]: the key is absent *)
  park_sections : list BulletinSection;
  park_error : option string        (** [None]: the key is absent *)
}.

(** What [getMetroparkConditions] returns: the object keyed by park, or the
    object that holds only an [error]. *)
Inductive MetroparkResult : Type :=
| ParkConditions (parks : gmap string ParkEntry)
| ParkFailure (error : string).

(** A [Date] object: its time value, [None] for [NaN] (Invalid Date). *)
Record JsDate : Type := mkDate { date_time : option Z }.

(** An entry of the trail-report map while it is being built. *)
Record TrailEntry : Type := mkTrailEntry {
  te_lastUpdated : string;
  te_conditions : string;
  te_date : option JsDate           (** [None]: [null] *)
}.

(** An entry of the trail-report map as returned. *)
Record TrailReport : Type := mkTrailReport {
  tr_lastUpdated : string;
  tr_conditions : string
}.

Record SnowData : Type := mkSnowData {
  snow_daily : string;
  snow_threeDays : string;
  snow_sevenDays : string;
  snow_ytd : string
}.

Record ResortConditions : Type := mkResort {
  rc_date : string;
  rc_liftsOpen : string;
  rc_xcTrails : string;
  rc_nightSkiing : string;
  rc_comments : string;
  rc_snowData : SnowData
}.

(** The values of the top-level keys of the published object. *)
Inductive Value : Type :=
| VString (s : string)
| VWeather (weather : gmap string WeatherEntry)
| VMetroparks (result : MetroparkResult)
| VTrails (reports : gmap string TrailReport)
| VResort (conditions : ResortConditions).

(** An object literal: its keys and values in order. *)
Definition Document : Type := list (string * Value).

Record Env : Type := mkEnv {
  (** [dns.lookup(hostname)] succeeds *)
  env_dns : string -> bool;
  (** [axios.get(url)]: every request to a URL is answered the same way
      during one run, so that a retry of a failed request fails again;
      [Live] lifts this restriction *)
  env_http : string -> Res Response;
  (** the time value of [new Date(text)]; [None] is [NaN] (Invalid Date) *)
  env_dateParse : string -> option Z;
  (** [new Date().getTime()], which may depend on what happened so far *)
  env_clock : list Event -> Z;
  (** [new Date().getFullYear()] *)
  env_currentYear : Z;
  (** [new Date().toISOString()] of a clock reading *)
  env_toISOString : Z -> string;
  (** the order in which the region requests of the trail-report adapter
      complete *)
  env_regionOrder : list Z -> list Z;
  (** [octokit.repos.getContent]: the [sha] of the file, or a rejection *)
  env_getContent : string -> Res (option string);
  (** [octokit.repos.createOrUpdateFileContents] *)
  env_putContent : PutRequest -> Res unit;
  (** [process.env.DISCORD_WEBHOOK] ([None]: unset) and the outcome of
      posting to it *)
  env_webhook : option string;
  env_post : string -> string -> Res unit;
  (** [error.stack] *)
  env_stack : JsError -> string;
  (** [JSON.stringify(data, null, indent)] and
      [Buffer.from(text).toString("base64")] *)
  env_stringify : Document -> Z -> string;
  env_base64 : string -> string
}.

Definition axiosGet (env : Env) (url : string) : M Response :=
  request url (fun _ => env_http env url).

(** A value that is [undefined] where an object is needed: reading the
    property [what] of it throws. *)
Definition undefinedError (what : string) : JsError :=
  TypeError ("Cannot read properties of undefined (reading '" +:+ what +:+ "')").

Definition defined {A} (what : string) (o : option A) : M A :=
  match o with
  | Some a => ret a
  | None => throw (undefinedError what)
  end.

(** [cheerio.load(data)] on a body that cannot be loaded: the library
    throws a plain [Error] with this message. *)
Definition loadError : JsError := PlainError "cheerio.load() expects a string".

Definition load (content : option Page) : M Page :=
  match content with
  | Some page => ret page
  | None => throw loadError
  end.

Definition readClock (env : Env) : M Z := fun h => (Ok (env_clock env h), h).

(** ** Weather adapter *)

Definition LOCATIONS : list (string * Location) :=
  [ ("shelbyTownship", mkLocation "42.6711" "-83.0328" "Shelby Township");
    ("nubsNob", mkLocation "45.47" "-84.903" "Nubs Nob");
    ("otsegoResort",
      mkLocation "45.032644409325755" "-84.65170507777471" "Otsego Resort") ].

(** [checkDns(hostname)] *)
Definition checkDns (env : Env) (hostname : string) : M bool :=
  emit (EvDns hostname);; ret (env_dns env hostname).

Definition snowString : string := "New snow accumulation".

(** The [snowAccumulation] computed for one period. *)
Definition snowAccumulation (detailedForecast : string) : string :=
  if includes detailedForecast snowString then
    let sentences := split "." detailedForecast in
    match find (fun s => includes s snowString) sentences with
    | Some snowSentence =>
        if truthy snowSentence then trim snowSentence else ""
    | None => ""
    end
  else "".

(** [value || 0] *)
Definition orZero (value : option Z) : Z :=
  match value with
  | Some v => if v =? 0 then 0 else v
  | None => 0
  end.

(** The callback of [.map((period) => ...)]. *)
Definition processPeriod (env : Env) (period : Period) : ForecastPeriod :=
  {| fp_name := period_name period;
     fp_timestamp := env_dateParse env (period_startTime period);
     fp_temp := Some (period_temperature period);
     fp_snowfall := Some (orZero (period_probabilityOfPrecipitation period));
     fp_snowAmount := snowAccumulation (period_detailedForecast period);
     fp_shortForecast := period_shortForecast period;
     fp_detailedForecast := Some (period_detailedForecast period) |}.

Definition pointUrl (location : Location) : string :=
  "https://api.weather.gov/points/" +:+ loc_lat location +:+ "," +:+ loc_lon location.

Definition hourlyUrlOf (forecastUrl : string) : string :=
  replaceFirst "/forecast" "/forecast/hourly" forecastUrl.

(** The body of the [try] block for one location. *)
Definition fetchLocation (env : Env) (location : Location) : M WeatherEntry :=
  let* pointResponse :=
    fetchWithRetry (axiosGet env (pointUrl location)) defaultRetries in
  let* pointResponse := defined "data" pointResponse in
  let* forecastUrl := defined "replace" (resp_forecast pointResponse) in
  let hourlyForecastUrl := hourlyUrlOf forecastUrl in
  let* responses :=
    promiseAll2
      (fetchWithRetry (axiosGet env forecastUrl) defaultRetries)
      (fetchWithRetry (axiosGet env hourlyForecastUrl) defaultRetries) in
  let* forecastResponse := defined "data" (fst responses) in
  let* periods := defined "slice" (resp_periods forecastResponse) in
  let processedForecasts := map (processPeriod env) (take 20 periods) in
  ret {| we_name := loc_name location; we_forecast := processedForecasts |}.

(** The placeholder written by the [catch] block. *)
Definition unavailable (location : Location) (now : Z) : WeatherEntry :=
  {| we_name := loc_name location;
     we_forecast :=
       [ {| fp_name := "Unavailable";
            fp_timestamp := Some now;
            fp_temp := None;
            fp_snowfall := None;
            fp_snowAmount := "0.0";
            fp_shortForecast := "Weather data temporarily unavailable";
            fp_detailedForecast := None |} ] |}.

(** One iteration of the loop over [Object.entries(LOCATIONS)]. *)
Definition weatherStep (env : Env) (weatherData : gmap string WeatherEntry)
    (item : string * Location) : M (gmap string WeatherEntry) :=
  let '(locationKey, location) := item in
  let* entry :=
    tryCatch (fetchLocation env location)
      (fun _ => let* now := readClock env in ret (unavailable location now)) in
  ret (<[locationKey := entry]> weatherData).

Definition getWeatherData (env : Env) : M (gmap string WeatherEntry) :=
  let* reachable := checkDns env "api.weather.gov" in
  if negb reachable then ret ∅
  else forEachM (weatherStep env) LOCATIONS ∅.

(** ** Resort-bulletin adapter (park closures page) *)

Definition baseUrl : string := "https://www.metroparks.com/park-closures/".

(** [$(`.vc_tta-panel[id="..."]`)], an [id] naming one panel of the page. *)
Definition findPanel (page : Page) (id : string) : option Panel :=
  snd <$> find (fun kv => String.eqb (fst kv) id) (page_panels page).

(** [{ header, content: text.substring(header.length).trim() }] *)
Definition leadIn (header text : string) : BulletinSection :=
  {| sec_header := header;
     sec_content := trim (substringFrom (String.length header) text) |}.

Definition failedToFetch (error : JsError) : string :=
  "Failed to fetch conditions: " +:+ errorMessage error.

(** The revision that fetches the page once and scans both panels. *)
Module SharedFetch.

Definition skiTrailHeader : string := "Cross Country Ski Trail Conditions".

Definition huronSections (panel : Panel) : list BulletinSection :=
  flat_map (fun el =>
              let text := trim (el_text el) in
              if includes text skiTrailHeader
              then [ {| sec_header := skiTrailHeader; sec_content := text |} ]
              else [])
           (panel_p panel)
  ++ flat_map (fun el =>
                 let liText := trim (el_text el) in
                 let strongText := trim (el_related el) in
                 if truthy strongText then [leadIn strongText liText] else [])
              (panel_li panel).

Definition stonySections (panel : Panel) : list BulletinSection :=
  flat_map (fun el =>
              let strongText := trim (el_related el) in
              let fullText := trim (el_text el) in
              if includes (toLowerCase strongText) "ski"
              then [leadIn strongText fullText] else [])
           (panel_p panel).

Definition scanPanel (page : Page) (id : string)
    (sections : Panel -> list BulletinSection)
    (conditions : gmap string ParkEntry) : gmap string ParkEntry :=
  match findPanel page id with
  | Some panel =>
      <[id := {| park_title := Some (trim (panel_title panel));
                 park_sections := sections panel;
                 park_error := None |}]> conditions
  | None => conditions
  end.

Definition getMetroparkConditions (env : Env) : M MetroparkResult :=
  tryCatch
    (let* response := fetchWithRetry (axiosGet env baseUrl) defaultRetries in
     let* response := defined "data" response in
     let* page := load (resp_page response) in
     let conditions := scanPanel page "HuronMeadowsMetropark" huronSections ∅ in
     let conditions := scanPanel page "StonyCreekMetropark" stonySections conditions in
     ret (ParkConditions conditions))
    (fun error => ret (ParkFailure (failedToFetch error))).

End SharedFetch.

(** The revision that fetches the page once per park. *)
Module PerPark.

Definition parkMap : list (string * list string) :=
  [ ("HuronMeadowsMetropark",
      ["Bucks Run"; "Natural Snow Classic and Skate Ski Trails"]);
    ("StonyCreekMetropark", ["Stony Creek Cross Country"]) ].

Definition parkUrl (parkId : string) : string := baseUrl +:+ "#" +:+ parkId.

Definition matchingSections (searchTerms : list string) (panel : Panel)
  : list BulletinSection :=
  flat_map (fun el =>
              let strongText := trim (el_text el) in
              if existsb (fun term => includes strongText term) searchTerms
              then [leadIn strongText (trim (el_related el))] else [])
           (panel_strong panel).

(** The body of the [try] block for one park. *)
Definition fetchPark (env : Env) (parkId : string) (searchTerms : list string)
  : M ParkEntry :=
  let* response :=
    fetchWithRetry (axiosGet env (parkUrl parkId)) defaultRetries in
  let* response := defined "data" response in
  let* page := load (resp_page response) in
  match findPanel page parkId with
  | Some parkPanel =>
      ret {| park_title := Some (trim (panel_title parkPanel));
             park_sections := matchingSections searchTerms parkPanel;
             park_error := None |}
  | None =>
      ret {| park_title := None; park_sections := []; park_error := None |}
  end.

(** The entry written by the [catch] block. *)
Definition failedPark (error : JsError) : ParkEntry :=
  {| park_title := None;
     park_sections := [];
     park_error := Some (failedToFetch error) |}.

Definition parkStep (env : Env) (conditions : gmap string ParkEntry)
    (item : string * list string) : M (gmap string ParkEntry) :=
  let '(parkId, searchTerms) := item in
  let* entry :=
    tryCatch (fetchPark env parkId searchTerms)
      (fun error => ret (failedPark error)) in
  ret (<[parkId := entry]> conditions).

(** The parks are handled one after the other, in the order of
    [parkMap]; each writes its own key only. *)
Definition getMetroparkConditions (env : Env) : M MetroparkResult :=
  let* conditions := forEachM (parkStep env) parkMap ∅ in
  ret (ParkConditions conditions).

End PerPark.

(** ** Regional trail-report adapter *)

Definition regions : list Z := [11; 13].

Definition relevantLocations : list string :=
  ["Nubs Nob"; "Huron Meadows Metropark"; "Shelby Township"].

Definition regionUrl (region : Z) : string :=
  "https://nordicskiracer.com/ski-trail-conditions.asp?Region=" +:+ pretty region.

(** [new Date(text)] *)
Definition newDate (env : Env) (text : string) : JsDate :=
  {| date_time := env_dateParse env text |}.

(** [parseDateFromHeader(dateText)].  Nothing in the [try] block throws, so
    the [catch] block is not reached. *)
Definition parseDateFromHeader (env : Env) (dateText : string) : option JsDate :=
  let parts := split ", " dateText in
  if negb (length parts =? 2)%nat then None
  else
    let datePart := at_ 1 parts in
    let currentYear := env_currentYear env in
    Some (newDate env (datePart +:+ ", " +:+ pretty currentYear)).

(** [a > b] on two [Date] objects: the comparison of their time values,
    false when either is [NaN]. *)
Definition dateGt (a b : JsDate) : bool :=
  match date_time a, date_time b with
  | Some x, Some y => y <? x
  | _, _ => false
  end.

(** The condition of the [if] that guards the write:
    [!conditions[k] || (currentDate && conditions[k].date
                        && currentDate > conditions[k].date)]. *)
Definition shouldStore (existing : option TrailEntry) (currentDate : option JsDate)
  : bool :=
  match existing with
  | None => true
  | Some stored =>
      match currentDate, te_date stored with
      | Some current, Some storedDate => dateGt current storedDate
      | _, _ => false
      end
  end.

(** The callback of [$("h4").each(...)]. *)
Definition processHeader (env : Env) (conditions : gmap string TrailEntry)
    (header : Heading) : gmap string TrailEntry :=
  let headerText := trim (heading_text header) in
  let parts := split ":" headerText in
  if (length parts <? 2)%nat then conditions
  else
    let dateSection := trim (at_ 0 parts) in
    let locationSection := trim (at_ 1 parts) in
    match find (fun location =>
                  includes (toLowerCase locationSection) (toLowerCase location))
               relevantLocations with
    | Some relevantLocation =>
        if truthy relevantLocation then
          let reportText := trim (heading_nextP header) in
          let currentDate := parseDateFromHeader env dateSection in
          if shouldStore (conditions !! locationSection) currentDate
          then <[locationSection :=
                   {| te_lastUpdated := dateSection;
                      te_conditions := reportText;
                      te_date := currentDate |}]> conditions
          else conditions
        else conditions
    | None => conditions
    end.

(** The handler of one region: a failed request or page load contributes
    nothing. *)
Definition regionStep (env : Env) (conditions : gmap string TrailEntry)
    (region : Z) : M (gmap string TrailEntry) :=
  tryCatch
    (let* response :=
       fetchWithRetry (axiosGet env (regionUrl region)) defaultRetries in
     let* response := defined "data" response in
     let* page := load (resp_page response) in
     ret (fold_left (processHeader env) (page_h4 page) conditions))
    (fun _ => ret conditions).

(** [delete condition.date] *)
Definition dropDate (entry : TrailEntry) : TrailReport :=
  {| tr_lastUpdated := te_lastUpdated entry;
     tr_conditions := te_conditions entry |}.

(** The region handlers run to completion one at a time, in the order in
    which their requests complete. *)
Definition getNordicSkiRacerConditions (env : Env) : M (gmap string TrailReport) :=
  let* conditions := forEachM (regionStep env) (env_regionOrder env regions) ∅ in
  ret (dropDate <$> conditions).

(** ** Single-resort conditions adapter *)

Definition nubsNobUrl : string := "https://www.nubsnob.com/conditions-tables/".

(** The cells of the records whose first cell, trimmed, is [label]. *)
Definition cellsOf (page : Page) (label : string) : list string :=
  concat (filter (fun cells => trim (at_ 0 cells) = label) (page_records page)).

Definition getValueByLabel (page : Page) (label : string) : string :=
  let value := trim (at_ 1 (cellsOf page label)) in
  if truthy value then value else "".

Definition getSnowData (page : Page) : SnowData :=
  let label := "New Snow since yesterday:" in
  if (0 <? length (filter (fun cells => trim (at_ 0 cells) = label)
                          (page_records page)))%nat
  then
    let cells := cellsOf page label in
    {| snow_daily := trim (at_ 1 cells);
       snow_threeDays := trim (at_ 2 cells);
       snow_sevenDays := trim (at_ 3 cells);
       snow_ytd := trim (at_ 4 cells) |}
  else {| snow_daily := ""; snow_threeDays := ""; snow_sevenDays := ""; snow_ytd := "" |}.

Definition getNubsNobConditions (env : Env) : M ResortConditions :=
  let* response := fetchWithRetry (axiosGet env nubsNobUrl) defaultRetries in
  let* response := defined "data" response in
  let* page := load (resp_page response) in
  ret {| rc_date := getValueByLabel page "Date:";
         rc_liftsOpen := getValueByLabel page "Lifts Open:";
         rc_xcTrails := getValueByLabel page "XC Trail System:";
         rc_nightSkiing := getValueByLabel page "Night Skiing:";
         rc_comments := getValueByLabel page "Comments:";
         rc_snowData := getSnowData page |}.

(** ** Publisher, notifier and aggregator *)

Definition conditionsPath : string := "data/conditions.json".

(** [octokit.repos.getContent({owner, repo, path})], reading [sha]. *)
Definition getContent (env : Env) (path : string) : M (option string) :=
  fun h => (env_getContent env path, h ++ [EvGetContent path]).

(** [octokit.repos.createOrUpdateFileContents({...})] *)
Definition createOrUpdateFileContents (env : Env) (req : PutRequest) : M unit :=
  fun h => (env_putContent env req, h ++ [EvPut req]).

Definition updateGitHubData (env : Env) (data : Document) : M unit :=
  let path := conditionsPath in
  let* sha := tryCatch (getContent env path) (fun _ => ret None) in
  createOrUpdateFileContents env
    {| put_path := path;
       put_message := "Update conditions data";
       put_content := env_base64 env (env_stringify env data 2);
       put_sha := sha |}.

Definition notifyContent (env : Env) (error : JsError) : string :=
  "Error updating ski conditions: " +:+ errorMessage error +:+
  String (ascii_of_N 10) "```" +:+ env_stack env error +:+ "```".

Definition notifyError (env : Env) (error : JsError) : M unit :=
  match env_webhook env with
  | Some webhook =>
      if truthy webhook then
        let content := notifyContent env error in
        tryCatch
          (fun h => (env_post env webhook content, h ++ [EvPost webhook content]))
          (fun _ => ret tt)
      else ret tt
  | None => ret tt
  end.

(** [process.exit(code)] *)
Definition exit (code : Z) : M Z := emit (EvExit code);; ret code.

(** The object literal assembled by [main]. *)
Definition document (timestamp : string) (weather : gmap string WeatherEntry)
    (metroparkConditions : MetroparkResult)
    (nordicConditions : gmap string TrailReport)
    (nubsNob : ResortConditions) : Document :=
  [ ("timestamp", VString timestamp);
    ("weather", VWeather weather);
    ("metroparkConditions", VMetroparks metroparkConditions);
    ("nordicConditions", VTrails nordicConditions);
    ("nubsNob", VResort nubsNob) ].

(** [main()], for either revision of the resort-bulletin adapter; the value
    is the exit status of the process. *)
Definition mainWith (getMetroparkConditions : Env -> M MetroparkResult)
    (env : Env) : M Z :=
  tryCatch
    (let* now := readClock env in
     let timestamp := env_toISOString env now in
     let* weather := getWeatherData env in
     let* metroparkConditions := getMetroparkConditions env in
     let* nordicConditions := getNordicSkiRacerConditions env in
     let* nubsNob := getNubsNobConditions env in
     let data :=
       document timestamp weather metroparkConditions nordicConditions nubsNob in
     updateGitHubData env data;;
     ret 0)
    (fun error => notifyError env error;; exit 1).

Definition main : Env -> M Z := mainWith PerPark.getMetroparkConditions.

Definition mainSharedFetch : Env -> M Z :=
  mainWith SharedFetch.getMetroparkConditions.

(** ** Definitions used to state the properties *)

(** The extraction rule in the words of the specification: split on periods,
    take the first sentence that contains the marker, trim it; the empty
    string when no sentence contains it. *)
Definition snowSentenceSpec (detailedForecast : string) : string :=
  match find (fun s => includes s "New snow accumulation")
             (split "." detailedForecast) with
  | Some sentence => trim sentence
  | None => ""
  end.

(** The date and location segments of a header that the trail-report
    adapter takes up: the header has a colon and its location segment
    mentions one of the relevant locations. *)
Definition matchedHeader (header : Heading) : option (string * string) :=
  let parts := split ":" (trim (heading_text header)) in
  if (length parts <? 2)%nat then None
  else
    let locationSection := trim (at_ 1 parts) in
    match find (fun location =>
                  includes (toLowerCase locationSection) (toLowerCase location))
               relevantLocations with
    | Some relevantLocation =>
        if truthy relevantLocation
        then Some (trim (at_ 0 parts), locationSection) else None
    | None => None
    end.

(** The entry that the report under [header] stores when it is stored. *)
Definition incomingEntry (env : Env) (header : Heading) (dateSection : string)
  : TrailEntry :=
  {| te_lastUpdated := dateSection;
     te_conditions := trim (heading_nextP header);
     te_date := parseDateFromHeader env dateSection |}.

(** The time a header date parsed to; [None] when parsing failed, whether
    the result is [null] or an Invalid Date. *)
Definition parsedTime (date : option JsDate) : option Z :=
  match date with
  | Some d => date_time d
  | None => None
  end.

(** The shape "Weekday, Month Day" of the specification, as in
    "Tue, Jan 14": an abbreviated weekday, a comma and a space, an
    abbreviated month, a space and a day of the month. *)
Definition weekdayNames : list string :=
  ["Sun"; "Mon"; "Tue"; "Wed"; "Thu"; "Fri"; "Sat"].

Definition monthNames : list string :=
  ["Jan"; "Feb"; "Mar"; "Apr"; "May"; "Jun";
   "Jul"; "Aug"; "Sep"; "Oct"; "Nov"; "Dec"].

Definition digitValue (a : ascii) : option Z :=
  let n := N_of_ascii a in
  if ((48 <=? n) && (n <=? 57))%N then Some (Z.of_N n - 48) else None.

Fixpoint digitsValue (acc : Z) (s : string) : option Z :=
  match s with
  | EmptyString => Some acc
  | String a rest =>
      match digitValue a with
      | Some d => digitsValue (10 * acc + d) rest
      | None => None
      end
  end.

(** The value of a non-empty string of decimal digits. *)
Definition numberOf (s : string) : option Z :=
  if truthy s then digitsValue 0 s else None.

Definition isDayOfMonth (s : string) : bool :=
  match numberOf s with
  | Some d => (1 <=? d) && (d <=? 31)
  | None => false
  end.

Definition isWeekdayMonthDay (text : string) : bool :=
  match split ", " text with
  | [weekday; monthDay] =>
      existsb (String.eqb weekday) weekdayNames
      && match split " " monthDay with
         | [month; day] => existsb (String.eqb month) monthNames && isDayOfMonth day
         | _ => false
         end
  | _ => false
  end.

(** *** The adapters as functions of the network's answers *)

(** The history of [fetchWithRetry(() => axios.get(url))] with the default
    bound: one request when it is answered, three requests with waits of one
    and two seconds when it is not. *)
Definition getEvents (env : Env) (url : string) : list Event :=
  match env_http env url with
  | Ok _ => [EvGet url]
  | Throw _ =>
      [EvGet url; EvSleep 1000; EvRetryLog 1 3;
       EvGet url; EvSleep 2000; EvRetryLog 2 3; EvGet url]
  end.

(** The page loaded from [url], or the error that ends the attempt. *)
Definition loadedPage (env : Env) (url : string) : Res Page :=
  match env_http env url with
  | Ok response =>
      match resp_page response with
      | Some page => Ok page
      | None => Throw loadError
      end
  | Throw e => Throw e
  end.

(** What the handler of one region adds to the trail-report map. *)
Definition regionContribution (env : Env) (conditions : gmap string TrailEntry)
    (region : Z) : gmap string TrailEntry :=
  match loadedPage env (regionUrl region) with
  | Ok page => fold_left (processHeader env) (page_h4 page) conditions
  | Throw _ => conditions
  end.

(** The trail-report map after the regions were handled in [order]. *)
Definition trailMap (env : Env) (order : list Z) : gmap string TrailEntry :=
  fold_left (regionContribution env) order ∅.

(** The same runtime on another network. *)
Definition withHttp (env : Env) (http : string -> Res Response) : Env :=
  {| env_dns := env_dns env;
     env_http := http;
     env_dateParse := env_dateParse env;
     env_clock := env_clock env;
     env_currentYear := env_currentYear env;
     env_toISOString := env_toISOString env;
     env_regionOrder := env_regionOrder env;
     env_getContent := env_getContent env;
     env_putContent := env_putContent env;
     env_webhook := env_webhook env;
     env_post := env_post env;
     env_stack := env_stack env;
     env_stringify := env_stringify env;
     env_base64 := env_base64 env |}.

(** The outcome of the [try] block for one location. *)
Definition locationOutcome (env : Env) (location : Location) : Res WeatherEntry :=
  match env_http env (pointUrl location) with
  | Throw e => Throw e
  | Ok pointResponse =>
      match resp_forecast pointResponse with
      | None => Throw (undefinedError "replace")
      | Some forecastUrl =>
          match env_http env forecastUrl,
                env_http env (hourlyUrlOf forecastUrl) with
          | Throw e, _ => Throw e
          | Ok _, Throw e => Throw e
          | Ok forecastResponse, Ok _ =>
              match resp_periods forecastResponse with
              | None => Throw (undefinedError "slice")
              | Some periods =>
                  Ok {| we_name := loc_name location;
                        we_forecast := map (processPeriod env) (take 20 periods) |}
              end
          end
      end
  end.

(** The addresses requested for one location. *)
Definition locationUrls (env : Env) (location : Location) : list string :=
  pointUrl location ::
  match env_http env (pointUrl location) with
  | Ok pointResponse =>
      match resp_forecast pointResponse with
      | Some forecastUrl => [forecastUrl; hourlyUrlOf forecastUrl]
      | None => []
      end
  | Throw _ => []
  end.

Definition locationEvents (env : Env) (location : Location) : list Event :=
  flat_map (getEvents env) (locationUrls env location).

(** The entry written for a location, the clock being read after [history]
    when the placeholder is needed. *)
Definition weatherEntryAt (env : Env) (location : Location) (history : list Event)
  : WeatherEntry :=
  match locationOutcome env location with
  | Ok entry => entry
  | Throw _ => unavailable location (env_clock env history)
  end.

(** The loop over the locations, as a function. *)
Fixpoint weatherFold (env : Env) (items : list (string * Location))
    (weatherData : gmap string WeatherEntry) (history : list Event)
  : gmap string WeatherEntry :=
  match items with
  | [] => weatherData
  | (locationKey, location) :: rest =>
      let history' := history ++ locationEvents env location in
      weatherFold env rest
        (<[locationKey := weatherEntryAt env location history']> weatherData)
        history'
  end.

Definition weatherEvents (env : Env) : list Event :=
  EvDns "api.weather.gov" ::
  (if env_dns env "api.weather.gov"
   then flat_map (fun item => locationEvents env (snd item)) LOCATIONS
   else []).

Definition weatherOf (env : Env) (history : list Event) : gmap string WeatherEntry :=
  if env_dns env "api.weather.gov"
  then weatherFold env LOCATIONS ∅ (history ++ [EvDns "api.weather.gov"])
  else ∅.

(** The entry written for one park by the per-park revision. *)
Definition parkEntry (env : Env) (parkId : string) (searchTerms : list string)
  : ParkEntry :=
  match loadedPage env (PerPark.parkUrl parkId) with
  | Ok page =>
      match findPanel page parkId with
      | Some parkPanel =>
          {| park_title := Some (trim (panel_title parkPanel));
             park_sections := PerPark.matchingSections searchTerms parkPanel;
             park_error := None |}
      | None =>
          {| park_title := None; park_sections := []; park_error := None |}
      end
  | Throw error => PerPark.failedPark error
  end.

Definition parksOf (env : Env) (items : list (string * list string))
    (conditions : gmap string ParkEntry) : gmap string ParkEntry :=
  fold_left (fun acc item => <[fst item := parkEntry env (fst item) (snd item)]> acc)
            items conditions.

Definition parkEvents (env : Env) : list Event :=
  flat_map (fun item => getEvents env (PerPark.parkUrl (fst item))) PerPark.parkMap.

(** What the shared-fetch revision returns. *)
Definition sharedParks (env : Env) : MetroparkResult :=
  match loadedPage env baseUrl with
  | Ok page =>
      ParkConditions
        (SharedFetch.scanPanel page "StonyCreekMetropark" SharedFetch.stonySections
           (SharedFetch.scanPanel page "HuronMeadowsMetropark"
              SharedFetch.huronSections ∅))
  | Throw error => ParkFailure (failedToFetch error)
  end.

(** The record built from the resort page. *)
Definition resortOf (page : Page) : ResortConditions :=
  {| rc_date := getValueByLabel page "Date:";
     rc_liftsOpen := getValueByLabel page "Lifts Open:";
     rc_xcTrails := getValueByLabel page "XC Trail System:";
     rc_nightSkiing := getValueByLabel page "Night Skiing:";
     rc_comments := getValueByLabel page "Comments:";
     rc_snowData := getSnowData page |}.

Definition nordicEvents (env : Env) : list Event :=
  flat_map (fun region => getEvents env (regionUrl region))
           (env_regionOrder env regions).

(** The revision marker sent with the write: the one that was read, none
    when the read was rejected or returned none. *)
Definition markerOf (env : Env) : option string :=
  match env_getContent env conditionsPath with
  | Ok sha => sha
  | Throw _ => None
  end.

Definition putRequestOf (env : Env) (data : Document) : PutRequest :=
  {| put_path := conditionsPath;
     put_message := "Update conditions data";
     put_content := env_base64 env (env_stringify env data 2);
     put_sha := markerOf env |}.

Definition notifyEvents (env : Env) (error : JsError) : list Event :=
  match env_webhook env with
  | Some webhook =>
      if truthy webhook then [EvPost webhook (notifyContent env error)] else []
  | None => []
  end.

(** A request, a wait or a log line: what the adapters do. *)
Definition isFetchEvent (ev : Event) : bool :=
  match ev with
  | EvDns _ | EvGet _ | EvSleep _ | EvRetryLog _ _ => true
  | _ => false
  end.

(** A read or a write of the remote store. *)
Definition isStoreEvent (ev : Event) : bool :=
  match ev with
  | EvGetContent _ | EvPut _ => true
  | _ => false
  end.

Definition topLevelKeys : list string :=
  ["timestamp"; "weather"; "metroparkConditions"; "nordicConditions"; "nubsNob"].

(** The history of the four adapters, [metroparkEvents] being that of the
    resort-bulletin adapter. *)
Definition adapterEvents (env : Env) (metroparkEvents : list Event) : list Event :=
  weatherEvents env ++ metroparkEvents ++ nordicEvents env
    ++ getEvents env nubsNobUrl.

(** The object that [main] hands to the publisher when the resort page
    [page] was loaded, for a run that starts after [history]. *)
Definition assembled (env : Env) (metroparkConditions : MetroparkResult)
    (history : list Event) (page : Page) : Document :=
  document (env_toISOString env (env_clock env history))
           (weatherOf env history)
           metroparkConditions
           (dropDate <$> trailMap env (env_regionOrder env regions))
           (resortOf page).

Definition storeEvents (env : Env) (data : Document) : list Event :=
  [EvGetContent conditionsPath; EvPut (putRequestOf env data)].

(** The exit status and the history of a run of [main]. *)
Definition mainOutcome (env : Env) (metroparkConditions : MetroparkResult)
    (metroparkEvents : list Event) (history : list Event) : Res Z * list Event :=
  match loadedPage env nubsNobUrl with
  | Ok page =>
      let data := assembled env metroparkConditions history page in
      match env_putContent env (putRequestOf env data) with
      | Ok _ =>
          (Ok 0, history ++ adapterEvents env metroparkEvents ++ storeEvents env data)
      | Throw error =>
          (Ok 1, history ++ adapterEvents env metroparkEvents ++ storeEvents env data
                   ++ notifyEvents env error ++ [EvExit 1])
      end
  | Throw error =>
      (Ok 1, history ++ adapterEvents env metroparkEvents
               ++ notifyEvents env error ++ [EvExit 1])
  end.

(** ** Sample runtime and inputs, for concrete evaluations *)

(** An operation that is refused once and then answers. *)
Definition refusedOnce : list Event -> Res string :=
  fun h => if (calls "op" h =? 0)%nat then Throw (NetworkError "refused") else Ok "page".

Fixpoint indexOf (name : string) (names : list string) (i : Z) : option Z :=
  match names with
  | [] => None
  | n :: rest => if String.eqb n name then Some i else indexOf name rest (i + 1)
  end.

(** Days from 1970-01-01 to the given day of the proleptic Gregorian
    calendar. *)
Definition daysFromCivil (y m d : Z) : Z :=
  let y' := if m <=? 2 then y - 1 else y in
  let era := y' / 400 in
  let yoe := y' - era * 400 in
  let doy := (153 * (if 2 <? m then m - 3 else m + 9) + 2) / 5 + d - 1 in
  let doe := yoe * 365 + yoe / 4 - yoe / 100 + doy in
  era * 146097 + doe - 719468.

(** A date parser that reads "Mon D, YYYY" as midnight UTC of that day and
    rejects any other text. *)
Definition sampleDateParse (text : string) : option Z :=
  match split ", " text with
  | [monthDay; year] =>
      match split " " monthDay with
      | [month; day] =>
          match indexOf month monthNames 1, numberOf day, numberOf year with
          | Some m, Some d, Some y =>
              if (1 <=? d) && (d <=? 31)
              then Some (daysFromCivil y m d * 86400000) else None
          | _, _, _ => None
          end
      | _ => None
      end
  | _ => None
  end.

(** A runtime in the year 2025 whose network answers as [http] says, whose
    region requests complete in the order [order], and whose store has the
    file revision [sha]; its serializer lists the top-level keys only. *)
Definition sampleEnv (http : string -> Res Response) (order : list Z -> list Z)
    (sha : Res (option string)) : Env :=
  {| env_dns := fun _ => true;
     env_http := http;
     env_dateParse := sampleDateParse;
     env_clock := fun h => 1736812800000 + Z.of_nat (length h);
     env_currentYear := 2025;
     env_toISOString := fun t => pretty t;
     env_regionOrder := order;
     env_getContent := fun _ => sha;
     env_putContent := fun _ => Ok tt;
     env_webhook := None;
     env_post := fun _ _ => Ok tt;
     env_stack := fun e => errorMessage e;
     env_stringify := fun data _ => "{" +:+ String.concat "," (map fst data) +:+ "}";
     env_base64 := fun s => s |}.

Definition offline : string -> Res Response :=
  fun _ => Throw (NetworkError "getaddrinfo ENOTFOUND").

Definition sampleRuntime : Env := sampleEnv offline id (Ok None).

Definition reportJan13 : Heading :=
  mkHeading "Mon, Jan 13: Nubs Nob - XC" " Thin cover, classic only. ".

Definition reportJan14 : Heading :=
  mkHeading "Tue, Jan 14: Nubs Nob - XC" "Freshly groomed, skate and classic.".

Definition reportUndated : Heading :=
  mkHeading "Recently: Nubs Nob - XC" "Some snow.".

Definition htmlResponse (page : Page) : Response :=
  {| resp_forecast := None; resp_periods := None; resp_page := Some page |}.

Definition trailPage (headers : list Heading) : Page :=
  {| page_h4 := headers; page_panels := []; page_records := [] |}.

(** Region 11 reports the location on Jan 13, region 13 on Jan 14; every
    other address is unreachable. *)
Definition twoRegions : string -> Res Response :=
  fun url =>
    if String.eqb url (regionUrl 11) then Ok (htmlResponse (trailPage [reportJan13]))
    else if String.eqb url (regionUrl 13) then Ok (htmlResponse (trailPage [reportJan14]))
    else offline url.

Definition sampleDocument : Document :=
  [("timestamp", VString "2025-01-14T00:00:00.000Z")].

(** A network that answers the listed addresses and no other. *)
Definition serve (table : list (string * Response)) : string -> Res Response :=
  fun url =>
    match find (fun kv => String.eqb (fst kv) url) table with
    | Some kv => Ok (snd kv)
    | None => offline url
    end.

(** The network [http] with [url] out of reach. *)
Definition without (url : string) (http : string -> Res Response)
  : string -> Res Response :=
  fun u => if String.eqb u url then Throw (NetworkError "ECONNRESET") else http u.

Definition resortPage : Page :=
  {| page_h4 := [];
     page_panels := [];
     page_records :=
       [ ["Date:"; " January 14, 2025 "];
         ["Lifts Open:"; "8 of 11"];
         ["New Snow since yesterday:"; "2"; "5"; "9"; "60"] ] |}.

(** Only the resort page can be reached. *)
Definition onlyResort : string -> Res Response :=
  serve [(nubsNobUrl, htmlResponse resortPage)].

Definition samplePeriod : Period :=
  {| period_name := "Tonight";
     period_startTime := "Jan 14, 2025";
     period_temperature := 12;
     period_probabilityOfPrecipitation := Some 40;
     period_shortForecast := "Snow Showers";
     period_detailedForecast :=
       "Cloudy. New snow accumulation of 2 to 4 inches possible. Windy." |}.

Definition pointAnswer (forecastUrl : string) : Response :=
  {| resp_forecast := Some forecastUrl; resp_periods := None; resp_page := None |}.

Definition forecastAnswer (periods : list Period) : Response :=
  {| resp_forecast := None; resp_periods := Some periods; resp_page := None |}.

Definition shelby : Location := mkLocation "42.6711" "-83.0328" "Shelby Township".
Definition nubs : Location := mkLocation "45.47" "-84.903" "Nubs Nob".

Definition shelbyForecast : string :=
  "https://api.weather.gov/gridpoints/DTX/65,49/forecast".
Definition nubsForecast : string :=
  "https://api.weather.gov/gridpoints/APX/108,77/forecast".

(** The weather service answers for Shelby Township and Nubs Nob; the
    hourly forecasts have the body [hourly]. *)
Definition weatherNet (hourly : Response) : string -> Res Response :=
  serve [ (pointUrl shelby, pointAnswer shelbyForecast);
          (shelbyForecast, forecastAnswer [samplePeriod]);
          (hourlyUrlOf shelbyForecast, hourly);
          (pointUrl nubs, pointAnswer nubsForecast);
          (nubsForecast, forecastAnswer [samplePeriod; samplePeriod]);
          (hourlyUrlOf nubsForecast, hourly) ].

(** ** The start-up check *)

Definition requiredEnvVars : list string :=
  ["GITHUB_TOKEN"; "GITHUB_OWNER"; "GITHUB_REPO"].

(** [process.env[varName]] is truthy: set, and not the empty string. *)
Definition envSet (processEnv : gmap string string) (varName : string) : bool :=
  match processEnv !! varName with
  | Some value => truthy value
  | None => false
  end.

Definition missingEnvVars (processEnv : gmap string string) : list string :=
  List.filter (fun varName => negb (envSet processEnv varName)) requiredEnvVars.

(** The script run directly: the check of the environment, then [main]. *)
Definition program (processEnv : gmap string string) (env : Env) : M Z :=
  if (0 <? length (missingEnvVars processEnv))%nat then exit 1 else main env.

(** ** The pipeline over a network whose answers may change

    The adapters and [main] once more, with a network that is a function
    of the address and of the history so far: a request that failed may
    succeed when it is repeated.  The publisher and the notifier do not use
    that network and are the ones above; with a network that ignores the
    history these definitions are the ones above. *)

Module Live.

Definition Network : Type := string -> list Event -> Res Response.

(** [axios.get(url)]: the answer depends on what happened so far. *)
Definition axiosGet (net : Network) (url : string) : M Response :=
  request url (net url).

(** The body of the [try] block for one location. *)
Definition fetchLocation (net : Network) (env : Env) (location : Location)
  : M WeatherEntry :=
  let* pointResponse :=
    fetchWithRetry (axiosGet net (pointUrl location)) defaultRetries in
  let* pointResponse := defined "data" pointResponse in
  let* forecastUrl := defined "replace" (resp_forecast pointResponse) in
  let hourlyForecastUrl := hourlyUrlOf forecastUrl in
  let* responses :=
    promiseAll2
      (fetchWithRetry (axiosGet net forecastUrl) defaultRetries)
      (fetchWithRetry (axiosGet net hourlyForecastUrl) defaultRetries) in
  let* forecastResponse := defined "data" (fst responses) in
  let* periods := defined "slice" (resp_periods forecastResponse) in
  let processedForecasts := map (processPeriod env) (take 20 periods) in
  ret {| we_name := loc_name location; we_forecast := processedForecasts |}.

Definition weatherStep (net : Network) (env : Env)
    (weatherData : gmap string WeatherEntry) (item : string * Location)
  : M (gmap string WeatherEntry) :=
  let '(locationKey, location) := item in
  let* entry :=
    tryCatch (fetchLocation net env location)
      (fun _ => let* now := readClock env in ret (unavailable location now)) in
  ret (<[locationKey := entry]> weatherData).

Definition getWeatherData (net : Network) (env : Env)
  : M (gmap string WeatherEntry) :=
  let* reachable := checkDns env "api.weather.gov" in
  if negb reachable then ret ∅
  else forEachM (weatherStep net env) LOCATIONS ∅.

(** The per-park revision of the resort-bulletin adapter. *)
Definition fetchPark (net : Network) (parkId : string) (searchTerms : list string)
  : M ParkEntry :=
  let* response :=
    fetchWithRetry (axiosGet net (PerPark.parkUrl parkId)) defaultRetries in
  let* response := defined "data" response in
  let* page := load (resp_page response) in
  match findPanel page parkId with
  | Some parkPanel =>
      ret {| park_title := Some (trim (panel_title parkPanel));
             park_sections := PerPark.matchingSections searchTerms parkPanel;
             park_error := None |}
  | None =>
      ret {| park_title := None; park_sections := []; park_error := None |}
  end.

Definition parkStep (net : Network) (conditions : gmap string ParkEntry)
    (item : string * list string) : M (gmap string ParkEntry) :=
  let '(parkId, searchTerms) := item in
  let* entry :=
    tryCatch (fetchPark net parkId searchTerms)
      (fun error => ret (PerPark.failedPark error)) in
  ret (<[parkId := entry]> conditions).

Definition getMetroparkConditions (net : Network) : M MetroparkResult :=
  let* conditions := forEachM (parkStep net) PerPark.parkMap ∅ in
  ret (ParkConditions conditions).

Definition regionStep (net : Network) (env : Env)
    (conditions : gmap string TrailEntry) (region : Z)
  : M (gmap string TrailEntry) :=
  tryCatch
    (let* response :=
       fetchWithRetry (axiosGet net (regionUrl region)) defaultRetries in
     let* response := defined "data" response in
     let* page := load (resp_page response) in
     ret (fold_left (processHeader env) (page_h4 page) conditions))
    (fun _ => ret conditions).

Definition getNordicSkiRacerConditions (net : Network) (env : Env)
  : M (gmap string TrailReport) :=
  let* conditions :=
    forEachM (regionStep net env) (env_regionOrder env regions) ∅ in
  ret (dropDate <$> conditions).

Definition getNubsNobConditions (net : Network) : M ResortConditions :=
  let* response := fetchWithRetry (axiosGet net nubsNobUrl) defaultRetries in
  let* response := defined "data" response in
  let* page := load (resp_page response) in
  ret {| rc_date := getValueByLabel page "Date:";
         rc_liftsOpen := getValueByLabel page "Lifts Open:";
         rc_xcTrails := getValueByLabel page "XC Trail System:";
         rc_nightSkiing := getValueByLabel page "Night Skiing:";
         rc_comments := getValueByLabel page "Comments:";
         rc_snowData := getSnowData page |}.

(** [main()]; the value is the exit status of the process. *)
Definition main (net : Network) (env : Env) : M Z :=
  tryCatch
    (let* now := readClock env in
     let timestamp := env_toISOString env now in
     let* weather := getWeatherData net env in
     let* metroparkConditions := getMetroparkConditions net in
     let* nordicConditions := getNordicSkiRacerConditions net env in
     let* nubsNob := getNubsNobConditions net in
     let data :=
       document timestamp weather metroparkConditions nordicConditions nubsNob in
     updateGitHubData env data;;
     ret 0)
    (fun error => notifyError env error;; exit 1).

(** The network of [env], which answers an address the same way whatever
    happened before. *)
Definition stationary (env : Env) : Network := fun url _ => env_http env url.

End Live.

(** ** The earlier revision of the weather adapter *)

Module Legacy.

Record GridLocation : Type := mkGridLocation {
  grid_gridId : string;
  grid_gridX : Z;
  grid_gridY : Z;
  grid_name : string
}.

Definition LOCATIONS : list (string * GridLocation) :=
  [ ("shelbyTownship", mkGridLocation "DTX" 65 49 "Shelby Township");
    ("harborSprings", mkGridLocation "APX" 108 77 "Harbor Springs") ].

Definition forecastUrl (location : GridLocation) : string :=
  "https://api.weather.gov/gridpoints/" +:+ grid_gridId location +:+ "/"
  +:+ pretty (grid_gridX location) +:+ "," +:+ pretty (grid_gridY location)
  +:+ "/forecast".

Record ForecastPeriod : Type := mkForecastPeriod {
  fp_name : string;
  fp_timestamp : option Z;
  fp_temp : Z;
  fp_snowfall : Z;
  fp_shortForecast : string
}.

Record WeatherEntry : Type := mkWeatherEntry {
  we_name : string;
  we_forecast : list ForecastPeriod
}.

Definition processPeriod (env : Env) (period : Period) : ForecastPeriod :=
  {| fp_name := period_name period;
     fp_timestamp := env_dateParse env (period_startTime period);
     fp_temp := period_temperature period;
     fp_snowfall := orZero (period_probabilityOfPrecipitation period);
     fp_shortForecast := period_shortForecast period |}.

(** One iteration of the loop; nothing is caught. *)
Definition weatherStep (env : Env) (weatherData : gmap string WeatherEntry)
    (item : string * GridLocation) : M (gmap string WeatherEntry) :=
  let '(locationKey, location) := item in
  let* response :=
    fetchWithRetry (axiosGet env (forecastUrl location)) defaultRetries in
  let* response := defined "data" response in
  let* periods := defined "slice" (resp_periods response) in
  ret (<[locationKey :=
           {| we_name := grid_name location;
              we_forecast := map (processPeriod env) (take 4 periods) |}]>
         weatherData).

Definition getWeatherData (env : Env) : M (gmap string WeatherEntry) :=
  forEachM (weatherStep env) LOCATIONS ∅.

(** A row of the trail-conditions table: the texts of its first, second and
    third cell. *)
Record Row : Type := mkRow {
  row_first : string;
  row_second : string;
  row_third : string
}.

Definition relevantLocations : list string := ["Nubs Nob"; "Huron Meadows Metropark"].

(** The callback of [$('table tr').each(...)]. *)
Definition processRow (conditions : gmap string TrailReport) (row : Row)
  : gmap string TrailReport :=
  let location := trim (row_first row) in
  if existsb (String.eqb location) relevantLocations
  then <[location := {| tr_lastUpdated := trim (row_second row);
                        tr_conditions := trim (row_third row) |}]> conditions
  else conditions.

End Legacy.

(** ** Further definitions used to state properties *)

(** A location key mentions one of the relevant locations, whatever the
    case of its letters. *)
Definition mentionsRelevant (key : string) : bool :=
  existsb (fun location => includes (toLowerCase key) (toLowerCase location))
          relevantLocations.

(** The label of a conditions record: its first cell, trimmed. *)
Definition labelOf (cells : list string) : string := trim (at_ 0 cells).

Definition isPutEvent (ev : Event) : bool :=
  match ev with EvPut _ => true | _ => false end.

(** The entries of the trail-report map keep what they were built from. *)
Definition entryConsistent (env : Env) (key : string) (entry : TrailEntry) : Prop :=
  mentionsRelevant key = true
  /\ trim key = key
  /\ trim (te_lastUpdated entry) = te_lastUpdated entry
  /\ trim (te_conditions entry) = te_conditions entry
  /\ te_date entry = parseDateFromHeader env (te_lastUpdated entry).

(** ** Further samples and measures *)

Definition stonyPanel : Panel :=
  {| panel_title := " Stony Creek Metropark ";
     panel_p := [];
     panel_li := [];
     panel_strong :=
       [ mkElement "Stony Creek Cross Country Ski Trails:"
           "Stony Creek Cross Country Ski Trails: Groomed on Jan 14. ";
         mkElement "Golf Course:" "Golf Course: Closed for the season." ] |}.

Definition parkPage : Page :=
  {| page_h4 := [];
     page_panels := [("StonyCreekMetropark", stonyPanel)];
     page_records := [] |}.

(** The park-closures page answers for Stony Creek only. *)
Definition stonyOnly : string -> Res Response :=
  serve [(PerPark.parkUrl "StonyCreekMetropark", htmlResponse parkPage)].

Definition reportWithoutColon : Heading :=
  mkHeading "Nubs Nob - XC, Tue Jan 14" "Groomed.".

Definition reportElsewhere : Heading :=
  mkHeading "Tue, Jan 14: Boyne Highlands" "Groomed.".

Definition tokenOnly : gmap string string :=
  {[ "GITHUB_TOKEN" := "t0ken"; "GITHUB_REPO" := "" ]}.

(** Two headers that are not stored under the same key. *)
Definition distinctLocations (a b : Heading) : Prop :=
  forall da la db lb,
    matchedHeader a = Some (da, la) -> matchedHeader b = Some (db, lb) -> la <> lb.

(** Two regions whose pages, when both load, share no key. *)
Definition regionsApart (env : Env) (r1 r2 : Z) : Prop :=
  forall p1 p2,
    loadedPage env (regionUrl r1) = Ok p1 ->
    loadedPage env (regionUrl r2) = Ok p2 ->
    Forall (fun a => Forall (distinctLocations a) (page_h4 p2)) (page_h4 p1).

Definition reportHuron : Heading :=
  mkHeading "Sun, Jan 12: Huron Meadows Metropark" "Rolled and tracked.".

(** Region 11 reports the resort, region 13 the park. *)
Definition apartRegions : string -> Res Response :=
  fun url =>
    if String.eqb url (regionUrl 11)
    then Ok (htmlResponse (trailPage [reportJan13; reportJan14]))
    else if String.eqb url (regionUrl 13)
         then Ok (htmlResponse (trailPage [reportHuron]))
         else offline url.

Definition gridShelby : Legacy.GridLocation :=
  Legacy.mkGridLocation "DTX" 65 49 "Shelby Township".

Definition gridHarbor : Legacy.GridLocation :=
  Legacy.mkGridLocation "APX" 108 77 "Harbor Springs".

(** The forecast of a location in the earlier revision: at most four
    periods of the answer. *)
Definition legacyEntry (env : Env) (location : Legacy.GridLocation)
    (periods : list Period) : Legacy.WeatherEntry :=
  {| Legacy.we_name := Legacy.grid_name location;
     Legacy.we_forecast := map (Legacy.processPeriod env) (take 4 periods) |}.

(** The report a table row is stored as. *)
Definition rowReport (row : Legacy.Row) : TrailReport :=
  {| tr_lastUpdated := trim (Legacy.row_second row);
     tr_conditions := trim (Legacy.row_third row) |}.

(** Only the second forecast can be reached. *)
Definition harborOnly : string -> Res Response :=
  serve [ (Legacy.forecastUrl gridHarbor, forecastAnswer [samplePeriod]) ].

Definition isRequest (ev : Event) : bool :=
  match ev with EvGet _ => true | _ => false end.

(** The number of GET requests in a history. *)
Definition requests (h : list Event) : nat := length (List.filter isRequest h).

(** The time spent waiting between attempts, in ms. *)
Definition totalDelay (h : list Event) : Z := fold_right Z.add 0 (delays h).

(** A history that costs no more than [n] fetches that fail to the end. *)
Definition withinBudget (n : nat) (h : list Event) : Prop :=
  (requests h <= 3 * n)%nat /\ totalDelay h <= 3000 * Z.of_nat n.

(** The computation [m], run after any history, adds events that satisfy
    [P] and leaves what was there. *)
Definition appends {A} (m : M A) (P : list Event -> Prop) : Prop :=
  forall h, exists evs, snd (m h) = h ++ evs /\ P evs.

(** The computation [m] returns a value, whatever happened before. *)
Definition returns {A} (m : M A) : Prop :=
  forall h, exists a, fst (m h) = Ok a.

(** Lookups, requests, waits and retry lines only, within the budget of
    [n] fetches. *)
Definition fetches (n : nat) (evs : list Event) : Prop :=
  Forall (fun ev => isFetchEvent ev = true) evs /\ withinBudget n evs.

(** A network on which the first request to each address is reset, and
    every later one is answered by [http]. *)
Definition resetOnce (http : string -> Res Response) : Live.Network :=
  fun url h =>
    if (calls url h =? 0)%nat then Throw (NetworkError "ECONNRESET") else http url.

(** ** Facts about the string operations *)

#[local] Arguments String.append : simpl nomatch.

Section StringFacts.

Lemma startsWith_iff (p s : string) :
  startsWith p s = true <-> exists q, s = p +:+ q.
Proof.
  revert s. induction p as [|a p IH]; intros s; simpl.
  - split; [intros _; exists s; reflexivity | reflexivity].
  - destruct s as [|b s].
    + split; [discriminate | intros [q Hq]; discriminate].
    + destruct (Ascii.eqb_spec a b) as [->|Hne].
      * rewrite IH. split; intros [q Hq]; exists q; simpl in *; congruence.
      * split; [discriminate | intros [q Hq]; simpl in Hq; congruence].
Qed.

Lemma includes_iff (s needle : string) :
  includes s needle = true <-> exists a b, s = a +:+ needle +:+ b.
Proof.
  induction s as [|c s IH]; simpl.
  - destruct (startsWith needle "") eqn:Hp.
    + apply startsWith_iff in Hp as [q Hq].
      split; [intros _; exists "", q; exact Hq | reflexivity].
    + split; [discriminate|]. intros (a & b & Hab).
      destruct a; [|discriminate]. simpl in Hab.
      assert (startsWith needle "" = true) by (apply startsWith_iff; eauto).
      congruence.
  - destruct (startsWith needle (String c s)) eqn:Hp.
    + apply startsWith_iff in Hp as [q Hq].
      split; [intros _; exists "", q; exact Hq | reflexivity].
    + rewrite IH. split.
      * intros (a & b & ->). exists (String c a), b. reflexivity.
      * intros (a & b & Hab). destruct a as [|c' a].
        -- simpl in Hab.
           assert (startsWith needle (String c s) = true)
             by (apply startsWith_iff; eauto).
           congruence.
        -- simpl in Hab. injection Hab as _ ->. eauto.
Qed.

Lemma includes_truthy (s needle : string) :
  includes s needle = true -> truthy needle = true -> truthy s = true.
Proof.
  intros Hin Hne. destruct s; [|reflexivity].
  simpl in Hin. destruct needle; [discriminate Hne | discriminate Hin].
Qed.

Lemma append_assoc (a b c : string) : (a +:+ b) +:+ c = a +:+ b +:+ c.
Proof. induction a; simpl; congruence. Qed.

(** Every piece of a split is a contiguous part of the string; the first
    piece is a prefix of what is left after the skipped code units. *)
Lemma splitGo_parts (sep : string) (s : string) :
  forall skip,
    (exists first others,
        splitGo sep skip s = first :: others /\
        exists rest, substringFrom skip s = first +:+ rest)
    /\ forall piece, In piece (tail (splitGo sep skip s)) ->
                     exists a b, s = a +:+ piece +:+ b.
Proof.
  induction s as [|c s IH]; intros skip.
  - simpl. split.
    + exists "", []. split; [reflexivity|]. exists "". destruct skip; reflexivity.
    + intros piece [].
  - destruct skip as [|k].
    + simpl splitGo. destruct (startsWith sep (String c s)) eqn:Hp.
      * split.
        -- eexists "", _. split; [reflexivity|]. exists (String c s). reflexivity.
        -- simpl. intros piece Hin.
           destruct (IH (Nat.pred (String.length sep)))
             as [(first & others & Heq & rest & Hrest) Htl].
           rewrite Heq in Hin. destruct Hin as [<-|Hin].
           ++ assert (Hsub : exists a b, s = a +:+ first +:+ b).
              { clear -Hrest. revert Hrest.
                generalize (Nat.pred (String.length sep)) as n.
                induction s as [|d s IHs]; intros n Hrest.
                - destruct n; simpl in Hrest; exists "", rest; exact Hrest.
                - destruct n as [|n]; simpl in Hrest.
                  + exists "", rest. exact Hrest.
                  + destruct (IHs _ Hrest) as (a & b & ->).
                    exists (String d a), b. reflexivity. }
              destruct Hsub as (a & b & ->).
              exists (String c a), b. reflexivity.
           ++ rewrite Heq in Htl. destruct (Htl piece Hin) as (a & b & ->).
              exists (String c a), b. reflexivity.
      * destruct (IH 0%nat) as [(first & others & Heq & rest & Hrest) Htl].
        rewrite Heq. simpl. split.
        -- exists (String c first), others. split; [reflexivity|].
           exists rest. simpl in Hrest. rewrite Hrest. reflexivity.
        -- intros piece Hin. rewrite Heq in Htl.
           destruct (Htl piece Hin) as (a & b & ->).
           exists (String c a), b. reflexivity.
    + simpl splitGo. destruct (IH k) as [(first & others & Heq & rest & Hrest) Htl].
      split.
      * exists first, others. split; [exact Heq|]. exists rest. exact Hrest.
      * intros piece Hin. destruct (Htl piece Hin) as (a & b & ->).
        exists (String c a), b. reflexivity.
Qed.

Lemma split_part (sep s piece : string) :
  In piece (split sep s) -> exists a b, s = a +:+ piece +:+ b.
Proof.
  unfold split. intros Hin.
  destruct (splitGo_parts sep s 0) as [(first & others & Heq & rest & Hrest) Htl].
  rewrite Heq in Hin, Htl. destruct Hin as [<-|Hin].
  - exists "", rest. exact Hrest.
  - apply Htl. exact Hin.
Qed.

Lemma includes_part (s piece needle : string) :
  (exists a b, s = a +:+ piece +:+ b) ->
  includes piece needle = true -> includes s needle = true.
Proof.
  intros (a & b & ->) Hin. apply includes_iff in Hin as (a' & b' & ->).
  apply includes_iff. exists (a +:+ a'), (b' +:+ b).
  rewrite !append_assoc. reflexivity.
Qed.

End StringFacts.

(** ** Weather adapter: snow-accumulation extraction *)

Example snowAccumulation_none :
  snowAccumulation "Mostly cloudy, with a low around 12." = "".
Proof. reflexivity. Qed.

Example snowAccumulation_last_sentence :
  snowAccumulation "Snow. New snow accumulation of around one inch."
  = "New snow accumulation of around one inch".
Proof. reflexivity. Qed.

(** C4. For every detailed-forecast string the snow accumulation stored by
    the weather adapter is the trimmed first period-delimited sentence that
    contains "New snow accumulation", and the empty string when there is
    none; for "Cloudy. New snow accumulation of 2 to 4 inches possible.
    Windy." it is the middle sentence alone. *)
Theorem snowAccumulation_extraction :
  (forall detailedForecast : string,
      snowAccumulation detailedForecast = snowSentenceSpec detailedForecast)
  /\ (forall (env : Env) (period : Period),
         fp_snowAmount (processPeriod env period)
         = snowSentenceSpec (period_detailedForecast period))
  /\ snowAccumulation
       "Cloudy. New snow accumulation of 2 to 4 inches possible. Windy."
     = "New snow accumulation of 2 to 4 inches possible".
Proof.
  assert (Hall : forall d, snowAccumulation d = snowSentenceSpec d).
  { intros d. unfold snowAccumulation, snowSentenceSpec, snowString.
    destruct (find _ (split "." d)) as [sentence|] eqn:Hfind.
    - apply find_some in Hfind as [Hin Hmark].
      assert (Hd : includes d "New snow accumulation" = true)
        by (eapply includes_part; [apply (split_part "." d sentence Hin) | exact Hmark]).
      rewrite Hd.
      rewrite (includes_truthy _ _ Hmark); reflexivity.
    - destruct (includes d "New snow accumulation"); reflexivity. }
  split; [exact Hall|]. split; [|reflexivity].
  intros env period. simpl. apply Hall.
Qed.

(** ** Retry executor *)

Section Retry.

Context {A : Type}.
Variable label : string.
Variable outcome : list Event -> Res A.
Variable retries : Z.
Variable h0 : list Event.

(** One failed attempt that is not the last one: wait, log, go on. *)
Lemma retryLoop_failed (n j : nat) (e : JsError) :
  outcome (afterFailures label retries j h0) = Throw e ->
  Z.of_nat j < retries - 1 ->
  retryLoop (request label outcome) retries (S n) (Z.of_nat j)
    (afterFailures label retries j h0)
  = retryLoop (request label outcome) retries n (Z.of_nat (S j))
      (afterFailures label retries (S j) h0).
Proof.
  intros Hout Hlast. simpl retryLoop.
  destruct (Z.ltb_spec (Z.of_nat j) retries) as [_|Hge]; [|lia].
  unfold tryCatch, bind, request at 1. rewrite Hout.
  destruct (Z.eqb_spec (Z.of_nat j) (retries - 1)) as [Heq|_]; [lia|].
  unfold sleep, emit. cbn [afterFailures].
  rewrite <- !app_assoc. cbn [app].
  replace (Z.of_nat j + 1) with (Z.of_nat (S j)) by lia. reflexivity.
Qed.

(** The attempt that succeeds ends the loop. *)
Lemma retryLoop_succeeded (n j : nat) (v : A) :
  outcome (afterFailures label retries j h0) = Ok v ->
  Z.of_nat j < retries ->
  retryLoop (request label outcome) retries (S n) (Z.of_nat j)
    (afterFailures label retries j h0)
  = (Ok (Some v), afterFailures label retries j h0 ++ [EvGet label]).
Proof.
  intros Hout Hlt. simpl retryLoop.
  destruct (Z.ltb_spec (Z.of_nat j) retries) as [_|Hge]; [|lia].
  unfold tryCatch, bind, request at 1. rewrite Hout. reflexivity.
Qed.

(** The last attempt, failing, re-raises its own error. *)
Lemma retryLoop_exhausted (n j : nat) (e : JsError) :
  outcome (afterFailures label retries j h0) = Throw e ->
  Z.of_nat j = retries - 1 ->
  retryLoop (request label outcome) retries (S n) (Z.of_nat j)
    (afterFailures label retries j h0)
  = (Throw e, afterFailures label retries j h0 ++ [EvGet label]).
Proof.
  intros Hout Hlast. simpl retryLoop.
  destruct (Z.ltb_spec (Z.of_nat j) retries) as [_|Hge]; [|lia].
  unfold tryCatch, bind, request at 1. rewrite Hout.
  rewrite Hlast, Z.eqb_refl. reflexivity.
Qed.

(** [d] failures, then the attempt of index [j + d] decides. *)
Lemma retryLoop_skip (d : nat) :
  forall n j,
    (forall i, (j <= i < j + d)%nat ->
               exists e, outcome (afterFailures label retries i h0) = Throw e) ->
    Z.of_nat (j + d) <= retries - 1 ->
    retryLoop (request label outcome) retries (d + n) (Z.of_nat j)
    (afterFailures label retries j h0)
    = retryLoop (request label outcome) retries n (Z.of_nat (j + d))
        (afterFailures label retries (j + d) h0).
Proof.
  induction d as [|d IH]; intros n j Hfail Hle.
  - rewrite Nat.add_0_r. reflexivity.
  - destruct (Hfail j ltac:(lia)) as [e He].
    change (S d + n)%nat with (S (d + n)).
    rewrite (retryLoop_failed _ _ e He) by lia.
    rewrite IH.
    + replace (S j + d)%nat with (j + S d)%nat by lia. reflexivity.
    + intros i Hi. apply Hfail. lia.
    + lia.
Qed.

Lemma calls_app (h h' : list Event) :
  calls label (h ++ h') = (calls label h + calls label h')%nat.
Proof. induction h as [|ev h IH]; simpl; [reflexivity | rewrite IH; lia]. Qed.

Lemma calls_afterFailures (j : nat) :
  calls label (afterFailures label retries j h0 ++ [EvGet label])
  = (calls label h0 + S j)%nat.
Proof.
  rewrite calls_app. simpl. rewrite String.eqb_refl.
  induction j as [|j IH]; [simpl; lia|].
  cbn [afterFailures]. rewrite calls_app. simpl. rewrite String.eqb_refl. lia.
Qed.

Lemma delays_app (h h' : list Event) : delays (h ++ h') = delays h ++ delays h'.
Proof.
  induction h as [|ev h IH]; [reflexivity|].
  destruct ev; simpl; rewrite ?IH; reflexivity.
Qed.

Lemma delays_afterFailures (j : nat) :
  delays (afterFailures label retries j h0 ++ [EvGet label]) = delays h0 ++ backoff j.
Proof.
  rewrite delays_app. simpl. rewrite app_nil_r.
  unfold backoff. induction j as [|j IH].
  - simpl. rewrite app_nil_r. reflexivity.
  - cbn [afterFailures]. rewrite delays_app, IH.
    rewrite seq_S, map_app, app_assoc. reflexivity.
Qed.

End Retry.

Example fetchWithRetry_third_attempt :
  fetchWithRetry
    (request "op" (fun h => if (calls "op" h <? 2)%nat
                            then Throw (NetworkError "busy") else Ok 7))
    defaultRetries []
  = (Ok (Some 7),
     [EvGet "op"; EvSleep 1000; EvRetryLog 1 3;
      EvGet "op"; EvSleep 2000; EvRetryLog 2 3; EvGet "op"]).
Proof. reflexivity. Qed.

(** C3, as amended.  For every operation and every retry bound of at least
    one: an operation that fails on every attempt is called exactly [retries]
    times (3 by default) and the error of its last attempt is re-raised; an
    operation that first succeeds on its k-th attempt (k at most the bound)
    is called exactly k times and that attempt's result is returned.  The
    waits between consecutive attempts are 1000 ms, 2000 ms, 4000 ms, ...,
    doubling from one second. *)
Theorem fetchWithRetry_contract {A : Type} (label : string)
    (outcome : list Event -> Res A) (retries : Z) (h : list Event) :
  1 <= retries ->
  let before := fun j => afterFailures label retries j h in
  let run := fetchWithRetry (request label outcome) retries h in
  ((forall t, exists e, outcome t = Throw e) ->
   exists e,
     outcome (before (Z.to_nat retries - 1)%nat) = Throw e
     /\ fst run = Throw e
     /\ snd run = before (Z.to_nat retries - 1)%nat ++ [EvGet label]
     /\ calls label (snd run) = (calls label h + Z.to_nat retries)%nat
     /\ delays (snd run) = delays h ++ backoff (Z.to_nat retries - 1))
  /\ (forall (k : nat) (v : A),
         (1 <= k)%nat -> Z.of_nat k <= retries ->
         (forall j, (j < k - 1)%nat -> exists e, outcome (before j) = Throw e) ->
         outcome (before (k - 1)%nat) = Ok v ->
         fst run = Ok (Some v)
         /\ snd run = before (k - 1)%nat ++ [EvGet label]
         /\ calls label (snd run) = (calls label h + k)%nat
         /\ delays (snd run) = delays h ++ backoff (k - 1))
  /\ defaultRetries = 3.
Proof.
  intros Hpos before run. split; [|split; [|reflexivity]].
  - intros Hfail.
    destruct (Hfail (before (Z.to_nat retries - 1)%nat)) as [e He].
    exists e. split; [exact He|].
    assert (Hrun : run = (Throw e, before (Z.to_nat retries - 1)%nat ++ [EvGet label])).
    { unfold run, fetchWithRetry.
      replace (Z.to_nat retries) with ((Z.to_nat retries - 1) + 1)%nat at 1 by lia.
      change h with (afterFailures label retries 0 h) at 1.
      change 0 with (Z.of_nat 0).
      rewrite retryLoop_skip.
      - apply retryLoop_exhausted; [exact He | simpl; lia].
      - intros i _. apply Hfail.
      - simpl. lia. }
    rewrite Hrun. subst before. simpl. repeat split.
    + rewrite calls_afterFailures. lia.
    + apply delays_afterFailures.
  - intros k v Hk Hle Hfail Hok.
    assert (Hrun : run = (Ok (Some v), before (k - 1)%nat ++ [EvGet label])).
    { unfold run, fetchWithRetry.
      replace (Z.to_nat retries)
        with ((k - 1) + S (Z.to_nat retries - k))%nat at 1 by lia.
      change h with (afterFailures label retries 0 h) at 1.
      change 0 with (Z.of_nat 0).
      rewrite retryLoop_skip.
      - apply retryLoop_succeeded; [exact Hok | lia].
      - intros i Hi. apply Hfail. lia.
      - simpl. lia. }
    rewrite Hrun. subst before. simpl. repeat split.
    + rewrite calls_afterFailures. lia.
    + apply delays_afterFailures.
Qed.

Lemma fetchWithRetry_contract_witness :
  fst (fetchWithRetry (request "op" (fun _ => @Throw string (NetworkError "down"))) 3 [])
  = Throw (NetworkError "down")
  /\ calls "op"
       (snd (fetchWithRetry
               (request "op" (fun _ => @Throw string (NetworkError "down"))) 3 []))
     = 3%nat
  /\ fst (fetchWithRetry (request "op" refusedOnce) 3 []) = Ok (Some "page")
  /\ snd (fetchWithRetry (request "op" refusedOnce) 3 [])
     = [EvGet "op"; EvSleep 1000; EvRetryLog 1 3; EvGet "op"].
Proof.
  destruct (fetchWithRetry_contract "op"
              (fun _ => @Throw string (NetworkError "down")) 3 [] ltac:(lia))
    as [Hfail _].
  destruct (Hfail (fun _ => ex_intro _ (NetworkError "down") eq_refl))
    as (e & He & Hres & _ & Hcalls & _).
  destruct (fetchWithRetry_contract "op" refusedOnce 3 [] ltac:(lia))
    as (_ & Hok & _).
  destruct (Hok 2%nat "page" ltac:(lia) ltac:(lia)) as (Hv & Htrace & _).
  - intros j Hj. exists (NetworkError "refused").
    assert (j = 0%nat) as -> by lia. reflexivity.
  - reflexivity.
  - injection He as <-.
    split; [exact Hres|]. split; [exact Hcalls|]. split; [exact Hv | exact Htrace].
Defined.

(** C3, as stated, fails for the bound 0: the loop body never runs, so the
    operation is not called and no error is raised; the call returns
    [undefined]. *)
Lemma fetchWithRetry_zero_bound :
  (forall t, exists e, (fun _ : list Event => @Throw string (NetworkError "down")) t = Throw e)
  /\ fetchWithRetry (request "op" (fun _ => @Throw string (NetworkError "down"))) 0 []
     = (Ok None, [])
  /\ ~ exists e h',
         fetchWithRetry (request "op" (fun _ => @Throw string (NetworkError "down"))) 0 []
         = (Throw e, h').
Proof.
  split; [intros _; eauto|]. split; [reflexivity|].
  intros (e & h' & H). discriminate H.
Qed.

(** ** Regional trail-report adapter: header dates and the merge rule *)

Example sampleDateParse_jan14 :
  sampleDateParse "Jan 14, 2025" = Some 1736812800000.
Proof. reflexivity. Qed.

Example parseDateFromHeader_tue :
  parseDateFromHeader (sampleEnv offline id (Ok None)) "Tue, Jan 14"
  = Some (mkDate (Some 1736812800000)).
Proof. reflexivity. Qed.

Example parseDateFromHeader_no_comma :
  parseDateFromHeader (sampleEnv offline id (Ok None)) "yesterday" = None.
Proof. reflexivity. Qed.

Example parseDateFromHeader_invalid :
  parseDateFromHeader (sampleEnv offline id (Ok None)) "Tue, soon"
  = Some (mkDate None).
Proof. reflexivity. Qed.

Example matchedHeader_nubs :
  matchedHeader (mkHeading " Tue, Jan 14: Nubs Nob - XC " "Groomed.")
  = Some ("Tue, Jan 14", "Nubs Nob - XC").
Proof. reflexivity. Qed.

Section TrailMerge.

Variable env : Env.

Lemma processHeader_matched (conditions : gmap string TrailEntry)
    (header : Heading) (dateSection locationSection : string) :
  matchedHeader header = Some (dateSection, locationSection) ->
  processHeader env conditions header
  = if shouldStore (conditions !! locationSection)
                   (parseDateFromHeader env dateSection)
    then <[locationSection := incomingEntry env header dateSection]> conditions
    else conditions.
Proof.
  unfold matchedHeader, processHeader, incomingEntry.
  destruct (length (split ":" (trim (heading_text header))) <? 2)%nat;
    [discriminate|].
  destruct (find _ relevantLocations) as [relevant|]; [|discriminate].
  destruct (truthy relevant); [|discriminate].
  intros [= <- <-]. reflexivity.
Qed.

Lemma processHeader_unmatched (conditions : gmap string TrailEntry)
    (header : Heading) :
  matchedHeader header = None -> processHeader env conditions header = conditions.
Proof.
  unfold matchedHeader, processHeader.
  destruct (length (split ":" (trim (heading_text header))) <? 2)%nat;
    [reflexivity|].
  destruct (find _ relevantLocations) as [relevant|]; [|reflexivity].
  destruct (truthy relevant); [discriminate | reflexivity].
Qed.

(** An existing entry is replaced exactly when both dates parsed and the
    incoming one is strictly later. *)
Lemma shouldStore_existing (stored : TrailEntry) (currentDate : option JsDate) :
  shouldStore (Some stored) currentDate = true
  <-> exists tNew tOld,
      parsedTime currentDate = Some tNew
      /\ parsedTime (te_date stored) = Some tOld
      /\ tOld < tNew.
Proof.
  unfold shouldStore, dateGt, parsedTime.
  destruct currentDate as [[[tn|]]|], (te_date stored) as [[[to|]]|]; simpl;
    try (split; [discriminate | intros (? & ? & ? & ? & ?); discriminate]).
  rewrite Z.ltb_lt. split.
  - intros Hlt. exists tn, to. auto.
  - intros (? & ? & [= <-] & [= <-] & Hlt). exact Hlt.
Qed.

Lemma shouldStore_unparsed (stored : TrailEntry) (currentDate : option JsDate) :
  parsedTime currentDate = None \/ parsedTime (te_date stored) = None ->
  shouldStore (Some stored) currentDate = false.
Proof.
  intros Hnone. destruct (shouldStore (Some stored) currentDate) eqn:Hs; [|reflexivity].
  apply shouldStore_existing in Hs as (tn & to & Hn & Ho & _).
  destruct Hnone; congruence.
Qed.

End TrailMerge.

(** C1. The merged map is keyed by the raw location segment of the header
    (the trimmed text after the first colon): a report touches no other
    key, is stored when its key is new, and replaces an entry already
    stored under its key exactly when both dates parsed and the incoming
    one is strictly later; when either date failed to parse the stored
    entry stays as it is. *)
Theorem trail_merge_rule (env : Env) (conditions : gmap string TrailEntry)
    (header : Heading) (dateSection locationSection : string) :
  matchedHeader header = Some (dateSection, locationSection) ->
  let incoming := incomingEntry env header dateSection in
  let merged := processHeader env conditions header in
  locationSection = trim (at_ 1 (split ":" (trim (heading_text header))))
  /\ (forall key, key <> locationSection -> merged !! key = conditions !! key)
  /\ (conditions !! locationSection = None ->
      merged = <[locationSection := incoming]> conditions)
  /\ forall stored,
      conditions !! locationSection = Some stored ->
      let later :=
        exists tNew tOld,
          parsedTime (te_date incoming) = Some tNew
          /\ parsedTime (te_date stored) = Some tOld
          /\ tOld < tNew in
      (later -> merged = <[locationSection := incoming]> conditions)
      /\ (~ later -> merged = conditions)
      /\ (parsedTime (te_date incoming) = None
          \/ parsedTime (te_date stored) = None -> merged = conditions).
Proof.
  intros Hmatch incoming merged.
  assert (Hstep := processHeader_matched env conditions header _ _ Hmatch).
  fold merged incoming in Hstep.
  split; [|split; [|split]].
  - unfold matchedHeader in Hmatch.
    destruct (length (split ":" (trim (heading_text header))) <? 2)%nat;
      [discriminate|].
    destruct (find _ relevantLocations) as [relevant|]; [|discriminate].
    destruct (truthy relevant); [|discriminate].
    injection Hmatch as _ <-. reflexivity.
  - intros key Hne. rewrite Hstep.
    destruct (shouldStore _ _); [|reflexivity].
    apply lookup_insert_ne. congruence.
  - intros Hnew. rewrite Hstep, Hnew. reflexivity.
  - intros stored Hstored later. rewrite Hstored in Hstep.
    split; [|split].
    + intros Hlater. apply shouldStore_existing in Hlater.
      rewrite Hstep. cbn [incoming incomingEntry te_date] in Hlater.
      rewrite Hlater. reflexivity.
    + intros Hnot. rewrite Hstep.
      destruct (shouldStore (Some stored) _) eqn:Hs; [|reflexivity].
      apply shouldStore_existing in Hs. contradiction.
    + intros Hnone. rewrite Hstep.
      rewrite shouldStore_unparsed; [reflexivity | exact Hnone].
Qed.

Lemma trail_merge_rule_witness :
  processHeader sampleRuntime
    {[ "Nubs Nob - XC" := incomingEntry sampleRuntime reportJan13 "Mon, Jan 13" ]}
    reportJan14
  = {[ "Nubs Nob - XC" := incomingEntry sampleRuntime reportJan14 "Tue, Jan 14" ]}
  /\ processHeader sampleRuntime
       {[ "Nubs Nob - XC" := incomingEntry sampleRuntime reportJan14 "Tue, Jan 14" ]}
       reportUndated
     = {[ "Nubs Nob - XC" := incomingEntry sampleRuntime reportJan14 "Tue, Jan 14" ]}.
Proof.
  split.
  - destruct (trail_merge_rule sampleRuntime
                {[ "Nubs Nob - XC" := incomingEntry sampleRuntime reportJan13 "Mon, Jan 13" ]}
                reportJan14 "Tue, Jan 14" "Nubs Nob - XC" eq_refl)
      as (_ & _ & _ & Hstored).
    destruct (Hstored _ (lookup_singleton_eq _ _)) as (Hlater & _).
    rewrite Hlater.
    + apply insert_singleton_eq.
    + exists 1736812800000, 1736726400000.
      split; [reflexivity|]. split; [reflexivity | lia].
  - destruct (trail_merge_rule sampleRuntime
                {[ "Nubs Nob - XC" := incomingEntry sampleRuntime reportJan14 "Tue, Jan 14" ]}
                reportUndated "Recently" "Nubs Nob - XC" eq_refl)
      as (_ & _ & _ & Hstored).
    destruct (Hstored _ (lookup_singleton_eq _ _)) as (_ & _ & Hkeep).
    apply Hkeep. left. reflexivity.
Defined.

Section TrailOrder.

Variable env : Env.
Variable location : string.

Lemma shouldStore_times (stored : TrailEntry) (currentDate : option JsDate) :
  shouldStore (Some stored) currentDate
  = match parsedTime currentDate, parsedTime (te_date stored) with
    | Some tNew, Some tOld => tOld <? tNew
    | _, _ => false
    end.
Proof.
  unfold shouldStore, dateGt, parsedTime.
  destruct currentDate as [[[tn|]]|], (te_date stored) as [[[to|]]|]; reflexivity.
Qed.

(** A report for a key that already has an entry. *)
Lemma processHeader_existing (conditions : gmap string TrailEntry)
    (header : Heading) (dateSection : string) (stored : TrailEntry) :
  matchedHeader header = Some (dateSection, location) ->
  conditions !! location = Some stored ->
  processHeader env conditions header
  = match parsedTime (parseDateFromHeader env dateSection),
          parsedTime (te_date stored) with
    | Some tNew, Some tOld =>
        if tOld <? tNew
        then <[location := incomingEntry env header dateSection]> conditions
        else conditions
    | _, _ => conditions
    end.
Proof.
  intros Hm Hs. rewrite (processHeader_matched env _ _ _ _ Hm), Hs.
  rewrite shouldStore_times.
  destruct (parsedTime (parseDateFromHeader env dateSection)),
    (parsedTime (te_date stored)); reflexivity.
Qed.

Lemma processHeader_new (conditions : gmap string TrailEntry)
    (header : Heading) (dateSection : string) :
  matchedHeader header = Some (dateSection, location) ->
  conditions !! location = None ->
  processHeader env conditions header
  = <[location := incomingEntry env header dateSection]> conditions.
Proof.
  intros Hm Hs. rewrite (processHeader_matched env _ _ _ _ Hm), Hs. reflexivity.
Qed.

(** Two reports for a key that has no entry yet. *)
Lemma two_reports (conditions : gmap string TrailEntry)
    (first second : Heading) (dFirst dSecond : string) :
  matchedHeader first = Some (dFirst, location) ->
  matchedHeader second = Some (dSecond, location) ->
  conditions !! location = None ->
  fold_left (processHeader env) [first; second] conditions
  = match parsedTime (parseDateFromHeader env dSecond),
          parsedTime (parseDateFromHeader env dFirst) with
    | Some t2, Some t1 =>
        if t1 <? t2
        then <[location := incomingEntry env second dSecond]> conditions
        else <[location := incomingEntry env first dFirst]> conditions
    | _, _ => <[location := incomingEntry env first dFirst]> conditions
    end.
Proof.
  intros H1 H2 Hnew. simpl.
  rewrite (processHeader_new _ _ _ H1 Hnew).
  rewrite (processHeader_existing _ _ _ _ H2 (lookup_insert_eq _ _ _)).
  cbn [incomingEntry te_date].
  destruct (parsedTime (parseDateFromHeader env dSecond)) as [t2|],
    (parsedTime (parseDateFromHeader env dFirst)) as [t1|]; try reflexivity.
  destruct (t1 <? t2); [apply insert_insert_eq | reflexivity].
Qed.

(** Two reports whose dates both parsed and differ: the order in which
    they are merged does not matter, whatever the map holds. *)
Lemma two_reports_comm (conditions : gmap string TrailEntry)
    (a b : Heading) (da db : string) (ta tb : Z) :
  matchedHeader a = Some (da, location) ->
  matchedHeader b = Some (db, location) ->
  parsedTime (parseDateFromHeader env da) = Some ta ->
  parsedTime (parseDateFromHeader env db) = Some tb ->
  ta <> tb ->
  fold_left (processHeader env) [a; b] conditions
  = fold_left (processHeader env) [b; a] conditions.
Proof.
  intros Ha Hb Hta Htb Hne.
  destruct (conditions !! location) as [stored|] eqn:Hs.
  - simpl.
    rewrite (processHeader_existing conditions a da stored Ha Hs).
    rewrite (processHeader_existing conditions b db stored Hb Hs).
    rewrite Hta, Htb.
    destruct (parsedTime (te_date stored)) as [ts|] eqn:Hts.
    + destruct (Z.ltb_spec ts ta), (Z.ltb_spec ts tb).
      * rewrite (processHeader_existing _ b db _ Hb (lookup_insert_eq _ _ _)).
        rewrite (processHeader_existing _ a da _ Ha (lookup_insert_eq _ _ _)).
        cbn [incomingEntry te_date]. rewrite Hta, Htb.
        destruct (Z.ltb_spec ta tb), (Z.ltb_spec tb ta); try lia.
        -- apply insert_insert_eq.
        -- symmetry. apply insert_insert_eq.
      * rewrite (processHeader_existing _ b db _ Hb (lookup_insert_eq _ _ _)).
        rewrite (processHeader_existing _ a da _ Ha Hs).
        cbn [incomingEntry te_date]. rewrite Hta, Htb, Hts.
        destruct (Z.ltb_spec ta tb), (Z.ltb_spec ts ta); try lia. reflexivity.
      * rewrite (processHeader_existing _ b db _ Hb Hs).
        rewrite (processHeader_existing _ a da _ Ha (lookup_insert_eq _ _ _)).
        cbn [incomingEntry te_date]. rewrite Hta, Htb, Hts.
        destruct (Z.ltb_spec tb ta), (Z.ltb_spec ts tb); try lia. reflexivity.
      * rewrite (processHeader_existing _ b db _ Hb Hs).
        rewrite (processHeader_existing _ a da _ Ha Hs).
        rewrite Hta, Htb, Hts.
        destruct (Z.ltb_spec ts ta), (Z.ltb_spec ts tb); try lia. reflexivity.
    + rewrite (processHeader_existing _ b db _ Hb Hs).
      rewrite (processHeader_existing _ a da _ Ha Hs).
      rewrite Hta, Htb, Hts. reflexivity.
  - rewrite (two_reports _ _ _ _ _ Ha Hb Hs), (two_reports _ _ _ _ _ Hb Ha Hs).
    rewrite Hta, Htb.
    destruct (Z.ltb_spec ta tb), (Z.ltb_spec tb ta); try lia; reflexivity.
Qed.

End TrailOrder.

(** ** Running the adapters *)

Section Running.

Variable env : Env.

Lemma fetchWithRetry_axiosGet (url : string) (h : list Event) :
  fetchWithRetry (axiosGet env url) defaultRetries h
  = (match env_http env url with
     | Ok response => Ok (Some response)
     | Throw e => Throw e
     end, h ++ getEvents env url).
Proof.
  unfold fetchWithRetry, axiosGet, getEvents, defaultRetries.
  change (Z.to_nat 3) with 3%nat. cbn [retryLoop].
  unfold tryCatch, bind, request, ret, throw, sleep, emit.
  destruct (env_http env url) as [response|e]; [reflexivity|].
  transitivity
    (@Throw (option Response) e,
     ((((((h ++ [EvGet url]) ++ [EvSleep 1000]) ++ [EvRetryLog 1 3])
          ++ [EvGet url]) ++ [EvSleep 2000]) ++ [EvRetryLog 2 3])
       ++ [EvGet url]);
    [reflexivity|].
  rewrite <- !app_assoc. reflexivity.
Qed.

(** Fetching and loading a page, followed by [k]. *)
Lemma fetchPage_run {B} (url : string) (k : Page -> M B) (h : list Event) :
  (let* response := fetchWithRetry (axiosGet env url) defaultRetries in
   let* response := defined "data" response in
   let* page := load (resp_page response) in
   k page) h
  = match loadedPage env url with
    | Ok page => k page (h ++ getEvents env url)
    | Throw e => (Throw e, h ++ getEvents env url)
    end.
Proof.
  unfold bind at 1. rewrite fetchWithRetry_axiosGet. unfold loadedPage.
  destruct (env_http env url) as [response|e]; [|reflexivity].
  unfold bind, defined, ret, throw.
  destruct (resp_page response); reflexivity.
Qed.

Lemma regionStep_run (conditions : gmap string TrailEntry) (region : Z)
    (h : list Event) :
  regionStep env conditions region h
  = (Ok (regionContribution env conditions region),
     h ++ getEvents env (regionUrl region)).
Proof.
  unfold regionStep, tryCatch. rewrite fetchPage_run.
  unfold regionContribution.
  destruct (loadedPage env (regionUrl region)); reflexivity.
Qed.

Lemma regions_run (order : list Z) :
  forall (conditions : gmap string TrailEntry) (h : list Event),
    forEachM (regionStep env) order conditions h
    = (Ok (fold_left (regionContribution env) order conditions),
       h ++ flat_map (fun region => getEvents env (regionUrl region)) order).
Proof.
  induction order as [|region order IH]; intros conditions h.
  - simpl. rewrite app_nil_r. reflexivity.
  - cbn [forEachM]. unfold bind. rewrite regionStep_run, IH.
    cbn [fold_left flat_map]. rewrite app_assoc. reflexivity.
Qed.

Lemma getNordicSkiRacerConditions_run (h : list Event) :
  getNordicSkiRacerConditions env h
  = (Ok (dropDate <$> trailMap env (env_regionOrder env regions)),
     h ++ flat_map (fun region => getEvents env (regionUrl region))
                   (env_regionOrder env regions)).
Proof.
  unfold getNordicSkiRacerConditions, bind. rewrite regions_run. reflexivity.
Qed.

End Running.

Example regionUrl_11 :
  regionUrl 11 = "https://nordicskiracer.com/ski-trail-conditions.asp?Region=11".
Proof. reflexivity. Qed.

Example nordic_two_regions_reversed :
  fst (getNordicSkiRacerConditions (sampleEnv twoRegions (@rev Z) (Ok None)) [])
  = Ok {[ "Nubs Nob - XC" :=
            mkTrailReport "Tue, Jan 14" "Freshly groomed, skate and classic." ]}.
Proof.
  rewrite getNordicSkiRacerConditions_run. vm_compute. reflexivity.
Qed.

(** C2. Two reports for the same location segment dated "Mon, Jan 13" and
    "Tue, Jan 14" leave the "Tue, Jan 14" report in the map whichever is
    merged first, also when they come from two regions whose requests
    complete in either order; when one of two dates fails to parse, the
    report stored first is retained in both orders; and two reports whose
    dates both parsed to different times merge to the same map in both
    orders. *)
Theorem trail_merge_either_order (env : Env) (location : string) :
  (forall (h13 h14 : Heading) (t13 t14 : Z) (conditions : gmap string TrailEntry),
      matchedHeader h13 = Some ("Mon, Jan 13", location) ->
      matchedHeader h14 = Some ("Tue, Jan 14", location) ->
      parsedTime (parseDateFromHeader env "Mon, Jan 13") = Some t13 ->
      parsedTime (parseDateFromHeader env "Tue, Jan 14") = Some t14 ->
      t13 < t14 ->
      conditions !! location = None ->
      fold_left (processHeader env) [h13; h14] conditions !! location
      = Some (incomingEntry env h14 "Tue, Jan 14")
      /\ fold_left (processHeader env) [h14; h13] conditions !! location
         = Some (incomingEntry env h14 "Tue, Jan 14"))
  /\ (forall (h13 h14 : Heading) (t13 t14 : Z) (r13 r14 : Z)
             (page13 page14 : Page) (history : list Event),
         matchedHeader h13 = Some ("Mon, Jan 13", location) ->
         matchedHeader h14 = Some ("Tue, Jan 14", location) ->
         parsedTime (parseDateFromHeader env "Mon, Jan 13") = Some t13 ->
         parsedTime (parseDateFromHeader env "Tue, Jan 14") = Some t14 ->
         t13 < t14 ->
         loadedPage env (regionUrl r13) = Ok page13 -> page_h4 page13 = [h13] ->
         loadedPage env (regionUrl r14) = Ok page14 -> page_h4 page14 = [h14] ->
         env_regionOrder env regions = [r13; r14]
         \/ env_regionOrder env regions = [r14; r13] ->
         exists reports,
           fst (getNordicSkiRacerConditions env history) = Ok reports
           /\ reports !! location
              = Some {| tr_lastUpdated := "Tue, Jan 14";
                        tr_conditions := trim (heading_nextP h14) |})
  /\ (forall (a b : Heading) (da db : string) (conditions : gmap string TrailEntry),
         matchedHeader a = Some (da, location) ->
         matchedHeader b = Some (db, location) ->
         parsedTime (parseDateFromHeader env da) = None
         \/ parsedTime (parseDateFromHeader env db) = None ->
         conditions !! location = None ->
         fold_left (processHeader env) [a; b] conditions !! location
         = Some (incomingEntry env a da)
         /\ fold_left (processHeader env) [b; a] conditions !! location
            = Some (incomingEntry env b db))
  /\ (forall (a b : Heading) (da db : string) (ta tb : Z)
             (conditions : gmap string TrailEntry),
         matchedHeader a = Some (da, location) ->
         matchedHeader b = Some (db, location) ->
         parsedTime (parseDateFromHeader env da) = Some ta ->
         parsedTime (parseDateFromHeader env db) = Some tb ->
         ta <> tb ->
         fold_left (processHeader env) [a; b] conditions
         = fold_left (processHeader env) [b; a] conditions).
Proof.
  assert (Hpair : forall h13 h14 t13 t14 (conditions : gmap string TrailEntry),
             matchedHeader h13 = Some ("Mon, Jan 13", location) ->
             matchedHeader h14 = Some ("Tue, Jan 14", location) ->
             parsedTime (parseDateFromHeader env "Mon, Jan 13") = Some t13 ->
             parsedTime (parseDateFromHeader env "Tue, Jan 14") = Some t14 ->
             t13 < t14 ->
             conditions !! location = None ->
             fold_left (processHeader env) [h13; h14] conditions
             = <[location := incomingEntry env h14 "Tue, Jan 14"]> conditions
             /\ fold_left (processHeader env) [h14; h13] conditions
                = <[location := incomingEntry env h14 "Tue, Jan 14"]> conditions).
  { intros h13 h14 t13 t14 conditions H13 H14 Ht13 Ht14 Hlt Hnew.
    rewrite (two_reports env location _ _ _ _ _ H13 H14 Hnew).
    rewrite (two_reports env location _ _ _ _ _ H14 H13 Hnew).
    rewrite Ht13, Ht14.
    destruct (Z.ltb_spec t13 t14), (Z.ltb_spec t14 t13); try lia.
    split; reflexivity. }
  split; [|split; [|split]].
  - intros h13 h14 t13 t14 conditions H13 H14 Ht13 Ht14 Hlt Hnew.
    destruct (Hpair h13 h14 t13 t14 conditions H13 H14 Ht13 Ht14 Hlt Hnew)
      as [-> ->].
    rewrite lookup_insert_eq. split; reflexivity.
  - intros h13 h14 t13 t14 r13 r14 page13 page14 history
           H13 H14 Ht13 Ht14 Hlt Hp13 Hh13 Hp14 Hh14 Horder.
    rewrite getNordicSkiRacerConditions_run. cbn [fst].
    eexists. split; [reflexivity|].
    rewrite lookup_fmap.
    destruct (Hpair h13 h14 t13 t14 ∅ H13 H14 Ht13 Ht14 Hlt (lookup_empty _))
      as [Hfwd Hbwd].
    assert (Hmap : trailMap env (env_regionOrder env regions)
                   = <[location := incomingEntry env h14 "Tue, Jan 14"]> ∅).
    { unfold trailMap.
      destruct Horder as [-> | ->]; cbn [fold_left]; unfold regionContribution;
        rewrite Hp13, Hp14, Hh13, Hh14.
      - exact Hfwd.
      - exact Hbwd. }
    rewrite Hmap, lookup_insert_eq. reflexivity.
  - intros a b da db conditions Ha Hb Hnone Hnew.
    rewrite (two_reports env location _ _ _ _ _ Ha Hb Hnew).
    rewrite (two_reports env location _ _ _ _ _ Hb Ha Hnew).
    clear Hpair.
    destruct Hnone as [Hnone | Hnone]; rewrite Hnone;
      [destruct (parsedTime (parseDateFromHeader env db))
      |destruct (parsedTime (parseDateFromHeader env da))];
      rewrite !lookup_insert_eq; split; reflexivity.
  - intros a b da db ta tb conditions. apply two_reports_comm.
Qed.

Lemma trail_merge_either_order_witness :
  fold_left (processHeader sampleRuntime) [reportJan13; reportJan14] ∅
    !! "Nubs Nob - XC"
  = Some (incomingEntry sampleRuntime reportJan14 "Tue, Jan 14")
  /\ fold_left (processHeader sampleRuntime) [reportJan14; reportJan13] ∅
       !! "Nubs Nob - XC"
     = Some (incomingEntry sampleRuntime reportJan14 "Tue, Jan 14")
  /\ (exists reports,
         fst (getNordicSkiRacerConditions
                (sampleEnv twoRegions (@rev Z) (Ok None)) []) = Ok reports
         /\ reports !! "Nubs Nob - XC"
            = Some (mkTrailReport "Tue, Jan 14"
                      "Freshly groomed, skate and classic."))
  /\ fold_left (processHeader sampleRuntime) [reportUndated; reportJan14] ∅
       !! "Nubs Nob - XC"
     = Some (incomingEntry sampleRuntime reportUndated "Recently")
  /\ fold_left (processHeader sampleRuntime) [reportJan14; reportUndated] ∅
       !! "Nubs Nob - XC"
     = Some (incomingEntry sampleRuntime reportJan14 "Tue, Jan 14").
Proof.
  destruct (trail_merge_either_order sampleRuntime "Nubs Nob - XC")
    as (Hpair & _ & Hnone & _).
  destruct (trail_merge_either_order (sampleEnv twoRegions (@rev Z) (Ok None))
              "Nubs Nob - XC")
    as (_ & Hregions & _ & _).
  destruct (Hpair reportJan13 reportJan14 1736726400000 1736812800000 ∅
              eq_refl eq_refl eq_refl eq_refl ltac:(lia) (lookup_empty _))
    as [Hfwd Hbwd].
  destruct (Hnone reportUndated reportJan14 "Recently" "Tue, Jan 14" ∅
              eq_refl eq_refl (or_introl eq_refl) (lookup_empty _))
    as [Hfirst Hsecond].
  split; [exact Hfwd|]. split; [exact Hbwd|]. split; [|split; [exact Hfirst | exact Hsecond]].
  apply (Hregions reportJan13 reportJan14 1736726400000 1736812800000 11 13
           (trailPage [reportJan13]) (trailPage [reportJan14]) []
           eq_refl eq_refl eq_refl eq_refl ltac:(lia)
           eq_refl eq_refl eq_refl eq_refl (or_intror eq_refl)).
Defined.

Example isWeekdayMonthDay_tue : isWeekdayMonthDay "Tue, Jan 14" = true.
Proof. reflexivity. Qed.

Example isWeekdayMonthDay_iso : isWeekdayMonthDay "2025-01-14" = false.
Proof. reflexivity. Qed.

(** C9, as amended.  [parseDateFromHeader] returns [null] unless the segment
    splits on ", " into exactly two parts; otherwise it returns the [Date]
    the runtime builds from the second part followed by the current year,
    without looking at the first part: a comparable date when that text
    parses (for "Weekday, Month Day" the text is "Month Day, year"), an
    Invalid Date when it does not.  In the merge a failed parse is never
    taken for an early date: an entry whose date failed to parse is never
    replaced, and a report whose date failed to parse never replaces an
    entry. *)
Theorem parseDateFromHeader_contract (env : Env) :
  (forall dateText : string,
      length (split ", " dateText) <> 2%nat ->
      parseDateFromHeader env dateText = None)
  /\ (forall dateText : string,
         length (split ", " dateText) = 2%nat ->
         parseDateFromHeader env dateText
         = Some (newDate env (at_ 1 (split ", " dateText) +:+ ", "
                              +:+ pretty (env_currentYear env))))
  /\ (forall dateText : string,
         isWeekdayMonthDay dateText = true ->
         exists weekday monthDay,
           split ", " dateText = [weekday; monthDay]
           /\ parsedTime (parseDateFromHeader env dateText)
              = env_dateParse env
                  (monthDay +:+ ", " +:+ pretty (env_currentYear env)))
  /\ (forall (conditions : gmap string TrailEntry) (header : Heading)
             (dateSection locationSection : string) (stored : TrailEntry),
         matchedHeader header = Some (dateSection, locationSection) ->
         conditions !! locationSection = Some stored ->
         parsedTime (te_date stored) = None
         \/ parsedTime (parseDateFromHeader env dateSection) = None ->
         processHeader env conditions header = conditions).
Proof.
  split; [|split; [|split]].
  - intros dateText Hlen. unfold parseDateFromHeader.
    destruct (Nat.eqb_spec (length (split ", " dateText)) 2); [contradiction | reflexivity].
  - intros dateText Hlen. unfold parseDateFromHeader. rewrite Hlen. reflexivity.
  - intros dateText Hshape. unfold isWeekdayMonthDay in Hshape.
    unfold parseDateFromHeader.
    destruct (split ", " dateText) as [|weekday [|monthDay [|extra rest]]];
      try discriminate Hshape.
    exists weekday, monthDay. split; reflexivity.
  - intros conditions header dateSection locationSection stored Hm Hs Hnone.
    rewrite (processHeader_matched env _ _ _ _ Hm), Hs.
    rewrite shouldStore_unparsed; [reflexivity | tauto].
Qed.

Lemma parseDateFromHeader_contract_witness :
  parseDateFromHeader sampleRuntime "yesterday" = None
  /\ parseDateFromHeader sampleRuntime "Tue, Jan 14"
     = Some (mkDate (Some 1736812800000))
  /\ processHeader sampleRuntime
       {[ "Nubs Nob - XC" := incomingEntry sampleRuntime reportUndated "Recently" ]}
       reportJan14
     = {[ "Nubs Nob - XC" := incomingEntry sampleRuntime reportUndated "Recently" ]}.
Proof.
  destruct (parseDateFromHeader_contract sampleRuntime)
    as (Hnull & Hdate & _ & Hkeep).
  split; [apply Hnull; vm_compute; lia|].
  split; [rewrite Hdate; reflexivity|].
  apply (Hkeep _ reportJan14 "Tue, Jan 14" "Nubs Nob - XC"
           (incomingEntry sampleRuntime reportUndated "Recently") eq_refl
           (lookup_singleton_eq _ _) (or_introl eq_refl)).
Defined.

(** C9, as stated, fails: the segment "Xyz, Jan 14" does not have the shape
    "Weekday, Month Day", yet it parses to Jan 14 of the current year,
    because only the part after the comma reaches the date parser. *)
Lemma parseDateFromHeader_ignores_weekday :
  isWeekdayMonthDay "Xyz, Jan 14" = false
  /\ parseDateFromHeader sampleRuntime "Xyz, Jan 14"
     = Some (mkDate (Some 1736812800000))
  /\ ~ (forall dateText : string,
           (exists t, parsedTime (parseDateFromHeader sampleRuntime dateText) = Some t)
           <-> isWeekdayMonthDay dateText = true).
Proof.
  split; [reflexivity|]. split; [reflexivity|].
  intros Hiff.
  assert (Hshape : isWeekdayMonthDay "Xyz, Jan 14" = true)
    by (apply Hiff; exists 1736812800000; reflexivity).
  discriminate Hshape.
Qed.

Section RunningWeather.

Variable env : Env.

Lemma fetchLocation_run (location : Location) (h : list Event) :
  fetchLocation env location h
  = (locationOutcome env location, h ++ locationEvents env location).
Proof.
  unfold fetchLocation, locationOutcome, locationEvents, locationUrls.
  unfold bind at 1. rewrite fetchWithRetry_axiosGet. cbn [flat_map].
  destruct (env_http env (pointUrl location)) as [pointResponse|e];
    [|rewrite app_nil_r; reflexivity].
  unfold bind at 1. cbn [defined ret].
  destruct (resp_forecast pointResponse) as [forecastUrl|];
    [|cbn; rewrite app_nil_r; reflexivity].
  unfold bind at 1. cbn [defined ret].
  unfold bind at 1, promiseAll2. rewrite !fetchWithRetry_axiosGet.
  cbn [flat_map]. rewrite app_nil_r, <- !app_assoc.
  destruct (env_http env forecastUrl) as [forecastResponse|e];
    [|destruct (env_http env (hourlyUrlOf forecastUrl)); reflexivity].
  destruct (env_http env (hourlyUrlOf forecastUrl)) as [hourlyResponse|e];
    [|reflexivity].
  unfold bind, defined, ret, throw. cbn [fst].
  destruct (resp_periods forecastResponse); reflexivity.
Qed.

Lemma weatherStep_run (weatherData : gmap string WeatherEntry)
    (locationKey : string) (location : Location) (h : list Event) :
  weatherStep env weatherData (locationKey, location) h
  = (Ok (<[locationKey :=
             weatherEntryAt env location (h ++ locationEvents env location)]>
           weatherData),
     h ++ locationEvents env location).
Proof.
  unfold weatherStep, bind, tryCatch, weatherEntryAt.
  rewrite fetchLocation_run.
  destruct (locationOutcome env location); reflexivity.
Qed.

Lemma locations_run (items : list (string * Location)) :
  forall (weatherData : gmap string WeatherEntry) (h : list Event),
    forEachM (weatherStep env) items weatherData h
    = (Ok (weatherFold env items weatherData h),
       h ++ flat_map (fun item => locationEvents env (snd item)) items).
Proof.
  induction items as [|[locationKey location] items IH]; intros weatherData h.
  - simpl. rewrite app_nil_r. reflexivity.
  - cbn [forEachM]. unfold bind. rewrite weatherStep_run, IH.
    cbn [weatherFold flat_map snd]. rewrite app_assoc. reflexivity.
Qed.

Lemma getWeatherData_run (h : list Event) :
  getWeatherData env h = (Ok (weatherOf env h), h ++ weatherEvents env).
Proof.
  unfold getWeatherData, checkDns, weatherOf, weatherEvents, bind, emit, ret.
  destruct (env_dns env "api.weather.gov"); cbn [negb].
  - rewrite locations_run, <- app_assoc. reflexivity.
  - reflexivity.
Qed.

(** The loop writes the key of each location, and no other key. *)
Lemma weatherFold_other (items : list (string * Location)) (key : string) :
  forall (weatherData : gmap string WeatherEntry) (h : list Event),
    key ∉ items.*1 ->
    weatherFold env items weatherData h !! key = weatherData !! key.
Proof.
  induction items as [|[locationKey location] items IH]; intros weatherData h Hnot.
  - reflexivity.
  - cbn [fmap list_fmap fst] in Hnot. apply not_elem_of_cons in Hnot as [Hne Hnot].
    cbn [weatherFold]. rewrite IH by exact Hnot.
    apply lookup_insert_ne. congruence.
Qed.

Lemma weatherFold_entry (items : list (string * Location)) :
  forall (weatherData : gmap string WeatherEntry) (h : list Event)
         (key : string) (location : Location),
    NoDup items.*1 ->
    (key, location) ∈ items ->
    exists history,
      weatherFold env items weatherData h !! key
      = Some (weatherEntryAt env location history).
Proof.
  induction items as [|[locationKey loc] items IH];
    intros weatherData h key location Hnodup Hin.
  - set_solver.
  - cbn [fmap list_fmap fst] in Hnodup. apply NoDup_cons in Hnodup as [Hfresh Hnodup].
    cbn [weatherFold]. apply elem_of_cons in Hin as [Heq | Hin].
    + pose proof (f_equal fst Heq) as Hkey. pose proof (f_equal snd Heq) as Hloc.
      cbn [fst snd] in Hkey, Hloc. subst key location. exists (h ++ locationEvents env loc).
      rewrite weatherFold_other by exact Hfresh. apply lookup_insert_eq.
    + eapply IH; eassumption.
Qed.

End RunningWeather.

Lemma LOCATIONS_keys : NoDup LOCATIONS.*1.
Proof. apply (bool_decide_unpack _). vm_compute. reflexivity. Qed.

Section RunningRest.

Variable env : Env.

Lemma parkStep_run (conditions : gmap string ParkEntry) (parkId : string)
    (searchTerms : list string) (h : list Event) :
  PerPark.parkStep env conditions (parkId, searchTerms) h
  = (Ok (<[parkId := parkEntry env parkId searchTerms]> conditions),
     h ++ getEvents env (PerPark.parkUrl parkId)).
Proof.
  unfold PerPark.parkStep, bind at 1, tryCatch, PerPark.fetchPark.
  rewrite fetchPage_run. unfold parkEntry.
  destruct (loadedPage env (PerPark.parkUrl parkId)) as [page|e]; [|reflexivity].
  destruct (findPanel page parkId); reflexivity.
Qed.

Lemma parks_run (items : list (string * list string)) :
  forall (conditions : gmap string ParkEntry) (h : list Event),
    forEachM (PerPark.parkStep env) items conditions h
    = (Ok (parksOf env items conditions),
       h ++ flat_map (fun item => getEvents env (PerPark.parkUrl (fst item))) items).
Proof.
  induction items as [|[parkId searchTerms] items IH]; intros conditions h.
  - simpl. rewrite app_nil_r. reflexivity.
  - cbn [forEachM]. unfold bind. rewrite parkStep_run, IH.
    cbn [flat_map fst]. rewrite app_assoc. reflexivity.
Qed.

Lemma perPark_run (h : list Event) :
  PerPark.getMetroparkConditions env h
  = (Ok (ParkConditions (parksOf env PerPark.parkMap ∅)), h ++ parkEvents env).
Proof.
  unfold PerPark.getMetroparkConditions, bind. rewrite parks_run. reflexivity.
Qed.

Lemma sharedFetch_run (h : list Event) :
  SharedFetch.getMetroparkConditions env h
  = (Ok (sharedParks env), h ++ getEvents env baseUrl).
Proof.
  unfold SharedFetch.getMetroparkConditions, tryCatch. rewrite fetchPage_run.
  unfold sharedParks. destruct (loadedPage env baseUrl); reflexivity.
Qed.

Lemma parksOf_other (items : list (string * list string)) (key : string) :
  forall conditions : gmap string ParkEntry,
    key ∉ items.*1 -> parksOf env items conditions !! key = conditions !! key.
Proof.
  unfold parksOf.
  induction items as [|[parkId searchTerms] items IH]; intros conditions Hnot.
  - reflexivity.
  - cbn [fmap list_fmap fst] in Hnot. apply not_elem_of_cons in Hnot as [Hne Hnot].
    cbn [fold_left fst snd]. rewrite IH by exact Hnot.
    apply lookup_insert_ne. congruence.
Qed.

Lemma parksOf_entry (items : list (string * list string)) :
  forall (conditions : gmap string ParkEntry) (parkId : string)
         (searchTerms : list string),
    NoDup items.*1 ->
    (parkId, searchTerms) ∈ items ->
    parksOf env items conditions !! parkId
    = Some (parkEntry env parkId searchTerms).
Proof.
  induction items as [|[id terms] items IH];
    intros conditions parkId searchTerms Hnodup Hin.
  - set_solver.
  - cbn [fmap list_fmap fst] in Hnodup. apply NoDup_cons in Hnodup as [Hfresh Hnodup].
    apply elem_of_cons in Hin as [Heq | Hin].
    + pose proof (f_equal fst Heq) as Hkey. pose proof (f_equal snd Heq) as Hterms.
      cbn [fst snd] in Hkey, Hterms. subst parkId searchTerms. unfold parksOf. cbn [fold_left fst snd].
      fold (parksOf env items (<[id := parkEntry env id terms]> conditions)).
      rewrite parksOf_other by exact Hfresh. apply lookup_insert_eq.
    + unfold parksOf. cbn [fold_left fst snd].
      apply (IH _ _ _ Hnodup Hin).
Qed.

Lemma getNubsNobConditions_run (h : list Event) :
  getNubsNobConditions env h
  = (match loadedPage env nubsNobUrl with
     | Ok page => Ok (resortOf page)
     | Throw e => Throw e
     end, h ++ getEvents env nubsNobUrl).
Proof.
  unfold getNubsNobConditions. rewrite fetchPage_run.
  destruct (loadedPage env nubsNobUrl); reflexivity.
Qed.

Lemma updateGitHubData_run (data : Document) (h : list Event) :
  updateGitHubData env data h
  = (env_putContent env (putRequestOf env data),
     h ++ [EvGetContent conditionsPath; EvPut (putRequestOf env data)]).
Proof.
  unfold updateGitHubData, bind, tryCatch, getContent, createOrUpdateFileContents,
    putRequestOf, markerOf, ret.
  destruct (env_getContent env conditionsPath);
    rewrite <- app_assoc; reflexivity.
Qed.

Lemma notifyError_run (error : JsError) (h : list Event) :
  notifyError env error h = (Ok tt, h ++ notifyEvents env error).
Proof.
  unfold notifyError, notifyEvents, tryCatch, ret.
  destruct (env_webhook env) as [webhook|]; [|rewrite app_nil_r; reflexivity].
  destruct (truthy webhook); [|rewrite app_nil_r; reflexivity].
  destruct (env_post env webhook _) as [[]|]; reflexivity.
Qed.

Lemma getEvents_fetch (url : string) :
  Forall (fun ev => isFetchEvent ev = true) (getEvents env url).
Proof.
  unfold getEvents. destruct (env_http env url); repeat constructor.
Qed.

Lemma flat_map_fetch {X} (f : X -> list Event) (l : list X) :
  (forall x, Forall (fun ev => isFetchEvent ev = true) (f x)) ->
  Forall (fun ev => isFetchEvent ev = true) (flat_map f l).
Proof.
  intros Hf. induction l as [|x l IH]; simpl.
  - constructor.
  - apply Forall_app. split; [apply Hf | exact IH].
Qed.

Lemma weatherEvents_fetch :
  Forall (fun ev => isFetchEvent ev = true) (weatherEvents env).
Proof.
  unfold weatherEvents. constructor; [reflexivity|].
  destruct (env_dns env "api.weather.gov"); [|constructor].
  apply flat_map_fetch. intros item. unfold locationEvents.
  apply flat_map_fetch. apply getEvents_fetch.
Qed.

End RunningRest.

Section RunningMain.

Variable env : Env.

Lemma mainWith_run (getMetroparkConditions : Env -> M MetroparkResult)
    (metroparkConditions : MetroparkResult) (metroparkEvents : list Event) :
  (forall h, getMetroparkConditions env h
             = (Ok metroparkConditions, h ++ metroparkEvents)) ->
  forall h,
    mainWith getMetroparkConditions env h
    = mainOutcome env metroparkConditions metroparkEvents h.
Proof.
  intros Hmetro h. unfold mainWith, tryCatch, mainOutcome, adapterEvents.
  unfold bind at 1, readClock.
  unfold bind at 1. rewrite getWeatherData_run.
  unfold bind at 1. rewrite Hmetro.
  unfold bind at 1. rewrite getNordicSkiRacerConditions_run.
  unfold bind at 1. rewrite getNubsNobConditions_run.
  fold (nordicEvents env).
  destruct (loadedPage env nubsNobUrl) as [page|error].
  - unfold bind at 1. rewrite updateGitHubData_run.
    fold (assembled env metroparkConditions h page).
    fold (storeEvents env (assembled env metroparkConditions h page)).
    destruct (env_putContent env _) as [[]|error].
    + unfold ret. rewrite <- !app_assoc. reflexivity.
    + unfold bind at 1. rewrite notifyError_run.
      unfold exit, bind, emit, ret. rewrite <- !app_assoc. reflexivity.
  - unfold bind at 1. rewrite notifyError_run.
    unfold exit, bind, emit, ret. rewrite <- !app_assoc. reflexivity.
Qed.

Lemma main_run (h : list Event) :
  main env h
  = mainOutcome env (ParkConditions (parksOf env PerPark.parkMap ∅))
      (parkEvents env) h.
Proof. apply mainWith_run. apply perPark_run. Qed.

Lemma mainSharedFetch_run (h : list Event) :
  mainSharedFetch env h
  = mainOutcome env (sharedParks env) (getEvents env baseUrl) h.
Proof. apply mainWith_run. apply sharedFetch_run. Qed.

Lemma adapterEvents_fetch (metroparkEvents : list Event) :
  Forall (fun ev => isFetchEvent ev = true) metroparkEvents ->
  Forall (fun ev => isFetchEvent ev = true) (adapterEvents env metroparkEvents).
Proof.
  intros Hmetro. unfold adapterEvents, nordicEvents.
  repeat (apply Forall_app; split).
  - apply weatherEvents_fetch.
  - exact Hmetro.
  - apply flat_map_fetch. intros region. apply getEvents_fetch.
  - apply getEvents_fetch.
Qed.

Lemma parkEvents_fetch :
  Forall (fun ev => isFetchEvent ev = true) (parkEvents env).
Proof. apply flat_map_fetch. intros item. apply getEvents_fetch. Qed.

Lemma notifyEvents_no_store (error : JsError) :
  Forall (fun ev => isStoreEvent ev = false) (notifyEvents env error).
Proof.
  unfold notifyEvents. destruct (env_webhook env) as [webhook|]; [|constructor].
  destruct (truthy webhook); repeat constructor.
Qed.

Lemma fetch_no_store (evs : list Event) :
  Forall (fun ev => isFetchEvent ev = true) evs ->
  Forall (fun ev => isStoreEvent ev = false) evs.
Proof.
  intros Hall. eapply Forall_impl; [exact Hall|].
  intros [] Hfetch; try reflexivity; discriminate Hfetch.
Qed.

End RunningMain.

(** ** Publisher *)

(** C8. The publisher first reads the revision marker of
    "data/conditions.json" and then issues one write; a rejected read (no
    file yet) or a read without a marker leads to a write without marker, a
    marker that was read is sent unchanged; the payload is the base64 form
    of the document serialized with an indentation of two. *)
Theorem publish_protocol (env : Env) (data : Document) (h : list Event) :
  exists req : PutRequest,
    snd (updateGitHubData env data h)
    = h ++ [EvGetContent conditionsPath; EvPut req]
    /\ fst (updateGitHubData env data h) = env_putContent env req
    /\ put_path req = "data/conditions.json"
    /\ put_message req = "Update conditions data"
    /\ put_content req = env_base64 env (env_stringify env data 2)
    /\ (forall error, env_getContent env conditionsPath = Throw error ->
        put_sha req = None)
    /\ (env_getContent env conditionsPath = Ok None -> put_sha req = None)
    /\ (forall marker, env_getContent env conditionsPath = Ok (Some marker) ->
        put_sha req = Some marker).
Proof.
  exists (putRequestOf env data). rewrite updateGitHubData_run.
  repeat split; cbn [put_sha putRequestOf]; unfold markerOf.
  - intros error ->. reflexivity.
  - intros ->. reflexivity.
  - intros marker ->. reflexivity.
Qed.

Lemma publish_protocol_witness :
  snd (updateGitHubData
         (sampleEnv offline id (Throw (NetworkError "Not Found"))) sampleDocument [])
  = [EvGetContent "data/conditions.json";
     EvPut (mkPut "data/conditions.json" "Update conditions data" "{timestamp}"
              None)]
  /\ snd (updateGitHubData
            (sampleEnv offline id (Ok (Some "3f9a1c"))) sampleDocument [])
     = [EvGetContent "data/conditions.json";
        EvPut (mkPut "data/conditions.json" "Update conditions data"
                 "{timestamp}" (Some "3f9a1c"))].
Proof.
  split.
  - destruct (publish_protocol
                (sampleEnv offline id (Throw (NetworkError "Not Found")))
                sampleDocument [])
      as (req & Htrace & _ & Hpath & Hmessage & Hcontent & Hcreate & _).
    specialize (Hcreate _ eq_refl). rewrite Htrace.
    destruct req as [path message content sha].
    cbn [put_path put_message put_content put_sha] in *.
    rewrite Hpath, Hmessage, Hcontent, Hcreate. reflexivity.
  - destruct (publish_protocol
                (sampleEnv offline id (Ok (Some "3f9a1c"))) sampleDocument [])
      as (req & Htrace & _ & Hpath & Hmessage & Hcontent & _ & _ & Hupdate).
    specialize (Hupdate _ eq_refl). rewrite Htrace.
    destruct req as [path message content sha].
    cbn [put_path put_message put_content put_sha] in *.
    rewrite Hpath, Hmessage, Hcontent, Hupdate. reflexivity.
Defined.

(** ** Aggregator *)

Example main_offline_exit :
  fst (main (sampleEnv offline id (Ok None)) []) = Ok 1.
Proof. rewrite main_run. reflexivity. Qed.

(** C7. When the request for the resort page fails on all three attempts,
    [getNubsNobConditions] throws that error instead of returning a record;
    [main], in either revision, then ends with exit status 1 after the
    notification, and its history holds neither a read nor a write of the
    remote store. *)
Theorem resort_failure_aborts (env : Env) (error : JsError) (h : list Event) :
  env_http env nubsNobUrl = Throw error ->
  fst (getNubsNobConditions env h) = Throw error
  /\ calls nubsNobUrl (snd (getNubsNobConditions env h))
     = (calls nubsNobUrl h + 3)%nat
  /\ (forall run : Res Z * list Event,
         run = main env h \/ run = mainSharedFetch env h ->
         fst run = Ok 1
         /\ exists evs,
             snd run = h ++ evs ++ notifyEvents env error ++ [EvExit 1]
             /\ Forall (fun ev => isFetchEvent ev = true) evs
             /\ Forall (fun ev => isStoreEvent ev = false)
                       (evs ++ notifyEvents env error ++ [EvExit 1])).
Proof.
  intros Hfail.
  assert (Hpage : loadedPage env nubsNobUrl = Throw error)
    by (unfold loadedPage; rewrite Hfail; reflexivity).
  split; [|split].
  - rewrite getNubsNobConditions_run, Hpage. reflexivity.
  - rewrite getNubsNobConditions_run. cbn [snd].
    rewrite calls_app. unfold getEvents. rewrite Hfail. reflexivity.
  - assert (Hout : forall metro mevs,
               Forall (fun ev => isFetchEvent ev = true) mevs ->
               fst (mainOutcome env metro mevs h) = Ok 1
               /\ exists evs,
                   snd (mainOutcome env metro mevs h)
                   = h ++ evs ++ notifyEvents env error ++ [EvExit 1]
                   /\ Forall (fun ev => isFetchEvent ev = true) evs
                   /\ Forall (fun ev => isStoreEvent ev = false)
                             (evs ++ notifyEvents env error ++ [EvExit 1])).
    { intros metro mevs Hmevs. unfold mainOutcome. rewrite Hpage.
      split; [reflexivity|]. exists (adapterEvents env mevs).
      split; [reflexivity|].
      pose proof (adapterEvents_fetch env mevs Hmevs) as Hfetch.
      split; [exact Hfetch|].
      apply Forall_app. split; [apply fetch_no_store; exact Hfetch|].
      apply Forall_app. split; [apply notifyEvents_no_store|].
      repeat constructor. }
    intros run [-> | ->].
    + rewrite main_run. apply Hout. apply parkEvents_fetch.
    + rewrite mainSharedFetch_run. apply Hout. apply getEvents_fetch.
Qed.

Lemma resort_failure_aborts_witness :
  fst (getNubsNobConditions (sampleEnv offline id (Ok None)) [])
  = Throw (NetworkError "getaddrinfo ENOTFOUND")
  /\ fst (main (sampleEnv offline id (Ok None)) []) = Ok 1
  /\ Forall (fun ev => isStoreEvent ev = false)
            (snd (main (sampleEnv offline id (Ok None)) [])).
Proof.
  destruct (resort_failure_aborts (sampleEnv offline id (Ok None))
              (NetworkError "getaddrinfo ENOTFOUND") [] eq_refl)
    as (Hthrow & _ & Hmain).
  destruct (Hmain _ (or_introl eq_refl)) as (Hexit & evs & Htrace & _ & Hquiet).
  split; [exact Hthrow|]. split; [exact Hexit|].
  rewrite Htrace. exact Hquiet.
Defined.

Section Published.

Variable env : Env.

Lemma assembled_keys (metro : MetroparkResult) (h : list Event) (page : Page) :
  map fst (assembled env metro h page) = topLevelKeys.
Proof. reflexivity. Qed.

Lemma fetch_not_put (evs : list Event) (req : PutRequest) :
  Forall (fun ev => isFetchEvent ev = true) evs -> ~ In (EvPut req) evs.
Proof.
  intros Hall Hin. rewrite Forall_forall in Hall.
  apply list_elem_of_In in Hin. apply Hall in Hin. discriminate Hin.
Qed.

Lemma notify_not_put (error : JsError) (req : PutRequest) :
  ~ In (EvPut req) (notifyEvents env error ++ [EvExit 1]).
Proof.
  unfold notifyEvents. destruct (env_webhook env) as [webhook|].
  - destruct (truthy webhook); simpl; intros H; intuition discriminate.
  - simpl. intros H; intuition discriminate.
Qed.

(** The writes of a run: one, of the assembled object, exactly when the
    resort page was loaded. *)
Lemma mainOutcome_puts (metro : MetroparkResult) (mevs : list Event)
    (h : list Event) :
  Forall (fun ev => isFetchEvent ev = true) mevs ->
  exists evs,
    snd (mainOutcome env metro mevs h) = h ++ evs
    /\ forall req,
        In (EvPut req) evs
        <-> exists page,
            loadedPage env nubsNobUrl = Ok page
            /\ req = putRequestOf env (assembled env metro h page).
Proof.
  intros Hmevs. pose proof (adapterEvents_fetch env mevs Hmevs) as Hfetch.
  unfold mainOutcome.
  destruct (loadedPage env nubsNobUrl) as [page|error].
  - assert (Hput : forall tail req,
               ~ In (EvPut req) tail ->
               In (EvPut req)
                  (adapterEvents env mevs
                     ++ storeEvents env (assembled env metro h page) ++ tail)
               <-> req = putRequestOf env (assembled env metro h page)).
    { intros tail req Htail. split.
      - intros Hin. apply in_app_or in Hin as [Hin|Hin].
        + exfalso. exact (fetch_not_put _ _ Hfetch Hin).
        + simpl in Hin. destruct Hin as [Hin|[Hin|Hin]].
          * discriminate Hin.
          * injection Hin as <-. reflexivity.
          * contradiction.
      - intros ->. apply in_or_app. right. simpl. auto. }
    assert (Hpage : forall req,
               req = putRequestOf env (assembled env metro h page)
               <-> exists page',
                   @Ok Page page = Ok page'
                   /\ req = putRequestOf env (assembled env metro h page')).
    { intros req. split.
      - intros ->. exists page. split; reflexivity.
      - intros (page' & [= <-] & ->). reflexivity. }
    destruct (env_putContent env _) as [[]|error].
    + exists (adapterEvents env mevs ++ storeEvents env (assembled env metro h page)).
      split; [reflexivity|]. intros req. rewrite <- Hpage.
      rewrite <- (app_nil_r (storeEvents _ _)). apply Hput. intros [].
    + exists (adapterEvents env mevs ++ storeEvents env (assembled env metro h page)
                ++ notifyEvents env error ++ [EvExit 1]).
      split; [reflexivity|]. intros req. rewrite <- Hpage.
      apply Hput. apply notify_not_put.
  - exists (adapterEvents env mevs ++ notifyEvents env error ++ [EvExit 1]).
    split; [reflexivity|]. intros req. split.
    + intros Hin. apply in_app_or in Hin as [Hin|Hin].
      * exfalso. exact (fetch_not_put _ _ Hfetch Hin).
      * exfalso. exact (notify_not_put error req Hin).
    + intros (page & Hpage & _). discriminate Hpage.
Qed.

(** With every region request failing the trail-report map is empty. *)
Lemma trailMap_all_failed (order : list Z) :
  (forall region, In region order ->
                  exists e, env_http env (regionUrl region) = Throw e) ->
  trailMap env order = ∅.
Proof.
  unfold trailMap. generalize (∅ : gmap string TrailEntry) as conditions.
  induction order as [|region order IH]; intros conditions Hfail; [reflexivity|].
  cbn [fold_left]. unfold regionContribution at 2, loadedPage.
  destruct (Hfail region (or_introl eq_refl)) as [e ->].
  apply IH. intros r Hr. apply Hfail. right. exact Hr.
Qed.

End Published.

Example resortOf_sample :
  resortOf resortPage
  = mkResort "January 14, 2025" "8 of 11" "" "" "" (mkSnowData "2" "5" "9" "60").
Proof. reflexivity. Qed.

Example main_only_resort :
  fst (main (sampleEnv onlyResort id (Ok (Some "3f9a1c"))) []) = Ok 0
  /\ last (snd (main (sampleEnv onlyResort id (Ok (Some "3f9a1c"))) []))
     = Some (EvPut (mkPut "data/conditions.json" "Update conditions data"
                      "{timestamp,weather,metroparkConditions,nordicConditions,nubsNob}"
                      (Some "3f9a1c"))).
Proof. vm_compute. split; reflexivity. Qed.

(** C6. A run of [main], in either revision, issues a write exactly when
    the resort page was loaded, and the object it writes is then the one
    with the five keys in this order: timestamp, the ISO form of the clock
    read at the start; weather, metroparkConditions and nordicConditions,
    what the three adapters returned; nubsNob, the record built from the
    resort page.  The three adapters always return, so that no section is
    left out, and the sections of failed sources are present in degraded
    form: the weather section is the empty object when the name lookup
    fails and holds a placeholder for each location whose requests fail;
    the bulletin section holds an entry with an error for each park whose
    request fails (an object with only an error in the shared-fetch
    revision); the trail-report section is the empty object when every
    region request fails. *)
Theorem published_document_complete (env : Env) (h : list Event) :
  (exists evs,
      snd (main env h) = h ++ evs
      /\ forall req,
          In (EvPut req) evs
          <-> exists page,
              loadedPage env nubsNobUrl = Ok page
              /\ req
                 = {| put_path := "data/conditions.json";
                      put_message := "Update conditions data";
                      put_content :=
                        env_base64 env
                          (env_stringify env
                             [ ("timestamp",
                                 VString (env_toISOString env (env_clock env h)));
                               ("weather", VWeather (weatherOf env h));
                               ("metroparkConditions",
                                 VMetroparks
                                   (ParkConditions (parksOf env PerPark.parkMap ∅)));
                               ("nordicConditions",
                                 VTrails
                                   (dropDate
                                      <$> trailMap env (env_regionOrder env regions)));
                               ("nubsNob", VResort (resortOf page)) ]
                             2);
                      put_sha := markerOf env |})
  /\ (exists evs,
         snd (mainSharedFetch env h) = h ++ evs
         /\ forall req,
             In (EvPut req) evs
             <-> exists page,
                 loadedPage env nubsNobUrl = Ok page
                 /\ req
                    = {| put_path := "data/conditions.json";
                         put_message := "Update conditions data";
                         put_content :=
                           env_base64 env
                             (env_stringify env
                                [ ("timestamp",
                                    VString (env_toISOString env (env_clock env h)));
                                  ("weather", VWeather (weatherOf env h));
                                  ("metroparkConditions",
                                    VMetroparks (sharedParks env));
                                  ("nordicConditions",
                                    VTrails
                                      (dropDate
                                         <$> trailMap env
                                               (env_regionOrder env regions)));
                                  ("nubsNob", VResort (resortOf page)) ]
                                2);
                         put_sha := markerOf env |})
  /\ fst (getWeatherData env h) = Ok (weatherOf env h)
  /\ (forall h',
         fst (PerPark.getMetroparkConditions env h')
         = Ok (ParkConditions (parksOf env PerPark.parkMap ∅)))
  /\ (forall h', fst (SharedFetch.getMetroparkConditions env h') = Ok (sharedParks env))
  /\ (forall h',
         fst (getNordicSkiRacerConditions env h')
         = Ok (dropDate <$> trailMap env (env_regionOrder env regions)))
  /\ (forall h' page,
         loadedPage env nubsNobUrl = Ok page ->
         fst (getNubsNobConditions env h') = Ok (resortOf page))
  /\ (env_dns env "api.weather.gov" = false -> weatherOf env h = ∅)
  /\ (env_dns env "api.weather.gov" = true ->
      forall key location error,
        (key, location) ∈ LOCATIONS ->
        locationOutcome env location = Throw error ->
        exists now, weatherOf env h !! key = Some (unavailable location now))
  /\ (forall parkId searchTerms error,
         (parkId, searchTerms) ∈ PerPark.parkMap ->
         env_http env (PerPark.parkUrl parkId) = Throw error ->
         parksOf env PerPark.parkMap ∅ !! parkId
         = Some {| park_title := None;
                   park_sections := [];
                   park_error := Some (failedToFetch error) |})
  /\ (forall error,
         env_http env baseUrl = Throw error ->
         sharedParks env = ParkFailure (failedToFetch error))
  /\ ((forall region, In region (env_regionOrder env regions) ->
                      exists e, env_http env (regionUrl region) = Throw e) ->
      dropDate <$> trailMap env (env_regionOrder env regions) = ∅).
Proof.
  split; [|split; [|split; [|split; [|split; [|split; [|split;
    [|split; [|split; [|split; [|split]]]]]]]]]].
  - rewrite main_run.
    exact (mainOutcome_puts env (ParkConditions (parksOf env PerPark.parkMap ∅))
             (parkEvents env) h (parkEvents_fetch env)).
  - rewrite mainSharedFetch_run.
    exact (mainOutcome_puts env (sharedParks env) (getEvents env baseUrl) h
             (getEvents_fetch env baseUrl)).
  - rewrite getWeatherData_run. reflexivity.
  - intros h'. rewrite perPark_run. reflexivity.
  - intros h'. rewrite sharedFetch_run. reflexivity.
  - intros h'. rewrite getNordicSkiRacerConditions_run. reflexivity.
  - intros h' page Hpage. rewrite getNubsNobConditions_run, Hpage. reflexivity.
  - intros Hdns. unfold weatherOf. rewrite Hdns. reflexivity.
  - intros Hdns key location error Hin Hfail. unfold weatherOf. rewrite Hdns.
    destruct (weatherFold_entry env LOCATIONS ∅ (h ++ [EvDns "api.weather.gov"])
                key location LOCATIONS_keys Hin) as [history Hentry].
    exists (env_clock env history). rewrite Hentry.
    unfold weatherEntryAt. rewrite Hfail. reflexivity.
  - intros parkId searchTerms error Hin Hfail.
    rewrite (parksOf_entry env PerPark.parkMap ∅ parkId searchTerms);
      [|apply (bool_decide_unpack _); vm_compute; reflexivity | exact Hin].
    unfold parkEntry, loadedPage. rewrite Hfail. reflexivity.
  - intros error Hfail. unfold sharedParks, loadedPage. rewrite Hfail. reflexivity.
  - intros Hfail. rewrite (trailMap_all_failed env _ Hfail). apply fmap_empty.
Qed.

Lemma published_document_complete_witness :
  In (EvPut (mkPut "data/conditions.json" "Update conditions data"
               "{timestamp,weather,metroparkConditions,nordicConditions,nubsNob}"
               (Some "3f9a1c")))
     (snd (main (sampleEnv onlyResort id (Ok (Some "3f9a1c"))) []))
  /\ (exists now,
         weatherOf (sampleEnv onlyResort id (Ok (Some "3f9a1c"))) [] !! "nubsNob"
         = Some (unavailable (mkLocation "45.47" "-84.903" "Nubs Nob") now))
  /\ parksOf (sampleEnv onlyResort id (Ok (Some "3f9a1c"))) PerPark.parkMap ∅
       !! "StonyCreekMetropark"
     = Some (mkParkEntry None []
               (Some "Failed to fetch conditions: getaddrinfo ENOTFOUND"))
  /\ dropDate <$> trailMap (sampleEnv onlyResort id (Ok (Some "3f9a1c"))) [11; 13]
     = ∅.
Proof.
  destruct (published_document_complete
              (sampleEnv onlyResort id (Ok (Some "3f9a1c"))) [])
    as ((evs & Htrace & Hput) & _ & _ & _ & _ & _ & _ & _ & Hweather & Hpark & _
        & Htrails).
  split; [|split; [|split]].
  - rewrite Htrace. apply (proj2 (Hput _)). exists resortPage.
    split; reflexivity.
  - apply (Hweather eq_refl "nubsNob" _ (NetworkError "getaddrinfo ENOTFOUND")).
    + apply list_elem_of_In. right. left. reflexivity.
    + reflexivity.
  - apply (Hpark "StonyCreekMetropark" ["Stony Creek Cross Country"]
             (NetworkError "getaddrinfo ENOTFOUND")).
    + apply list_elem_of_In. right. left. reflexivity.
    + reflexivity.
  - apply Htrails. intros region _.
    exists (NetworkError "getaddrinfo ENOTFOUND"). reflexivity.
Defined.

(** ** Weather adapter: what an entry depends on *)

Example hourlyUrlOf_sample :
  hourlyUrlOf shelbyForecast
  = "https://api.weather.gov/gridpoints/DTX/65,49/forecast/hourly".
Proof. reflexivity. Qed.

Example processPeriod_sample :
  processPeriod sampleRuntime samplePeriod
  = mkForecastPeriod "Tonight" (Some 1736812800000) (Some 12) (Some 40)
      "New snow accumulation of 2 to 4 inches possible" "Snow Showers"
      (Some "Cloudy. New snow accumulation of 2 to 4 inches possible. Windy.").
Proof. reflexivity. Qed.

(** C10. When the point lookup and both forecast requests of a location
    succeed, its entry is determined by the general forecast response: two
    networks that give the same point and general responses and any two
    hourly responses lead to the same outcome of the location's [try] block
    and to the same entry in the result of [getWeatherData], although the
    hourly address is requested. *)
Theorem hourly_response_unused (env : Env) (http2 : string -> Res Response)
    (location : Location) (pointResponse generalResponse hourly1 hourly2 : Response)
    (forecastUrl : string) :
  env_http env (pointUrl location) = Ok pointResponse ->
  http2 (pointUrl location) = Ok pointResponse ->
  resp_forecast pointResponse = Some forecastUrl ->
  env_http env forecastUrl = Ok generalResponse ->
  http2 forecastUrl = Ok generalResponse ->
  env_http env (hourlyUrlOf forecastUrl) = Ok hourly1 ->
  http2 (hourlyUrlOf forecastUrl) = Ok hourly2 ->
  (forall h1 h2,
      fst (fetchLocation env location h1)
      = fst (fetchLocation (withHttp env http2) location h2))
  /\ (forall h1,
         In (EvGet (hourlyUrlOf forecastUrl)) (snd (fetchLocation env location h1)))
  /\ (forall periods key h1 h2,
         resp_periods generalResponse = Some periods ->
         (key, location) ∈ LOCATIONS ->
         env_dns env "api.weather.gov" = true ->
         exists W1 W2,
           fst (getWeatherData env h1) = Ok W1
           /\ fst (getWeatherData (withHttp env http2) h2) = Ok W2
           /\ W1 !! key
              = Some {| we_name := loc_name location;
                        we_forecast := map (processPeriod env) (take 20 periods) |}
           /\ W2 !! key = W1 !! key).
Proof.
  intros Hp1 Hp2 Hurl Hg1 Hg2 Hh1 Hh2.
  assert (Hout1 : locationOutcome env location
                  = match resp_periods generalResponse with
                    | None => Throw (undefinedError "slice")
                    | Some periods =>
                        Ok {| we_name := loc_name location;
                              we_forecast := map (processPeriod env) (take 20 periods) |}
                    end).
  { unfold locationOutcome. rewrite Hp1, Hurl, Hg1, Hh1. reflexivity. }
  assert (Hout2 : locationOutcome (withHttp env http2) location
                  = locationOutcome env location).
  { rewrite Hout1. unfold locationOutcome. cbn [withHttp env_http].
    rewrite Hp2, Hurl, Hg2, Hh2. reflexivity. }
  split; [|split].
  - intros h1 h2. rewrite !fetchLocation_run. cbn [fst]. symmetry. exact Hout2.
  - intros h1. rewrite fetchLocation_run. cbn [snd].
    apply in_or_app. right. unfold locationEvents, locationUrls.
    rewrite Hp1, Hurl. cbn [flat_map].
    apply in_or_app. right. apply in_or_app. right. apply in_or_app. left.
    unfold getEvents. rewrite Hh1. left. reflexivity.
  - intros periods key h1 h2 Hperiods Hin Hdns.
    exists (weatherOf env h1), (weatherOf (withHttp env http2) h2).
    rewrite !getWeatherData_run. split; [reflexivity|]. split; [reflexivity|].
    unfold weatherOf. cbn [withHttp env_dns]. rewrite Hdns.
    destruct (weatherFold_entry env LOCATIONS ∅ (h1 ++ [EvDns "api.weather.gov"])
                key location LOCATIONS_keys Hin) as [hist1 Hentry1].
    destruct (weatherFold_entry (withHttp env http2) LOCATIONS ∅
                (h2 ++ [EvDns "api.weather.gov"])
                key location LOCATIONS_keys Hin) as [hist2 Hentry2].
    rewrite Hentry1, Hentry2. unfold weatherEntryAt.
    rewrite Hout2, Hout1, Hperiods. split; reflexivity.
Qed.

Lemma hourly_response_unused_witness :
  fst (fetchLocation (sampleEnv (weatherNet (forecastAnswer [])) id (Ok None))
         shelby [])
  = fst (fetchLocation
           (sampleEnv (weatherNet (forecastAnswer [samplePeriod; samplePeriod]))
              id (Ok None))
           shelby [])
  /\ In (EvGet "https://api.weather.gov/gridpoints/DTX/65,49/forecast/hourly")
        (snd (fetchLocation
                (sampleEnv (weatherNet (forecastAnswer [])) id (Ok None)) shelby [])).
Proof.
  destruct (hourly_response_unused
              (sampleEnv (weatherNet (forecastAnswer [])) id (Ok None))
              (weatherNet (forecastAnswer [samplePeriod; samplePeriod]))
              shelby (pointAnswer shelbyForecast) (forecastAnswer [samplePeriod])
              (forecastAnswer []) (forecastAnswer [samplePeriod; samplePeriod])
              shelbyForecast
              eq_refl eq_refl eq_refl eq_refl eq_refl eq_refl eq_refl)
    as (Hsame & Hfetched & _).
  split; [exact (Hsame [] []) | exact (Hfetched [])].
Defined.

(** ** Isolation of failures between the items of an adapter *)

Section Isolation.

Variable env : Env.
Variable http2 : string -> Res Response.

(** A location whose requests are answered alike has the same outcome. *)
Lemma locationOutcome_agree (location : Location) :
  (forall url, In url (locationUrls env location) -> http2 url = env_http env url) ->
  locationOutcome (withHttp env http2) location = locationOutcome env location.
Proof.
  intros Hagree. unfold locationOutcome, locationUrls in *.
  cbn [withHttp env_http].
  rewrite (Hagree (pointUrl location)) by (left; reflexivity).
  destruct (env_http env (pointUrl location)) as [pointResponse|e]; [|reflexivity].
  destruct (resp_forecast pointResponse) as [forecastUrl|]; [|reflexivity].
  rewrite (Hagree forecastUrl) by (right; left; reflexivity).
  rewrite (Hagree (hourlyUrlOf forecastUrl)) by (right; right; left; reflexivity).
  reflexivity.
Qed.

Lemma regionContribution_agree (conditions : gmap string TrailEntry) (region : Z) :
  http2 (regionUrl region) = env_http env (regionUrl region) ->
  regionContribution (withHttp env http2) conditions region
  = regionContribution env conditions region.
Proof.
  intros Hagree. unfold regionContribution, loadedPage.
  cbn [withHttp env_http]. rewrite Hagree. reflexivity.
Qed.

Lemma regionContribution_failed (conditions : gmap string TrailEntry)
    (region : Z) (error : JsError) :
  http2 (regionUrl region) = Throw error ->
  regionContribution (withHttp env http2) conditions region = conditions.
Proof.
  intros Hfail. unfold regionContribution, loadedPage.
  cbn [withHttp env_http]. rewrite Hfail. reflexivity.
Qed.

(** With the region [failed] out of reach, the map is the one the other
    regions build without it. *)
Lemma trailMap_without (failed : Z) (error : JsError) (order : list Z) :
  http2 (regionUrl failed) = Throw error ->
  (forall region, region <> failed ->
                  http2 (regionUrl region) = env_http env (regionUrl region)) ->
  forall conditions,
    fold_left (regionContribution (withHttp env http2)) order conditions
    = fold_left (regionContribution env)
                (filter (fun region => region <> failed) order) conditions.
Proof.
  intros Hfail Hagree.
  induction order as [|region order IH]; intros conditions; [reflexivity|].
  cbn [fold_left]. rewrite filter_cons.
  destruct (decide (region <> failed)) as [Hne|Heq].
  - cbn [fold_left]. rewrite regionContribution_agree by (apply Hagree; exact Hne).
    apply IH.
  - apply dec_stable in Heq. subst region.
    rewrite (regionContribution_failed _ _ error Hfail). apply IH.
Qed.

End Isolation.

Example weather_one_location_down :
  weatherOf (sampleEnv (without (pointUrl nubs) (weatherNet (forecastAnswer [])))
               id (Ok None)) []
    !! "shelbyTownship"
  = Some (mkWeatherEntry "Shelby Township" [processPeriod sampleRuntime samplePeriod]).
Proof. vm_compute. reflexivity. Qed.

(** C5. In the weather adapter, the per-park resort-bulletin adapter and the
    trail-report adapter, the result of an item is a function of the answers
    to that item's own requests.  On a second network: a location or a park
    whose requests are answered as before keeps its entry (its placeholder,
    up to the time stamp, if it had failed already), whatever failed
    elsewhere; a region whose request fails contributes nothing, and the map
    is the one that the other regions build; a location whose requests fail
    gets one placeholder period named "Unavailable" with null temperature
    and precipitation and the advisory text; a park whose request fails gets
    an entry with no sections and an error. *)
Theorem item_failure_isolated (env : Env) (http2 : string -> Res Response)
    (h1 h2 : list Event) :
  let env2 := withHttp env http2 in
  (fst (getWeatherData env2 h2) = Ok (weatherOf env2 h2)
   /\ fst (PerPark.getMetroparkConditions env2 h2)
      = Ok (ParkConditions (parksOf env2 PerPark.parkMap ∅))
   /\ fst (getNordicSkiRacerConditions env2 h2)
      = Ok (dropDate <$> trailMap env2 (env_regionOrder env regions)))
  /\ (env_dns env "api.weather.gov" = true ->
      forall key location,
        (key, location) ∈ LOCATIONS ->
        (forall error h,
            fst (fetchLocation env2 location h) = Throw error ->
            exists now,
              weatherOf env2 h2 !! key
              = Some {| we_name := loc_name location;
                        we_forecast :=
                          [ {| fp_name := "Unavailable";
                               fp_timestamp := Some now;
                               fp_temp := None;
                               fp_snowfall := None;
                               fp_snowAmount := "0.0";
                               fp_shortForecast :=
                                 "Weather data temporarily unavailable";
                               fp_detailedForecast := None |} ] |})
        /\ ((forall url, In url (locationUrls env location) ->
                         http2 url = env_http env url) ->
            (forall entry h,
                fst (fetchLocation env location h) = Ok entry ->
                weatherOf env h1 !! key = Some entry
                /\ weatherOf env2 h2 !! key = Some entry)
            /\ (forall error h,
                   fst (fetchLocation env location h) = Throw error ->
                   exists now1 now2,
                     weatherOf env h1 !! key = Some (unavailable location now1)
                     /\ weatherOf env2 h2 !! key
                        = Some (unavailable location now2))))
  /\ (forall parkId searchTerms,
         (parkId, searchTerms) ∈ PerPark.parkMap ->
         (forall error,
             http2 (PerPark.parkUrl parkId) = Throw error ->
             parksOf env2 PerPark.parkMap ∅ !! parkId
             = Some {| park_title := None;
                       park_sections := [];
                       park_error := Some (failedToFetch error) |})
         /\ (http2 (PerPark.parkUrl parkId) = env_http env (PerPark.parkUrl parkId) ->
             parksOf env2 PerPark.parkMap ∅ !! parkId
             = parksOf env PerPark.parkMap ∅ !! parkId))
  /\ (forall failed error,
         http2 (regionUrl failed) = Throw error ->
         (forall region, region <> failed ->
                         http2 (regionUrl region) = env_http env (regionUrl region)) ->
         trailMap env2 (env_regionOrder env regions)
         = trailMap env (filter (fun region => region <> failed)
                                (env_regionOrder env regions))).
Proof.
  intros env2. split; [|split; [|split]].
  - rewrite getWeatherData_run, perPark_run, getNordicSkiRacerConditions_run.
    repeat split; reflexivity.
  - intros Hdns key location Hin. split.
    + intros error h Hfail. rewrite fetchLocation_run in Hfail. cbn [fst] in Hfail.
      destruct (weatherFold_entry env2 LOCATIONS ∅ (h2 ++ [EvDns "api.weather.gov"])
                  key location LOCATIONS_keys Hin) as [history Hentry].
      exists (env_clock env history).
      unfold weatherOf. cbn [env2 withHttp env_dns]. rewrite Hdns.
      fold env2. rewrite Hentry. unfold weatherEntryAt.
      rewrite Hfail. reflexivity.
    + intros Hagree.
      destruct (weatherFold_entry env LOCATIONS ∅ (h1 ++ [EvDns "api.weather.gov"])
                  key location LOCATIONS_keys Hin) as [hist1 Hentry1].
      destruct (weatherFold_entry env2 LOCATIONS ∅ (h2 ++ [EvDns "api.weather.gov"])
                  key location LOCATIONS_keys Hin) as [hist2 Hentry2].
      unfold weatherOf. cbn [env2 withHttp env_dns]. rewrite Hdns.
      fold env2. rewrite Hentry1, Hentry2. unfold weatherEntryAt.
      unfold env2. rewrite (locationOutcome_agree env http2 location Hagree).
      split.
      * intros entry h Hentry.
        rewrite fetchLocation_run in Hentry. cbn [fst] in Hentry.
        rewrite Hentry. split; reflexivity.
      * intros error h Hentry.
        rewrite fetchLocation_run in Hentry. cbn [fst] in Hentry.
        rewrite Hentry. eexists _, _. split; reflexivity.
  - intros parkId searchTerms Hin.
    assert (Hkeys : NoDup PerPark.parkMap.*1)
      by (apply (bool_decide_unpack _); vm_compute; reflexivity).
    rewrite (parksOf_entry env2 _ ∅ parkId searchTerms Hkeys Hin).
    rewrite (parksOf_entry env _ ∅ parkId searchTerms Hkeys Hin).
    unfold parkEntry, loadedPage. cbn [env2 withHttp env_http]. split.
    + intros error ->. reflexivity.
    + intros ->. reflexivity.
  - intros failed error Hfail Hagree. unfold trailMap.
    apply (trailMap_without env http2 failed error _ Hfail Hagree).
Qed.

Lemma item_failure_isolated_witness :
  (exists now,
      weatherOf (sampleEnv (without (pointUrl nubs) (weatherNet (forecastAnswer [])))
                   id (Ok None)) []
        !! "nubsNob"
      = Some (unavailable nubs now))
  /\ weatherOf (sampleEnv (without (pointUrl nubs) (weatherNet (forecastAnswer [])))
                  id (Ok None)) []
       !! "shelbyTownship"
     = weatherOf (sampleEnv (weatherNet (forecastAnswer [])) id (Ok None)) []
         !! "shelbyTownship"
  /\ trailMap (sampleEnv (without (regionUrl 11) twoRegions) id (Ok None)) [11; 13]
     = trailMap (sampleEnv twoRegions id (Ok None)) [13].
Proof.
  destruct (item_failure_isolated
              (sampleEnv (weatherNet (forecastAnswer [])) id (Ok None))
              (without (pointUrl nubs) (weatherNet (forecastAnswer []))) [] [])
    as (_ & Hweather & _ & _).
  destruct (item_failure_isolated
              (sampleEnv twoRegions id (Ok None))
              (without (regionUrl 11) twoRegions) [] [])
    as (_ & _ & _ & Hregions).
  split; [|split].
  - destruct (Hweather eq_refl "nubsNob" nubs) as [Hdown _].
    + apply list_elem_of_In. right. left. reflexivity.
    + apply (Hdown (NetworkError "ECONNRESET") []).
      rewrite fetchLocation_run. reflexivity.
  - destruct (Hweather eq_refl "shelbyTownship" shelby) as [_ Hsame].
    + apply list_elem_of_In. left. reflexivity.
    + destruct (Hsame ltac:(intros url [<-|[<-|[<-|[]]]]; reflexivity))
        as [Hkept _].
      destruct (Hkept (mkWeatherEntry "Shelby Township"
                         [processPeriod sampleRuntime samplePeriod]) [])
        as [Hfirst Hsecond].
      { rewrite fetchLocation_run. reflexivity. }
      etransitivity; [exact Hsecond | symmetry; exact Hfirst].
  - apply (Hregions 11 (NetworkError "ECONNRESET") eq_refl).
    intros region Hne. unfold without.
    destruct (String.eqb_spec (regionUrl region) (regionUrl 11)) as [Heq|_];
      [|reflexivity].
    exfalso. apply Hne. unfold regionUrl in Heq.
    apply (f_equal (substringFrom 59)) in Heq. cbn [substringFrom append] in Heq.
    apply (inj pretty) in Heq. exact Heq.
Defined.

(** ** More facts about [trim], [split] and [replace] *)

Section TrimFacts.

Lemma trimStart_suffix (s : string) : exists p, s = p +:+ trimStart s.
Proof.
  induction s as [|a s [p IH]]; simpl.
  - exists "". reflexivity.
  - destruct (isWhiteSpace a).
    + exists (String a p). simpl. congruence.
    + exists "". reflexivity.
Qed.

Lemma trimEnd_prefix (s : string) : exists q, s = trimEnd s +:+ q.
Proof.
  induction s as [|a s [q IH]]; simpl.
  - exists "". reflexivity.
  - destruct (trimEnd s) as [|b kept] eqn:Hkept.
    + destruct (isWhiteSpace a).
      * exists (String a s). reflexivity.
      * exists s. reflexivity.
    + exists q. simpl. rewrite IH at 1. reflexivity.
Qed.

(** What [trim] returns is a contiguous part of its argument. *)
Lemma trim_part (s : string) : exists a b, s = a +:+ trim s +:+ b.
Proof.
  unfold trim. destruct (trimStart_suffix s) as [p Hp].
  destruct (trimEnd_prefix (trimStart s)) as [q Hq].
  exists p, q. rewrite <- Hq. exact Hp.
Qed.

Lemma trimStart_head (s : string) :
  trimStart s = "" \/ exists a rest, trimStart s = String a rest /\ isWhiteSpace a = false.
Proof.
  induction s as [|a s IH]; simpl.
  - left. reflexivity.
  - destruct (isWhiteSpace a) eqn:Ha; [exact IH|].
    right. exists a, s. split; [reflexivity | exact Ha].
Qed.

Lemma trimEnd_cons (a : ascii) (s : string) :
  isWhiteSpace a = false -> trimEnd (String a s) = String a (trimEnd s).
Proof.
  intros Ha. simpl. destruct (trimEnd s); [rewrite Ha|]; reflexivity.
Qed.

Lemma trimEnd_idempotent (s : string) : trimEnd (trimEnd s) = trimEnd s.
Proof.
  induction s as [|a s IH]; [reflexivity|]. simpl.
  destruct (trimEnd s) as [|b kept] eqn:Hkept.
  - destruct (isWhiteSpace a) eqn:Ha; [reflexivity|].
    simpl. rewrite Ha. reflexivity.
  - change (trimEnd (String a (String b kept)))
      with (match trimEnd (String b kept) with
            | "" => if isWhiteSpace a then "" else String a ""
            | kept' => String a kept'
            end).
    rewrite IH. reflexivity.
Qed.

Lemma trim_idempotent (s : string) : trim (trim s) = trim s.
Proof.
  unfold trim. destruct (trimStart_head s) as [-> | (a & rest & -> & Ha)].
  - reflexivity.
  - rewrite (trimEnd_cons a rest Ha). simpl trimStart. rewrite Ha.
    rewrite (trimEnd_cons a _ Ha), trimEnd_idempotent. reflexivity.
Qed.

Lemma trim_empty : trim "" = "".
Proof. reflexivity. Qed.

(** [trimEnd] leaves alone what precedes a part that it does not erase. *)
Lemma trimEnd_keep (u v : string) :
  trimEnd v <> "" -> trimEnd (u +:+ v) = u +:+ trimEnd v.
Proof.
  intros Hv. induction u as [|a u IH]; [reflexivity|].
  simpl. rewrite IH. destruct (u +:+ trimEnd v) eqn:Happ; [|reflexivity].
  destruct u; simpl in Happ; [contradiction | discriminate].
Qed.

(** A part that begins and ends with a code unit that is not white space
    survives [trim]. *)
Lemma trim_keeps_part (s body : string) (first last : ascii) (a b : string) :
  isWhiteSpace first = false ->
  isWhiteSpace last = false ->
  s = a +:+ String first body +:+ String last b ->
  exists a' b', trim s = a' +:+ String first body +:+ String last b'.
Proof.
  intros Hfirst Hlast ->. unfold trim.
  assert (Hstart : exists a', trimStart (a +:+ String first body +:+ String last b)
                              = a' +:+ String first body +:+ String last b).
  { induction a as [|c a IH]; simpl.
    - rewrite Hfirst. exists "". reflexivity.
    - destruct (isWhiteSpace c); [exact IH|].
      exists (String c a). reflexivity. }
  destruct Hstart as [a' ->].
  exists a', (trimEnd b).
  rewrite <- (trimEnd_cons last b Hlast).
  rewrite <- !append_assoc.
  apply trimEnd_keep. rewrite (trimEnd_cons last b Hlast). discriminate.
Qed.

(** A string without the separator is the only piece of its split. *)
Lemma split_whole (sep s : string) :
  includes s sep = false -> split sep s = [s].
Proof.
  unfold split. induction s as [|a s IH]; [reflexivity|].
  cbn [includes splitGo]. destruct (startsWith sep (String a s)); [discriminate|].
  intros Hrest. rewrite (IH Hrest). reflexivity.
Qed.

(** The pieces of a split on one code unit do not hold that code unit. *)
Lemma split_unit_pieces (c : ascii) (s : string) :
  Forall (fun piece => includes piece (String c "") = false)
         (split (String c "") s).
Proof.
  unfold split. induction s as [|a s IH].
  - simpl. constructor; [reflexivity | constructor].
  - cbn [splitGo String.length Nat.pred]. cbn [startsWith].
    destruct (Ascii.eqb_spec c a) as [->|Hne].
    + constructor; [reflexivity | exact IH].
    + destruct (splitGo (String c "") 0 s) as [|piece pieces] eqn:Hsplit.
      * simpl. constructor; [|constructor].
        simpl. destruct (Ascii.eqb_spec c a); [contradiction | reflexivity].
      * inversion IH as [|? ? Hpiece Hpieces]; subst. simpl consHead.
        constructor; [|exact Hpieces].
        cbn [includes startsWith].
        destruct (Ascii.eqb_spec c a); [contradiction | exact Hpiece].
Qed.

Lemma substringFrom_length (a b : string) :
  substringFrom (String.length a) (a +:+ b) = b.
Proof. induction a as [|c a IH]; simpl; [destruct b; reflexivity | exact IH]. Qed.

(** [replace] without an occurrence returns the string; with one, it puts
    the replacement in the place of an occurrence. *)
Lemma replaceFirst_spec (pat rep s : string) :
  (includes s pat = false -> replaceFirst pat rep s = s)
  /\ (includes s pat = true ->
      exists a b, s = a +:+ pat +:+ b /\ replaceFirst pat rep s = a +:+ rep +:+ b).
Proof.
  induction s as [|c s [IHno IHyes]]; cbn [includes replaceFirst].
  - destruct (startsWith pat "") eqn:Hp.
    + split; [discriminate|]. intros _.
      apply startsWith_iff in Hp as [q Hq]. exists "", q.
      split; [exact Hq|].
      destruct pat; [simpl in Hq; subst q; reflexivity | discriminate Hq].
    + split; [reflexivity | discriminate].
  - destruct (startsWith pat (String c s)) eqn:Hp.
    + split; [discriminate|]. intros _.
      apply startsWith_iff in Hp as [q Hq]. exists "", q.
      split; [exact Hq|].
      rewrite Hq, substringFrom_length. reflexivity.
    + split.
      * intros Hno. rewrite (IHno Hno). reflexivity.
      * intros Hyes. destruct (IHyes Hyes) as (a & b & Hs & Hr).
        exists (String c a), b. split; simpl; congruence.
Qed.

End TrimFacts.

(** ** The retry executor on an arbitrary operation *)

Section RetryAll.

Context {A : Type}.
Variable label : string.
Variable outcome : list Event -> Res A.
Variable retries : Z.
Variable h0 : list Event.

(** The loop stops at the first attempt that succeeds, or at the last one. *)
Lemma retryLoop_runs (n : nat) :
  forall j : nat,
    Z.of_nat j + Z.of_nat (S n) = retries ->
    exists (k : nat) (r : Res (option A)),
      (j <= k <= j + n)%nat
      /\ retryLoop (request label outcome) retries (S n) (Z.of_nat j)
           (afterFailures label retries j h0)
         = (r, afterFailures label retries k h0 ++ [EvGet label])
      /\ ((exists v, r = Ok (Some v)
                     /\ outcome (afterFailures label retries k h0) = Ok v)
          \/ (exists e, r = Throw e /\ k = (j + n)%nat
                        /\ outcome (afterFailures label retries k h0) = Throw e)).
Proof.
  induction n as [|n IH]; intros j Hsum;
    destruct (outcome (afterFailures label retries j h0)) as [v|e] eqn:Hout.
  - exists j, (Ok (Some v)). split; [lia|]. split.
    + apply retryLoop_succeeded; [exact Hout | lia].
    + left. exists v. split; [reflexivity | exact Hout].
  - exists j, (Throw e). split; [lia|]. split.
    + apply retryLoop_exhausted; [exact Hout | lia].
    + right. exists e. split; [reflexivity|]. split; [lia | exact Hout].
  - exists j, (Ok (Some v)). split; [lia|]. split.
    + apply retryLoop_succeeded; [exact Hout | lia].
    + left. exists v. split; [reflexivity | exact Hout].
  - destruct (IH (S j) ltac:(lia)) as (k & r & Hk & Hrun & Hres).
    exists k, r. split; [lia|]. split.
    + rewrite (retryLoop_failed label outcome retries h0 (S n) j e Hout) by lia.
      exact Hrun.
    + destruct Hres as [Hok | (e' & -> & -> & He')]; [left; exact Hok|].
      right. exists e'. split; [reflexivity|]. split; [lia | exact He'].
Qed.

End RetryAll.

(** X1. Whatever the operation does, [fetchWithRetry] calls it at most
    [retries] times (and not at all for a bound below one), waits
    1000, 2000, 4000, ... ms between the calls it makes, throws only the
    error of the attempt number [retries], returns a value only from the
    attempt that produced it, and returns [undefined] exactly when the
    bound is below one. *)
Theorem fetchWithRetry_bounded {A : Type} (label : string)
    (outcome : list Event -> Res A) (retries : Z) (h : list Event) :
  exists k : nat,
    Z.of_nat k <= Z.max 0 retries
    /\ calls label (snd (fetchWithRetry (request label outcome) retries h))
       = (calls label h + k)%nat
    /\ delays (snd (fetchWithRetry (request label outcome) retries h))
       = delays h ++ backoff (k - 1)
    /\ (fst (fetchWithRetry (request label outcome) retries h) = Ok None
        <-> retries <= 0)
    /\ (forall e,
           fst (fetchWithRetry (request label outcome) retries h) = Throw e ->
           Z.of_nat k = retries
           /\ outcome (afterFailures label retries (k - 1) h) = Throw e)
    /\ (forall v,
           fst (fetchWithRetry (request label outcome) retries h) = Ok (Some v) ->
           (1 <= k)%nat
           /\ outcome (afterFailures label retries (k - 1) h) = Ok v).
Proof.
  unfold fetchWithRetry. destruct (Z.to_nat retries) as [|n] eqn:Hn.
  - exists 0%nat. simpl. rewrite app_nil_r.
    repeat split; try lia; try discriminate.
  - destruct (retryLoop_runs label outcome retries h n 0%nat ltac:(lia))
      as (k & r & Hk & Hrun & Hres).
    change (afterFailures label retries 0 h) with h in Hrun.
    change (Z.of_nat 0) with 0 in Hrun. rewrite Hrun. cbn [fst snd].
    exists (S k). replace (S k - 1)%nat with k by lia.
    split; [lia|]. split; [rewrite calls_afterFailures; lia|].
    split; [apply delays_afterFailures|].
    destruct Hres as [(v & -> & Hv) | (e & -> & -> & He)].
    + split; [split; [discriminate | lia]|].
      split; [discriminate|]. intros v' [= <-]. split; [lia | exact Hv].
    + split; [split; [discriminate | lia]|].
      split; [|discriminate]. intros e' [= <-]. split; [lia | exact He].
Qed.

(** ** Weather adapter: the shape of the result *)

Section WeatherShape.

Variable env : Env.

Lemma locationOutcome_entry (location : Location) (entry : WeatherEntry) :
  locationOutcome env location = Ok entry ->
  exists periods,
    entry = {| we_name := loc_name location;
               we_forecast := map (processPeriod env) (take 20 periods) |}.
Proof.
  unfold locationOutcome.
  destruct (env_http env (pointUrl location)) as [pointResponse|]; [|discriminate].
  destruct (resp_forecast pointResponse) as [forecastUrl|]; [|discriminate].
  destruct (env_http env forecastUrl) as [forecastResponse|];
    [|destruct (env_http env (hourlyUrlOf forecastUrl)); discriminate].
  destruct (env_http env (hourlyUrlOf forecastUrl)); [|discriminate].
  destruct (resp_periods forecastResponse) as [periods|]; [|discriminate].
  intros [= <-]. exists periods. reflexivity.
Qed.

Lemma weatherEntryAt_shape (location : Location) (history : list Event) :
  we_name (weatherEntryAt env location history) = loc_name location
  /\ (length (we_forecast (weatherEntryAt env location history)) <= 20)%nat.
Proof.
  unfold weatherEntryAt.
  destruct (locationOutcome env location) as [entry|e] eqn:Hout.
  - destruct (locationOutcome_entry location entry Hout) as [periods ->].
    cbn [we_name we_forecast]. split; [reflexivity|].
    rewrite length_map, length_take. lia.
  - simpl. split; [reflexivity | lia].
Qed.

End WeatherShape.

(** X2. [getWeatherData] never throws.  When the name lookup fails it
    returns the empty object after the lookup alone, without any request.
    Otherwise the result has an entry for each of the three configured
    locations and for nothing else, whatever failed; each entry carries the
    display name of its location and at most 20 periods. *)
Theorem getWeatherData_shape (env : Env) (h : list Event) :
  exists weather : gmap string WeatherEntry,
    fst (getWeatherData env h) = Ok weather
    /\ (env_dns env "api.weather.gov" = false ->
        weather = ∅
        /\ snd (getWeatherData env h) = h ++ [EvDns "api.weather.gov"])
    /\ (env_dns env "api.weather.gov" = true ->
        (forall key,
            is_Some (weather !! key)
            <-> key = "shelbyTownship" \/ key = "nubsNob" \/ key = "otsegoResort")
        /\ forall key location entry,
            (key, location) ∈ LOCATIONS ->
            weather !! key = Some entry ->
            we_name entry = loc_name location
            /\ (length (we_forecast entry) <= 20)%nat).
Proof.
  exists (weatherOf env h). rewrite getWeatherData_run. cbn [fst snd].
  split; [reflexivity|]. unfold weatherOf, weatherEvents. split.
  - intros ->. split; reflexivity.
  - intros ->. split.
    + intros key. split.
      * intros Hsome.
        destruct (decide (key ∈ LOCATIONS.*1)) as [Hin|Hnot].
        -- cbn in Hin. rewrite !elem_of_cons in Hin.
           destruct Hin as [-> | [-> | [-> | Hin]]]; auto.
           apply elem_of_nil in Hin. contradiction.
        -- rewrite (weatherFold_other env LOCATIONS key ∅ _ Hnot) in Hsome.
           rewrite lookup_empty in Hsome. destruct Hsome as [x Hx]. discriminate Hx.
      * intros Hkey.
        assert (Hin : exists location, (key, location) ∈ LOCATIONS).
        { destruct Hkey as [-> | [-> | ->]]; eexists; unfold LOCATIONS;
            rewrite !elem_of_cons; eauto. }
        destruct Hin as [location Hin].
        destruct (weatherFold_entry env LOCATIONS ∅ (h ++ [EvDns "api.weather.gov"])
                    key location LOCATIONS_keys Hin) as [history ->].
        eexists. reflexivity.
    + intros key location entry Hin Hentry.
      destruct (weatherFold_entry env LOCATIONS ∅ (h ++ [EvDns "api.weather.gov"])
                  key location LOCATIONS_keys Hin) as [history Hfold].
      rewrite Hfold in Hentry. injection Hentry as <-.
      apply weatherEntryAt_shape.
Qed.

Lemma getWeatherData_shape_witness :
  (exists entry,
      weatherOf (sampleEnv (weatherNet (forecastAnswer [])) id (Ok None)) []
        !! "otsegoResort" = Some entry
      /\ we_name entry = "Otsego Resort")
  /\ weatherOf (sampleEnv (weatherNet (forecastAnswer [])) id (Ok None)) []
       !! "harborSprings" = None.
Proof.
  destruct (getWeatherData_shape
              (sampleEnv (weatherNet (forecastAnswer [])) id (Ok None)) [])
    as (weather & Hrun & _ & Hshape).
  rewrite getWeatherData_run in Hrun. injection Hrun as <-.
  destruct (Hshape eq_refl) as [Hkeys Hentries].
  split.
  - destruct (proj2 (Hkeys "otsegoResort") ltac:(auto)) as [entry Hentry].
    exists entry. split; [exact Hentry|].
    apply (Hentries "otsegoResort"
             (mkLocation "45.032644409325755" "-84.65170507777471" "Otsego Resort")
             entry); [|exact Hentry].
    apply list_elem_of_In. right. right. left. reflexivity.
  - destruct (weatherOf _ [] !! "harborSprings") as [entry|] eqn:Hlookup;
      [|reflexivity].
    destruct (proj1 (Hkeys "harborSprings") ltac:(eexists; exact Hlookup))
      as [Hk|[Hk|Hk]]; discriminate Hk.
Defined.

(** X3. For a location whose three requests succeed, the forecast in the
    result is the provider's list of periods in the provider's order, cut
    after the twentieth: position [i] holds the processed period [i] for
    [i < 20] and nothing beyond. *)
Theorem forecast_first_twenty (env : Env) (location : Location)
    (pointResponse forecastResponse hourlyResponse : Response)
    (forecastUrl : string) (periods : list Period) (h : list Event) :
  env_http env (pointUrl location) = Ok pointResponse ->
  resp_forecast pointResponse = Some forecastUrl ->
  env_http env forecastUrl = Ok forecastResponse ->
  env_http env (hourlyUrlOf forecastUrl) = Ok hourlyResponse ->
  resp_periods forecastResponse = Some periods ->
  exists entry,
    fst (fetchLocation env location h) = Ok entry
    /\ length (we_forecast entry) = Nat.min 20 (length periods)
    /\ forall i : nat,
        we_forecast entry !! i
        = if (i <? 20)%nat then processPeriod env <$> periods !! i else None.
Proof.
  intros Hpoint Hurl Hforecast Hhourly Hperiods.
  rewrite fetchLocation_run. cbn [fst]. unfold locationOutcome.
  rewrite Hpoint, Hurl, Hforecast, Hhourly, Hperiods.
  eexists. split; [reflexivity|]. cbn [we_forecast]. split.
  - rewrite length_map, length_take. reflexivity.
  - intros i. change (map (processPeriod env) (take 20 periods))
      with (processPeriod env <$> take 20 periods).
    rewrite list_lookup_fmap, lookup_take.
    destruct (Nat.ltb_spec i 20); case_decide; try lia; reflexivity.
Qed.

Lemma forecast_first_twenty_witness :
  exists entry,
    fst (fetchLocation (sampleEnv (weatherNet (forecastAnswer [])) id (Ok None))
           nubs []) = Ok entry
    /\ length (we_forecast entry) = 2%nat.
Proof.
  destruct (forecast_first_twenty
              (sampleEnv (weatherNet (forecastAnswer [])) id (Ok None)) nubs
              (pointAnswer nubsForecast)
              (forecastAnswer [samplePeriod; samplePeriod]) (forecastAnswer [])
              nubsForecast [samplePeriod; samplePeriod] []
              eq_refl eq_refl eq_refl eq_refl eq_refl)
    as (entry & Hrun & Hlen & _).
  exists entry. split; [exact Hrun | exact Hlen].
Defined.

(** ** Weather adapter: the extracted snow sentence *)

Section SnowSentence.

Lemma includes_cons (a : ascii) (s needle : string) :
  includes s needle = true -> includes (String a s) needle = true.
Proof.
  intros Hin. cbn [includes]. rewrite Hin.
  destruct (startsWith needle (String a s)); reflexivity.
Qed.

Lemma splitGo_nonempty (sep : string) (skip : nat) (s : string) :
  exists first others, splitGo sep skip s = first :: others.
Proof.
  destruct (splitGo_parts sep s skip) as [(first & others & Heq & _) _].
  exists first, others. exact Heq.
Qed.

(** A needle without a period at the start of a string is at the start of
    the first sentence. *)
Lemma first_sentence_prefix (needle : string) :
  forall s,
    includes needle "." = false ->
    startsWith needle s = true ->
    exists first others,
      split "." s = first :: others /\ startsWith needle first = true.
Proof.
  unfold split. induction needle as [|x needle IH]; intros s Hdot Hstart.
  - destruct (splitGo_nonempty "." 0 s) as (first & others & Heq).
    exists first, others. split; [exact Heq | reflexivity].
  - destruct s as [|y s]; [discriminate Hstart|].
    cbn [startsWith] in Hstart.
    destruct (Ascii.eqb_spec x y) as [<-|]; [|discriminate Hstart].
    cbn [includes startsWith] in Hdot.
    destruct (Ascii.eqb_spec "."%char x) as [|Hne]; [discriminate Hdot|].
    destruct (IH s Hdot Hstart) as (first & others & Heq & Hfirst).
    cbn [splitGo startsWith].
    destruct (Ascii.eqb_spec "."%char x); [contradiction|].
    rewrite Heq. exists (String x first), others. split; [reflexivity|].
    cbn [startsWith]. rewrite Ascii.eqb_refl. exact Hfirst.
Qed.

(** A needle without a period that occurs in a string occurs in one of its
    sentences. *)
Lemma sentence_with (needle : string) :
  includes needle "." = false ->
  forall s,
    includes s needle = true ->
    Exists (fun sentence => includes sentence needle = true) (split "." s).
Proof.
  intros Hdot s. induction s as [|a s IH]; intros Hin.
  - cbn [includes] in Hin.
    destruct (startsWith needle "") eqn:Hstart; [|discriminate Hin].
    destruct (first_sentence_prefix needle "" Hdot Hstart)
      as (first & others & -> & Hfirst).
    apply Exists_cons_hd. unfold includes. destruct first; rewrite Hfirst; reflexivity.
  - cbn [includes] in Hin.
    destruct (startsWith needle (String a s)) eqn:Hstart.
    + destruct (first_sentence_prefix needle (String a s) Hdot Hstart)
        as (first & others & -> & Hfirst).
      apply Exists_cons_hd. destruct first; cbn [includes]; rewrite Hfirst; reflexivity.
    + specialize (IH Hin). unfold split in *. cbn [splitGo].
      destruct (startsWith "." (String a s)).
      * apply Exists_cons_tl. exact IH.
      * destruct (splitGo "." 0 s) as [|first others].
        -- inversion IH.
        -- simpl consHead. inversion IH as [? ? Hhd|? ? Htl]; subst.
           ++ apply Exists_cons_hd. apply includes_cons. exact Hhd.
           ++ apply Exists_cons_tl. exact Htl.
Qed.

Lemma find_Exists {X} (f : X -> bool) (l : list X) :
  Exists (fun x => f x = true) l -> exists x, find f l = Some x.
Proof.
  induction 1 as [x l Hx | x l _ IH]; simpl.
  - rewrite Hx. eauto.
  - destruct (f x); eauto.
Qed.

End SnowSentence.

(** X4. The snow accumulation stored for a period is non-empty exactly when
    the detailed forecast mentions "New snow accumulation", and then it
    mentions it as well; it never contains a period, and it has no white
    space at either end ([trim] leaves it as it is). *)
Theorem snowAccumulation_shape (detailedForecast : string) :
  truthy (snowAccumulation detailedForecast)
  = includes detailedForecast "New snow accumulation"
  /\ includes (snowAccumulation detailedForecast) "New snow accumulation"
     = includes detailedForecast "New snow accumulation"
  /\ includes (snowAccumulation detailedForecast) "." = false
  /\ trim (snowAccumulation detailedForecast) = snowAccumulation detailedForecast.
Proof.
  unfold snowAccumulation, snowString.
  destruct (includes detailedForecast "New snow accumulation") eqn:Hin.
  - destruct (find_Exists _ _ (sentence_with "New snow accumulation" eq_refl
                                 detailedForecast Hin))
      as [sentence Hfind].
    rewrite Hfind. apply find_some in Hfind as [Hmember Hmark].
    rewrite (includes_truthy _ _ Hmark eq_refl).
    assert (Hkept : includes (trim sentence) "New snow accumulation" = true).
    { apply includes_iff in Hmark as (a & b & Hs).
      destruct (trim_keeps_part sentence "ew snow accumulatio" "N" "n" a b
                  eq_refl eq_refl Hs) as (a' & b' & Htrim).
      apply includes_iff. exists a', b'. exact Htrim. }
    split; [|split; [|split]].
    + apply (includes_truthy _ _ Hkept eq_refl).
    + exact Hkept.
    + destruct (includes (trim sentence) ".") eqn:Hdot; [|reflexivity].
      pose proof (split_unit_pieces "."%char detailedForecast) as Hpieces.
      rewrite Forall_forall in Hpieces.
      specialize (Hpieces sentence (proj2 (list_elem_of_In _ _) Hmember)).
      rewrite (includes_part sentence (trim sentence) "." (trim_part sentence) Hdot)
        in Hpieces.
      discriminate Hpieces.
    + apply trim_idempotent.
  - repeat split; reflexivity.
Qed.

(** ** Single-resort conditions adapter: the lookups by label *)

Section ResortLookups.

Variable label : string.

Lemma filter_unlabelled (records : list (list string)) :
  Forall (fun cells => labelOf cells <> label) records ->
  filter (fun cells => trim (at_ 0 cells) = label) records = [].
Proof.
  induction 1 as [|cells records Hcells _ IH]; [reflexivity|].
  rewrite filter_cons, decide_False by exact Hcells. exact IH.
Qed.

Lemma filter_first_labelled (before after : list (list string)) (row : list string) :
  Forall (fun cells => labelOf cells <> label) before ->
  labelOf row = label ->
  filter (fun cells => trim (at_ 0 cells) = label) (before ++ row :: after)
  = row :: filter (fun cells => trim (at_ 0 cells) = label) after.
Proof.
  intros Hbefore Hrow.
  rewrite filter_app, (filter_unlabelled before Hbefore).
  rewrite filter_cons, decide_True by exact Hrow. reflexivity.
Qed.

Lemma at_app (i : nat) (row rest : list string) :
  (i < length row)%nat -> at_ i (row ++ rest) = at_ i row.
Proof. intros Hi. unfold at_. apply app_nth1. exact Hi. Qed.

End ResortLookups.

Lemma getValueByLabel_trim (page : Page) (label : string) :
  getValueByLabel page label = trim (at_ 1 (cellsOf page label)).
Proof.
  unfold getValueByLabel.
  destruct (trim (at_ 1 (cellsOf page label))); reflexivity.
Qed.

(** X5. [getValueByLabel] returns the empty string when no record has the
    label as its trimmed first cell; when the first record that has it
    holds two cells or more, it returns the trimmed second cell of that
    record, whatever follows.  The value has no white space at either end. *)
Theorem getValueByLabel_first_row (page : Page) (label : string) :
  (Forall (fun cells => labelOf cells <> label) (page_records page) ->
   getValueByLabel page label = "")
  /\ (forall before row after,
         page_records page = before ++ row :: after ->
         Forall (fun cells => labelOf cells <> label) before ->
         labelOf row = label ->
         (2 <= length row)%nat ->
         getValueByLabel page label = trim (at_ 1 row))
  /\ trim (getValueByLabel page label) = getValueByLabel page label.
Proof.
  rewrite !getValueByLabel_trim. unfold cellsOf. split; [|split].
  - intros Hnone. rewrite (filter_unlabelled label _ Hnone). reflexivity.
  - intros before row after -> Hbefore Hrow Hlen.
    rewrite (filter_first_labelled label before after row Hbefore Hrow).
    cbn [concat]. rewrite at_app by lia. reflexivity.
  - apply trim_idempotent.
Qed.

Lemma getValueByLabel_first_row_witness :
  getValueByLabel resortPage "Lifts Open:" = "8 of 11"
  /\ getValueByLabel resortPage "Night Skiing:" = "".
Proof.
  destruct (getValueByLabel_first_row resortPage "Lifts Open:") as (_ & Hrow & _).
  destruct (getValueByLabel_first_row resortPage "Night Skiing:") as (Hnone & _).
  split.
  - rewrite (Hrow [["Date:"; " January 14, 2025 "]] ["Lifts Open:"; "8 of 11"]
               [["New Snow since yesterday:"; "2"; "5"; "9"; "60"]] eq_refl).
    + reflexivity.
    + repeat constructor. discriminate.
    + reflexivity.
    + simpl. lia.
  - apply Hnone. repeat constructor; discriminate.
Defined.

(** X6. [getSnowData] returns four empty strings when no record is labelled
    "New Snow since yesterday:"; otherwise the four amounts are the trimmed
    second to fifth cells of the first record so labelled when it holds
    five cells or more, and, when it is the only record so labelled, a
    cell that is missing gives the empty string. *)
Theorem getSnowData_first_row (page : Page) :
  (Forall (fun cells => labelOf cells <> "New Snow since yesterday:")
          (page_records page) ->
   getSnowData page = mkSnowData "" "" "" "")
  /\ (forall before row after,
         page_records page = before ++ row :: after ->
         Forall (fun cells => labelOf cells <> "New Snow since yesterday:") before ->
         labelOf row = "New Snow since yesterday:" ->
         (5 <= length row)%nat
         \/ Forall (fun cells => labelOf cells <> "New Snow since yesterday:") after ->
         getSnowData page
         = mkSnowData (trim (at_ 1 row)) (trim (at_ 2 row))
                      (trim (at_ 3 row)) (trim (at_ 4 row))).
Proof.
  unfold getSnowData, cellsOf. split.
  - intros Hnone. rewrite (filter_unlabelled _ _ Hnone). reflexivity.
  - intros before row after -> Hbefore Hrow Hcase.
    rewrite (filter_first_labelled _ before after row Hbefore Hrow).
    cbn [length concat]. cbn [Nat.ltb Nat.leb].
    destruct Hcase as [Hlen | Hafter].
    + rewrite !at_app by lia. reflexivity.
    + rewrite (filter_unlabelled _ _ Hafter). cbn [concat].
      rewrite app_nil_r. reflexivity.
Qed.

Lemma getSnowData_first_row_witness :
  getSnowData resortPage = mkSnowData "2" "5" "9" "60"
  /\ getSnowData (trailPage []) = mkSnowData "" "" "" "".
Proof.
  destruct (getSnowData_first_row resortPage) as (_ & Hrow).
  destruct (getSnowData_first_row (trailPage [])) as (Hnone & _).
  split.
  - rewrite (Hrow [["Date:"; " January 14, 2025 "]; ["Lifts Open:"; "8 of 11"]]
               ["New Snow since yesterday:"; "2"; "5"; "9"; "60"] [] eq_refl).
    + reflexivity.
    + repeat constructor; discriminate.
    + reflexivity.
    + left. simpl. lia.
  - apply Hnone. constructor.
Defined.

(** ** Resort-bulletin adapter: the shape of the result *)

Section ParkShape.

Lemma leadIn_trimmed (header text : string) :
  trim header = header ->
  trim (sec_header (leadIn header text)) = sec_header (leadIn header text)
  /\ trim (sec_content (leadIn header text)) = sec_content (leadIn header text).
Proof. intros Hh. simpl. split; [exact Hh | apply trim_idempotent]. Qed.

Lemma matchingSections_headers (searchTerms : list string) (panel : Panel) :
  Forall (fun section =>
            (exists term, In term searchTerms
                          /\ includes (sec_header section) term = true)
            /\ trim (sec_header section) = sec_header section
            /\ trim (sec_content section) = sec_content section)
         (PerPark.matchingSections searchTerms panel).
Proof.
  unfold PerPark.matchingSections.
  induction (panel_strong panel) as [|el els IH]; [constructor|].
  cbn [flat_map]. apply Forall_app. split; [|exact IH].
  destruct (existsb _ searchTerms) eqn:Hterm; [|constructor].
  constructor; [|constructor].
  apply existsb_exists in Hterm as (term & Hin & Hinc).
  split; [exists term; split; [exact Hin | exact Hinc]|].
  apply leadIn_trimmed. apply trim_idempotent.
Qed.

Lemma stonySections_headers (panel : Panel) :
  Forall (fun section => includes (toLowerCase (sec_header section)) "ski" = true)
         (SharedFetch.stonySections panel).
Proof.
  unfold SharedFetch.stonySections.
  induction (panel_p panel) as [|el els IH]; [constructor|].
  cbn [flat_map]. apply Forall_app. split; [|exact IH].
  destruct (includes _ "ski") eqn:Hski; [|constructor].
  constructor; [exact Hski | constructor].
Qed.

Lemma huronSections_headers (panel : Panel) :
  Forall (fun section =>
            (sec_header section = "Cross Country Ski Trail Conditions"
             /\ includes (sec_content section) "Cross Country Ski Trail Conditions"
                = true)
            \/ truthy (sec_header section) = true)
         (SharedFetch.huronSections panel).
Proof.
  unfold SharedFetch.huronSections. apply Forall_app. split.
  - induction (panel_p panel) as [|el els IH]; [constructor|].
    cbn [flat_map]. apply Forall_app. split; [|exact IH].
    destruct (includes _ SharedFetch.skiTrailHeader) eqn:Hski; [|constructor].
    constructor; [|constructor]. left. split; [reflexivity | exact Hski].
  - induction (panel_li panel) as [|el els IH]; [constructor|].
    cbn [flat_map]. apply Forall_app. split; [|exact IH].
    destruct (truthy (trim (el_related el))) eqn:Hstrong; [|constructor].
    constructor; [|constructor]. right. exact Hstrong.
Qed.

End ParkShape.

(** X7. The per-park revision of [getMetroparkConditions] never throws and
    returns an entry for each of the two parks and for nothing else.  The
    entry of a park whose page could not be loaded has no title, no
    sections and the error text; otherwise it has no error, and a title
    exactly when the panel of the park was found.  Every section has a
    header that contains one of the park's search terms, and header and
    content have no white space at either end. *)
Theorem perPark_shape (env : Env) (h : list Event) :
  exists parks : gmap string ParkEntry,
    fst (PerPark.getMetroparkConditions env h) = Ok (ParkConditions parks)
    /\ (forall key,
           is_Some (parks !! key)
           <-> key = "HuronMeadowsMetropark" \/ key = "StonyCreekMetropark")
    /\ forall parkId searchTerms entry,
        (parkId, searchTerms) ∈ PerPark.parkMap ->
        parks !! parkId = Some entry ->
        (forall error,
            loadedPage env (PerPark.parkUrl parkId) = Throw error ->
            entry = {| park_title := None;
                       park_sections := [];
                       park_error := Some (failedToFetch error) |})
        /\ (forall page,
               loadedPage env (PerPark.parkUrl parkId) = Ok page ->
               park_error entry = None
               /\ (park_title entry = None <-> findPanel page parkId = None))
        /\ Forall (fun section =>
                     (exists term, In term searchTerms
                                   /\ includes (sec_header section) term = true)
                     /\ trim (sec_header section) = sec_header section
                     /\ trim (sec_content section) = sec_content section)
                  (park_sections entry).
Proof.
  assert (Hkeys : NoDup PerPark.parkMap.*1)
    by (apply (bool_decide_unpack _); vm_compute; reflexivity).
  exists (parksOf env PerPark.parkMap ∅). rewrite perPark_run.
  split; [reflexivity|]. split.
  - intros key. split.
    + intros Hsome.
      destruct (decide (key ∈ PerPark.parkMap.*1)) as [Hin|Hnot].
      * cbn in Hin. rewrite !elem_of_cons in Hin.
        destruct Hin as [-> | [-> | Hin]]; auto.
        apply elem_of_nil in Hin. contradiction.
      * rewrite (parksOf_other env PerPark.parkMap key ∅ Hnot) in Hsome.
        rewrite lookup_empty in Hsome. destruct Hsome as [x Hx]. discriminate Hx.
    + intros Hkey.
      assert (Hin : exists terms, (key, terms) ∈ PerPark.parkMap).
      { destruct Hkey as [-> | ->]; eexists; unfold PerPark.parkMap;
          rewrite !elem_of_cons; eauto. }
      destruct Hin as [terms Hin].
      rewrite (parksOf_entry env PerPark.parkMap ∅ key terms Hkeys Hin).
      eexists. reflexivity.
  - intros parkId searchTerms entry Hin Hentry.
    rewrite (parksOf_entry env PerPark.parkMap ∅ parkId searchTerms Hkeys Hin)
      in Hentry.
    injection Hentry as <-. unfold parkEntry. split; [|split].
    + intros error ->. reflexivity.
    + intros page ->. destruct (findPanel page parkId); cbn.
      * split; [reflexivity|]. split; discriminate.
      * split; [reflexivity|]. split; reflexivity.
    + destruct (loadedPage env (PerPark.parkUrl parkId)) as [page|error].
      * destruct (findPanel page parkId) as [panel|]; cbn [park_sections].
        -- apply matchingSections_headers.
        -- constructor.
      * constructor.
Qed.

Lemma perPark_shape_witness :
  parksOf (sampleEnv stonyOnly id (Ok None)) PerPark.parkMap ∅
    !! "HuronMeadowsMetropark"
  = Some (mkParkEntry None []
            (Some "Failed to fetch conditions: getaddrinfo ENOTFOUND"))
  /\ (exists entry,
         parksOf (sampleEnv stonyOnly id (Ok None)) PerPark.parkMap ∅
           !! "StonyCreekMetropark" = Some entry
         /\ park_error entry = None).
Proof.
  destruct (perPark_shape (sampleEnv stonyOnly id (Ok None)) [])
    as (parks & Hrun & Hkeys & Hentries).
  rewrite perPark_run in Hrun. cbn [fst] in Hrun.
  assert (Hparks : parksOf (sampleEnv stonyOnly id (Ok None)) PerPark.parkMap ∅
                   = parks) by congruence.
  rewrite Hparks. clear Hrun Hparks.
  split.
  - destruct (proj2 (Hkeys "HuronMeadowsMetropark") ltac:(auto)) as [entry Hentry].
    rewrite Hentry. f_equal.
    destruct (Hentries "HuronMeadowsMetropark"
                ["Bucks Run"; "Natural Snow Classic and Skate Ski Trails"] entry)
      as (Hfailed & _).
    + apply list_elem_of_In. left. reflexivity.
    + exact Hentry.
    + apply (Hfailed (NetworkError "getaddrinfo ENOTFOUND")). reflexivity.
  - destruct (proj2 (Hkeys "StonyCreekMetropark") ltac:(auto)) as [entry Hentry].
    exists entry. split; [exact Hentry|].
    destruct (Hentries "StonyCreekMetropark" ["Stony Creek Cross Country"] entry)
      as (_ & Hloaded & _).
    + apply list_elem_of_In. right. left. reflexivity.
    + exact Hentry.
    + apply (Hloaded parkPage). reflexivity.
Defined.

Lemma scanPanel_lookup (page : Page) (id : string)
    (sections : Panel -> list BulletinSection)
    (conditions : gmap string ParkEntry) (key : string) :
  SharedFetch.scanPanel page id sections conditions !! key
  = if decide (key = id) then
      match findPanel page id with
      | Some panel =>
          Some {| park_title := Some (trim (panel_title panel));
                  park_sections := sections panel;
                  park_error := None |}
      | None => conditions !! key
      end
    else conditions !! key.
Proof.
  unfold SharedFetch.scanPanel. destruct (findPanel page id) as [panel|].
  - case_decide as Hkey.
    + subst key. apply lookup_insert_eq.
    + apply lookup_insert_ne. congruence.
  - case_decide; reflexivity.
Qed.

(** X8. The shared-fetch revision of [getMetroparkConditions] never throws.
    When the page cannot be loaded it returns the object whose only key is
    [error], holding "Failed to fetch conditions: " followed by the error
    message; otherwise it returns entries without error for exactly
    those of the two parks whose panel is on the page.  Every Stony Creek
    section has a header that contains "ski" in some letter case; every
    Huron Meadows section either has the header "Cross Country Ski Trail
    Conditions" and a content that contains that phrase, or a non-empty
    header taken from a list item. *)
Theorem sharedFetch_shape (env : Env) (h : list Event) :
  exists result : MetroparkResult,
    fst (SharedFetch.getMetroparkConditions env h) = Ok result
    /\ (forall error,
           loadedPage env baseUrl = Throw error ->
           result = ParkFailure ("Failed to fetch conditions: " +:+ errorMessage error))
    /\ (forall page,
           loadedPage env baseUrl = Ok page ->
           exists parks : gmap string ParkEntry,
             result = ParkConditions parks
             /\ (forall key,
                    is_Some (parks !! key)
                    <-> (key = "HuronMeadowsMetropark" \/ key = "StonyCreekMetropark")
                        /\ is_Some (findPanel page key))
             /\ (forall key entry, parks !! key = Some entry -> park_error entry = None)
             /\ (forall entry,
                    parks !! "StonyCreekMetropark" = Some entry ->
                    Forall (fun section =>
                              includes (toLowerCase (sec_header section)) "ski" = true)
                           (park_sections entry))
             /\ (forall entry,
                    parks !! "HuronMeadowsMetropark" = Some entry ->
                    Forall (fun section =>
                              (sec_header section = "Cross Country Ski Trail Conditions"
                               /\ includes (sec_content section)
                                    "Cross Country Ski Trail Conditions" = true)
                              \/ truthy (sec_header section) = true)
                           (park_sections entry))).
Proof.
  exists (sharedParks env). rewrite sharedFetch_run. split; [reflexivity|].
  unfold sharedParks. split.
  - intros error ->. reflexivity.
  - intros page ->. eexists. split; [reflexivity|].
    assert (Hlookup : forall key,
               SharedFetch.scanPanel page "StonyCreekMetropark"
                 SharedFetch.stonySections
                 (SharedFetch.scanPanel page "HuronMeadowsMetropark"
                    SharedFetch.huronSections ∅) !! key
               = if decide (key = "StonyCreekMetropark") then
                   (fun panel =>
                      {| park_title := Some (trim (panel_title panel));
                         park_sections := SharedFetch.stonySections panel;
                         park_error := None |})
                     <$> findPanel page "StonyCreekMetropark"
                 else if decide (key = "HuronMeadowsMetropark") then
                   (fun panel =>
                      {| park_title := Some (trim (panel_title panel));
                         park_sections := SharedFetch.huronSections panel;
                         park_error := None |})
                     <$> findPanel page "HuronMeadowsMetropark"
                 else None).
    { intros key. rewrite !scanPanel_lookup, lookup_empty.
      destruct (decide (key = "StonyCreekMetropark")) as [->|Hs].
      - destruct (findPanel page "StonyCreekMetropark"); [reflexivity|].
        rewrite decide_False by discriminate. reflexivity.
      - destruct (decide (key = "HuronMeadowsMetropark")) as [->|Hh];
          [|reflexivity].
        destruct (findPanel page "HuronMeadowsMetropark"); reflexivity. }
    split; [|split; [|split]].
    + intros key. rewrite Hlookup.
      destruct (decide (key = "StonyCreekMetropark")) as [->|Hs].
      * rewrite fmap_is_Some. tauto.
      * destruct (decide (key = "HuronMeadowsMetropark")) as [->|Hh].
        -- rewrite fmap_is_Some. tauto.
        -- split; [intros [x Hx]; discriminate Hx | tauto].
    + intros key entry. rewrite Hlookup.
      destruct (decide (key = "StonyCreekMetropark")) as [->|Hs].
      * destruct (findPanel page "StonyCreekMetropark"); [|discriminate].
        intros [= <-]. reflexivity.
      * destruct (decide (key = "HuronMeadowsMetropark")) as [->|Hh];
          [|discriminate].
        destruct (findPanel page "HuronMeadowsMetropark"); [|discriminate].
        intros [= <-]. reflexivity.
    + intros entry. rewrite Hlookup. rewrite decide_True by reflexivity.
      destruct (findPanel page "StonyCreekMetropark"); [|discriminate].
      intros [= <-]. apply stonySections_headers.
    + intros entry. rewrite Hlookup.
      rewrite decide_False by discriminate. rewrite decide_True by reflexivity.
      destruct (findPanel page "HuronMeadowsMetropark"); [|discriminate].
      intros [= <-]. apply huronSections_headers.
Qed.

Lemma sharedFetch_shape_witness :
  fst (SharedFetch.getMetroparkConditions (sampleEnv offline id (Ok None)) [])
  = Ok (ParkFailure "Failed to fetch conditions: getaddrinfo ENOTFOUND").
Proof.
  destruct (sharedFetch_shape (sampleEnv offline id (Ok None)) [])
    as (result & -> & Hfailed & _).
  f_equal. apply (Hfailed (NetworkError "getaddrinfo ENOTFOUND")). reflexivity.
Defined.

Lemma substringFrom_app (prefix rest : string) (n : nat) :
  String.length prefix = n -> substringFrom n (prefix +:+ rest) = rest.
Proof. intros <-. apply substringFrom_length. Qed.

Lemma substringFrom_short (n : nat) :
  forall s, (String.length s <= n)%nat -> substringFrom n s = "".
Proof.
  induction n as [|n IH]; intros [|a s] Hlen; simpl in *; try reflexivity; try lia.
  apply IH. lia.
Qed.

(** X9. The content of a section is the text without its first
    [header.length] code units, trimmed: the remainder of the paragraph
    when the paragraph starts with the bold lead-in, but the same number of
    code units is dropped when it starts with anything else of that length,
    and a text that is not longer than the header gives an empty content. *)
Theorem leadIn_drops_header_length (header start rest text : string) :
  (String.length start = String.length header ->
   leadIn header (start +:+ rest)
   = {| sec_header := header; sec_content := trim rest |})
  /\ ((String.length text <= String.length header)%nat ->
      leadIn header text = {| sec_header := header; sec_content := "" |}).
Proof.
  unfold leadIn. split.
  - intros Hlen. rewrite (substringFrom_app start rest _ Hlen). reflexivity.
  - intros Hlen. rewrite (substringFrom_short _ text Hlen). reflexivity.
Qed.

Lemma leadIn_drops_header_length_witness :
  leadIn "Bucks Run:" "Bucks Run: Groomed and track set. "
  = mkSection "Bucks Run:" "Groomed and track set."
  /\ leadIn "Bucks Run:" "Bucks" = mkSection "Bucks Run:" "".
Proof.
  destruct (leadIn_drops_header_length "Bucks Run:" "Bucks Run:"
              " Groomed and track set. " "Bucks") as [Hprefix Hshort].
  split; [exact (Hprefix eq_refl) | apply Hshort; simpl; lia].
Defined.

(** ** Regional trail-report adapter: invariants of the merged map *)

Section TrailInvariants.

Variable env : Env.

Lemma matchedHeader_segments (header : Heading) (dateSection locationSection : string) :
  matchedHeader header = Some (dateSection, locationSection) ->
  mentionsRelevant locationSection = true
  /\ trim locationSection = locationSection
  /\ trim dateSection = dateSection.
Proof.
  unfold matchedHeader, mentionsRelevant.
  destruct (length (split ":" (trim (heading_text header))) <? 2)%nat;
    [discriminate|].
  destruct (find _ relevantLocations) as [relevant|] eqn:Hfind; [|discriminate].
  destruct (truthy relevant); [|discriminate].
  intros [= <- <-]. apply find_some in Hfind as [Hin Hinc].
  split; [|split; apply trim_idempotent].
  apply existsb_exists. exists relevant. split; [exact Hin | exact Hinc].
Qed.

(** The entry under [key] after one header. *)
Lemma processHeader_lookup (conditions : gmap string TrailEntry)
    (header : Heading) (key : string) :
  processHeader env conditions header !! key
  = match matchedHeader header with
    | Some (dateSection, locationSection) =>
        if decide (key = locationSection) then
          if shouldStore (conditions !! key) (parseDateFromHeader env dateSection)
          then Some (incomingEntry env header dateSection)
          else conditions !! key
        else conditions !! key
    | None => conditions !! key
    end.
Proof.
  destruct (matchedHeader header) as [[dateSection locationSection]|] eqn:Hm.
  - rewrite (processHeader_matched env _ _ _ _ Hm).
    case_decide as Hkey.
    + subst key. destruct (shouldStore _ _); [apply lookup_insert_eq | reflexivity].
    + destruct (shouldStore _ _); [|reflexivity].
      apply lookup_insert_ne. congruence.
  - rewrite (processHeader_unmatched env _ _ Hm). reflexivity.
Qed.

Lemma processHeader_consistent (conditions : gmap string TrailEntry)
    (header : Heading) :
  (forall key entry, conditions !! key = Some entry -> entryConsistent env key entry) ->
  forall key entry,
    processHeader env conditions header !! key = Some entry ->
    entryConsistent env key entry.
Proof.
  intros Hinv key entry. rewrite processHeader_lookup.
  destruct (matchedHeader header) as [[dateSection locationSection]|] eqn:Hm;
    [|apply Hinv].
  case_decide as Hkey; [|apply Hinv].
  destruct (shouldStore _ _); [|apply Hinv].
  intros [= <-]. subst key.
  destruct (matchedHeader_segments _ _ _ Hm) as (Hrel & Hloc & Hdate).
  unfold entryConsistent, incomingEntry. cbn.
  repeat split; auto. apply trim_idempotent.
Qed.

Lemma headers_consistent (headers : list Heading) :
  forall conditions : gmap string TrailEntry,
    (forall key entry, conditions !! key = Some entry -> entryConsistent env key entry) ->
    forall key entry,
      fold_left (processHeader env) headers conditions !! key = Some entry ->
      entryConsistent env key entry.
Proof.
  induction headers as [|header headers IH]; intros conditions Hinv; [exact Hinv|].
  cbn [fold_left]. apply IH. apply processHeader_consistent. exact Hinv.
Qed.

Lemma trailMap_consistent (order : list Z) :
  forall key entry,
    trailMap env order !! key = Some entry -> entryConsistent env key entry.
Proof.
  unfold trailMap.
  assert (Hgen : forall conditions : gmap string TrailEntry,
             (forall key entry, conditions !! key = Some entry ->
                                entryConsistent env key entry) ->
             forall key entry,
               fold_left (regionContribution env) order conditions !! key = Some entry ->
               entryConsistent env key entry).
  { induction order as [|region order IH]; intros conditions Hinv; [exact Hinv|].
    cbn [fold_left]. apply IH. unfold regionContribution.
    destruct (loadedPage env (regionUrl region)); [|exact Hinv].
    apply headers_consistent. exact Hinv. }
  apply Hgen. intros key entry Hempty. rewrite lookup_empty in Hempty.
  discriminate Hempty.
Qed.

(** The keys after a list of headers: those there before, and the location
    segments of the headers taken up. *)
Lemma headers_keys (headers : list Heading) :
  forall (conditions : gmap string TrailEntry) (key : string),
    is_Some (fold_left (processHeader env) headers conditions !! key)
    <-> is_Some (conditions !! key)
        \/ exists header dateSection,
            In header headers /\ matchedHeader header = Some (dateSection, key).
Proof.
  induction headers as [|header headers IH]; intros conditions key.
  - simpl. split; [auto | intros [H | (? & ? & [] & _)]; exact H].
  - cbn [fold_left]. rewrite IH, processHeader_lookup.
    destruct (matchedHeader header) as [[dateSection locationSection]|] eqn:Hm.
    + case_decide as Hkey.
      * subst key. split.
        -- intros _. right. exists header, dateSection. split; [left; reflexivity | exact Hm].
        -- intros _. left.
           destruct (conditions !! locationSection) as [stored|] eqn:Hstored.
           ++ destruct (shouldStore _ _); eauto.
           ++ simpl. eauto.
      * split.
        -- intros [Hold | (hd & d & Hin & Hmatch)]; [left; exact Hold|].
           right. exists hd, d. split; [right; exact Hin | exact Hmatch].
        -- intros [Hold | (hd & d & [<- | Hin] & Hmatch)]; [left; exact Hold | |].
           ++ rewrite Hm in Hmatch. injection Hmatch as _ Heq. congruence.
           ++ right. exists hd, d. split; [exact Hin | exact Hmatch].
    + split.
      * intros [Hold | (hd & d & Hin & Hmatch)]; [left; exact Hold|].
        right. exists hd, d. split; [right; exact Hin | exact Hmatch].
      * intros [Hold | (hd & d & [<- | Hin] & Hmatch)]; [left; exact Hold | |].
        -- rewrite Hm in Hmatch. discriminate Hmatch.
        -- right. exists hd, d. split; [exact Hin | exact Hmatch].
Qed.

Lemma regions_keys (order : list Z) :
  forall (conditions : gmap string TrailEntry) (key : string),
    is_Some (fold_left (regionContribution env) order conditions !! key)
    <-> is_Some (conditions !! key)
        \/ exists region page header dateSection,
            In region order
            /\ loadedPage env (regionUrl region) = Ok page
            /\ In header (page_h4 page)
            /\ matchedHeader header = Some (dateSection, key).
Proof.
  induction order as [|region order IH]; intros conditions key.
  - simpl. split; [auto | intros [H | (? & ? & ? & ? & [] & _)]; exact H].
  - cbn [fold_left]. rewrite IH. unfold regionContribution.
    destruct (loadedPage env (regionUrl region)) as [page|error] eqn:Hpage.
    + rewrite headers_keys. split.
      * intros [[Hold | (hd & d & Hin & Hm)] | (r & pg & hd & d & Hr & Hp & Hin & Hm)].
        -- left. exact Hold.
        -- right. exists region, page, hd, d.
           split; [left; reflexivity|]. split; [exact Hpage|]. split; assumption.
        -- right. exists r, pg, hd, d.
           split; [right; exact Hr|]. split; [exact Hp|]. split; assumption.
      * intros [Hold | (r & pg & hd & d & [<- | Hr] & Hp & Hin & Hm)].
        -- left. left. exact Hold.
        -- rewrite Hpage in Hp. injection Hp as <-. left. right.
           exists hd, d. split; assumption.
        -- right. exists r, pg, hd, d.
           split; [exact Hr|]. split; [exact Hp|]. split; assumption.
    + split.
      * intros [Hold | (r & pg & hd & d & Hr & Hp & Hin & Hm)]; [left; exact Hold|].
        right. exists r, pg, hd, d.
        split; [right; exact Hr|]. split; [exact Hp|]. split; assumption.
      * intros [Hold | (r & pg & hd & d & [<- | Hr] & Hp & Hin & Hm)].
        -- left. exact Hold.
        -- rewrite Hpage in Hp. discriminate Hp.
        -- right. exists r, pg, hd, d.
           split; [exact Hr|]. split; [exact Hp|]. split; assumption.
Qed.

End TrailInvariants.

(** X10. [getNordicSkiRacerConditions] never throws, and every entry of its
    result is keyed by a location segment that mentions one of the three
    relevant locations in some letter case; the key, the date label and the
    report text have no white space at either end. *)
Theorem nordic_entries_relevant (env : Env) (h : list Event) :
  exists reports : gmap string TrailReport,
    fst (getNordicSkiRacerConditions env h) = Ok reports
    /\ forall key report,
        reports !! key = Some report ->
        mentionsRelevant key = true
        /\ trim key = key
        /\ trim (tr_lastUpdated report) = tr_lastUpdated report
        /\ trim (tr_conditions report) = tr_conditions report.
Proof.
  eexists. rewrite getNordicSkiRacerConditions_run. split; [reflexivity|].
  intros key report. rewrite lookup_fmap.
  destruct (trailMap env (env_regionOrder env regions) !! key) as [entry|] eqn:Hentry;
    [|discriminate].
  intros [= <-].
  destruct (trailMap_consistent env _ key entry Hentry) as (Hrel & Hkey & Hdate & Htext & _).
  repeat split; assumption.
Qed.

(** X11. A location is in the result of [getNordicSkiRacerConditions]
    exactly when some region whose page was loaded has a header with a
    colon whose location segment is that key and mentions a relevant
    location: no such report is lost, whatever its date, and nothing else
    is added. *)
Theorem nordic_keys_complete (env : Env) (h : list Event) :
  exists reports : gmap string TrailReport,
    fst (getNordicSkiRacerConditions env h) = Ok reports
    /\ forall key,
        is_Some (reports !! key)
        <-> exists region page header dateSection,
            In region (env_regionOrder env regions)
            /\ loadedPage env (regionUrl region) = Ok page
            /\ In header (page_h4 page)
            /\ matchedHeader header = Some (dateSection, key).
Proof.
  eexists. rewrite getNordicSkiRacerConditions_run. split; [reflexivity|].
  intros key. rewrite lookup_fmap, fmap_is_Some. unfold trailMap.
  rewrite regions_keys, lookup_empty. split.
  - intros [[x Hx] | Hex]; [discriminate Hx | exact Hex].
  - intros Hex. right. exact Hex.
Qed.

Section TrailDates.

Variable env : Env.
Variable location : string.

(** One header, for a key whose entry has a parsed date. *)
Lemma processHeader_dated (conditions : gmap string TrailEntry) (header : Heading)
    (stored : TrailEntry) (tStored : Z) :
  conditions !! location = Some stored ->
  parsedTime (te_date stored) = Some tStored ->
  exists entry t,
    processHeader env conditions header !! location = Some entry
    /\ parsedTime (te_date entry) = Some t
    /\ tStored <= t
    /\ forall d t',
        matchedHeader header = Some (d, location) ->
        parsedTime (parseDateFromHeader env d) = Some t' -> t' <= t.
Proof.
  intros Hstored Htime. rewrite processHeader_lookup.
  destruct (matchedHeader header) as [[dateSection locationSection]|] eqn:Hm.
  - case_decide as Hkey.
    + subst locationSection. rewrite Hstored, shouldStore_times, Htime.
      destruct (parsedTime (parseDateFromHeader env dateSection)) as [tNew|] eqn:Hnew.
      * destruct (Z.ltb_spec tStored tNew).
        -- exists (incomingEntry env header dateSection), tNew.
           split; [reflexivity|]. split; [exact Hnew|]. split; [lia|].
           intros d t' [= <-] Ht'. rewrite Hnew in Ht'. injection Ht' as <-. lia.
        -- exists stored, tStored. split; [reflexivity|]. split; [exact Htime|].
           split; [lia|].
           intros d t' [= <-] Ht'. rewrite Hnew in Ht'. injection Ht' as <-. lia.
      * exists stored, tStored. split; [reflexivity|]. split; [exact Htime|].
        split; [lia|]. intros d t' [= <-] Ht'. rewrite Hnew in Ht'. discriminate Ht'.
    + exists stored, tStored. split; [exact Hstored|]. split; [exact Htime|].
      split; [lia|]. intros d t' [= _ Heq]. congruence.
  - exists stored, tStored. split; [exact Hstored|]. split; [exact Htime|].
    split; [lia|]. intros d t' Hd. discriminate Hd.
Qed.

(** One header, for a key whose entry has a date that failed to parse. *)
Lemma processHeader_undated (conditions : gmap string TrailEntry) (header : Heading)
    (stored : TrailEntry) :
  conditions !! location = Some stored ->
  parsedTime (te_date stored) = None ->
  processHeader env conditions header !! location = Some stored.
Proof.
  intros Hstored Htime. rewrite processHeader_lookup.
  destruct (matchedHeader header) as [[dateSection locationSection]|]; [|exact Hstored].
  case_decide as Hkey; [|exact Hstored].
  rewrite Hstored, shouldStore_times, Htime.
  destruct (parsedTime (parseDateFromHeader env dateSection)); reflexivity.
Qed.

End TrailDates.

(** X12. Once a location has an entry whose date parsed, processing any
    further headers leaves it with an entry whose date parsed, is not
    earlier than the one it had, and is not earlier than the parsed date of
    any of those headers for that location: the newest dated report wins. *)
Theorem stored_date_never_decreases (env : Env) (headers : list Heading) :
  forall (conditions : gmap string TrailEntry) (location : string)
         (stored : TrailEntry) (tStored : Z),
    conditions !! location = Some stored ->
    parsedTime (te_date stored) = Some tStored ->
    exists entry t,
      fold_left (processHeader env) headers conditions !! location = Some entry
      /\ parsedTime (te_date entry) = Some t
      /\ tStored <= t
      /\ forall header d t',
          In header headers ->
          matchedHeader header = Some (d, location) ->
          parsedTime (parseDateFromHeader env d) = Some t' -> t' <= t.
Proof.
  induction headers as [|header headers IH];
    intros conditions location stored tStored Hstored Htime.
  - exists stored, tStored. split; [exact Hstored|]. split; [exact Htime|].
    split; [lia|]. intros header d t' [].
  - cbn [fold_left].
    destruct (processHeader_dated env location conditions header stored tStored
                Hstored Htime) as (entry1 & t1 & Hentry1 & Htime1 & Hle1 & Hheader).
    destruct (IH _ location entry1 t1 Hentry1 Htime1)
      as (entry & t & Hentry & Ht & Hle & Hrest).
    exists entry, t. split; [exact Hentry|]. split; [exact Ht|]. split; [lia|].
    intros hd d t' [<- | Hin] Hm Ht'.
    + specialize (Hheader d t' Hm Ht'). lia.
    + exact (Hrest hd d t' Hin Hm Ht').
Qed.

Lemma stored_date_never_decreases_witness :
  exists entry t,
    fold_left (processHeader sampleRuntime) [reportUndated; reportJan14; reportJan13]
      {[ "Nubs Nob - XC" := incomingEntry sampleRuntime reportJan13 "Mon, Jan 13" ]}
      !! "Nubs Nob - XC" = Some entry
    /\ parsedTime (te_date entry) = Some t
    /\ 1736812800000 <= t.
Proof.
  destruct (stored_date_never_decreases sampleRuntime
              [reportUndated; reportJan14; reportJan13]
              {[ "Nubs Nob - XC" := incomingEntry sampleRuntime reportJan13 "Mon, Jan 13" ]}
              "Nubs Nob - XC"
              (incomingEntry sampleRuntime reportJan13 "Mon, Jan 13")
              1736726400000 (lookup_singleton_eq _ _) eq_refl)
    as (entry & t & Hentry & Htime & _ & Hnewest).
  exists entry, t. split; [exact Hentry|]. split; [exact Htime|].
  apply (Hnewest reportJan14 "Tue, Jan 14" 1736812800000).
  - right. left. reflexivity.
  - reflexivity.
  - reflexivity.
Defined.

(** X13. An entry whose date failed to parse is never replaced: whatever
    headers follow for its location, however recent their dates, the entry
    stays as it is. *)
Theorem undated_entry_stays (env : Env) (headers : list Heading) :
  forall (conditions : gmap string TrailEntry) (location : string)
         (stored : TrailEntry),
    conditions !! location = Some stored ->
    parsedTime (te_date stored) = None ->
    fold_left (processHeader env) headers conditions !! location = Some stored.
Proof.
  induction headers as [|header headers IH];
    intros conditions location stored Hstored Htime; [exact Hstored|].
  cbn [fold_left]. apply IH; [|exact Htime].
  apply processHeader_undated; assumption.
Qed.

Lemma undated_entry_stays_witness :
  fold_left (processHeader sampleRuntime) [reportJan13; reportJan14]
    {[ "Nubs Nob - XC" := incomingEntry sampleRuntime reportUndated "Recently" ]}
    !! "Nubs Nob - XC"
  = Some (incomingEntry sampleRuntime reportUndated "Recently").
Proof.
  apply (undated_entry_stays sampleRuntime [reportJan13; reportJan14]
           {[ "Nubs Nob - XC" := incomingEntry sampleRuntime reportUndated "Recently" ]}
           "Nubs Nob - XC" (incomingEntry sampleRuntime reportUndated "Recently")
           (lookup_singleton_eq _ _) eq_refl).
Defined.

Lemma find_none_existsb {X} (f : X -> bool) (l : list X) :
  existsb f l = false -> find f l = None.
Proof.
  induction l as [|x l IH]; [reflexivity|]. simpl.
  destruct (f x); [discriminate | exact IH].
Qed.

(** X14. A header whose text has no colon contributes nothing, and neither
    does one whose location segment mentions none of the relevant
    locations; a date segment without ", " parses to [null]. *)
Theorem headers_skipped (env : Env) :
  (forall (conditions : gmap string TrailEntry) (header : Heading),
      includes (trim (heading_text header)) ":" = false ->
      processHeader env conditions header = conditions)
  /\ (forall (conditions : gmap string TrailEntry) (header : Heading),
         mentionsRelevant (trim (at_ 1 (split ":" (trim (heading_text header)))))
         = false ->
         processHeader env conditions header = conditions)
  /\ (forall dateText : string,
         includes dateText ", " = false ->
         parseDateFromHeader env dateText = None).
Proof.
  split; [|split].
  - intros conditions header Hcolon. apply processHeader_unmatched.
    unfold matchedHeader. rewrite (split_whole ":" _ Hcolon). reflexivity.
  - intros conditions header Hrelevant. apply processHeader_unmatched.
    unfold matchedHeader.
    destruct (length (split ":" (trim (heading_text header))) <? 2)%nat;
      [reflexivity|].
    unfold mentionsRelevant in Hrelevant.
    rewrite (find_none_existsb _ _ Hrelevant). reflexivity.
  - intros dateText Hcomma. unfold parseDateFromHeader.
    rewrite (split_whole ", " _ Hcomma). reflexivity.
Qed.

Lemma headers_skipped_witness :
  processHeader sampleRuntime ∅ reportWithoutColon = ∅
  /\ processHeader sampleRuntime ∅ reportElsewhere = ∅
  /\ parseDateFromHeader sampleRuntime "Tue Jan 14" = None.
Proof.
  destruct (headers_skipped sampleRuntime) as (Hcolon & Hrelevant & Hcomma).
  split; [apply Hcolon; reflexivity|].
  split; [apply Hrelevant; reflexivity | apply Hcomma; reflexivity].
Defined.

(** ** Notifier, aggregator and start-up *)

(** X15. [notifyError] never throws, also when the post to the webhook is
    rejected.  It posts once when [process.env.DISCORD_WEBHOOK] is a
    non-empty string, to that address and with a content that holds the
    error message, and does nothing when the variable is unset or empty. *)
Theorem notifyError_swallows (env : Env) (error : JsError) (h : list Event) :
  fst (notifyError env error h) = Ok tt
  /\ snd (notifyError env error h)
     = h ++ match env_webhook env with
            | Some webhook =>
                if truthy webhook
                then [EvPost webhook (notifyContent env error)] else []
            | None => []
            end
  /\ includes (notifyContent env error) (errorMessage error) = true.
Proof.
  rewrite notifyError_run. split; [reflexivity|]. split; [reflexivity|].
  apply includes_iff. unfold notifyContent. eexists _, _. reflexivity.
Qed.

Section MainStatus.

Variable env : Env.

Lemma filter_put_fetch (evs : list Event) :
  Forall (fun ev => isFetchEvent ev = true) evs -> List.filter isPutEvent evs = [].
Proof.
  induction 1 as [|ev evs Hev _ IH]; [reflexivity|]. simpl.
  destruct ev; try discriminate Hev; exact IH.
Qed.

Lemma filter_put_notify (error : JsError) :
  List.filter isPutEvent (notifyEvents env error ++ [EvExit 1]) = [].
Proof.
  unfold notifyEvents. destruct (env_webhook env) as [webhook|]; [|reflexivity].
  destruct (truthy webhook); reflexivity.
Qed.

End MainStatus.

Section StartUp.

Variable processEnv : gmap string string.

Lemma envSet_iff (varName : string) :
  envSet processEnv varName = true
  <-> exists value, processEnv !! varName = Some value /\ value <> "".
Proof.
  unfold envSet. destruct (processEnv !! varName) as [value|].
  - destruct value as [|c value]; simpl.
    + split; [discriminate|]. intros (value & [= <-] & Hne). contradiction.
    + split; [|reflexivity]. intros _. eexists. split; [reflexivity | discriminate].
  - split; [discriminate|]. intros (value & Hsome & _). discriminate Hsome.
Qed.

Lemma missingEnvVars_In (varName : string) :
  In varName (missingEnvVars processEnv)
  <-> In varName requiredEnvVars /\ envSet processEnv varName = false.
Proof.
  unfold missingEnvVars. rewrite filter_In, negb_true_iff. reflexivity.
Qed.

Lemma missingEnvVars_nil :
  missingEnvVars processEnv = []
  <-> forall varName, In varName requiredEnvVars -> envSet processEnv varName = true.
Proof.
  split.
  - intros Hnil varName Hin.
    destruct (envSet processEnv varName) eqn:Hset; [reflexivity|].
    assert (Hmissing : In varName (missingEnvVars processEnv))
      by (apply missingEnvVars_In; auto).
    rewrite Hnil in Hmissing. destruct Hmissing.
  - intros Hall. destruct (missingEnvVars processEnv) as [|varName rest] eqn:Hm;
      [reflexivity|].
    assert (Hmissing : In varName (missingEnvVars processEnv))
      by (rewrite Hm; left; reflexivity).
    apply missingEnvVars_In in Hmissing as [Hin Hunset].
    rewrite (Hall varName Hin) in Hunset. discriminate Hunset.
Qed.

End StartUp.

(** X17. The start-up check reports exactly the required variables that are
    unset or empty.  When one is missing the
    script exits with status 1 before any request, write or notification;
    when the three are set to non-empty strings it runs [main]. *)
Theorem program_requires_environment (processEnv : gmap string string)
    (env : Env) (h : list Event) :
  (forall varName,
      In varName (missingEnvVars processEnv)
      <-> In varName requiredEnvVars
          /\ ~ exists value, processEnv !! varName = Some value /\ value <> "")
  /\ (missingEnvVars processEnv <> [] ->
      program processEnv env h = (Ok 1, h ++ [EvExit 1]))
  /\ ((forall varName, In varName requiredEnvVars ->
                       exists value, processEnv !! varName = Some value /\ value <> "")
      -> program processEnv env h = main env h).
Proof.
  split; [|split].
  - intros varName. rewrite missingEnvVars_In, <- envSet_iff.
    destruct (envSet processEnv varName); intuition congruence.
  - intros Hmissing. unfold program.
    destruct (missingEnvVars processEnv); [contradiction | reflexivity].
  - intros Hall. unfold program.
    replace (missingEnvVars processEnv) with (@nil string); [reflexivity|].
    symmetry. apply missingEnvVars_nil. intros varName Hin.
    apply envSet_iff, Hall, Hin.
Qed.

Lemma program_requires_environment_witness :
  program tokenOnly sampleRuntime [] = (Ok 1, [EvExit 1])
  /\ In "GITHUB_REPO" (missingEnvVars tokenOnly).
Proof.
  destruct (program_requires_environment tokenOnly sampleRuntime [])
    as (Hmissing & Hexit & _).
  split.
  - apply Hexit. vm_compute. discriminate.
  - apply Hmissing. split; [right; right; left; reflexivity|].
    intros (value & Hvalue & Hne). vm_compute in Hvalue.
    injection Hvalue as <-. apply Hne. reflexivity.
Defined.

(** ** The forecast address rewritten for the hourly request *)

Section FirstOccurrence.

#[local] Arguments String.append : simpl nomatch.

Lemma replaceFirst_first (pat rep s : string) :
  includes s pat = true ->
  exists a b,
    s = a +:+ pat +:+ b
    /\ replaceFirst pat rep s = a +:+ rep +:+ b
    /\ forall a' b', s = a' +:+ pat +:+ b' ->
                     (String.length a <= String.length a')%nat.
Proof.
  induction s as [|c s IH]; cbn [includes replaceFirst].
  - destruct (startsWith pat "") eqn:Hp; [|discriminate]. intros _.
    apply startsWith_iff in Hp as [q Hq]. exists "", q.
    split; [exact Hq|]. split.
    + destruct pat; [simpl in Hq; subst q; reflexivity | discriminate Hq].
    + intros a' b' _. simpl. lia.
  - destruct (startsWith pat (String c s)) eqn:Hp.
    + intros _. apply startsWith_iff in Hp as [q Hq]. exists "", q.
      split; [exact Hq|]. split.
      * rewrite Hq, substringFrom_length. reflexivity.
      * intros a' b' _. simpl. lia.
    + intros Hyes. destruct (IH Hyes) as (a & b & Hs & Hr & Hfirst).
      exists (String c a), b. split; [simpl; congruence|].
      split; [simpl; congruence|].
      intros a' b' Hdec. destruct a' as [|c' a'].
      * simpl in Hdec.
        assert (Htrue : startsWith pat (String c s) = true)
          by (apply startsWith_iff; exists b'; exact Hdec).
        rewrite Hp in Htrue. discriminate Htrue.
      * simpl in Hdec. injection Hdec as _ Hrest.
        specialize (Hfirst a' b' Hrest). simpl. lia.
Qed.

End FirstOccurrence.

(** X18. The hourly address is the forecast address with "/hourly" put
    after its first "/forecast", the text before and after kept; a forecast
    address without "/forecast" is used unchanged, so the hourly request
    goes to the forecast address itself. *)
Theorem hourlyUrlOf_first_occurrence (forecastUrl : string) :
  (includes forecastUrl "/forecast" = false -> hourlyUrlOf forecastUrl = forecastUrl)
  /\ (includes forecastUrl "/forecast" = true ->
      exists a b,
        forecastUrl = a +:+ "/forecast" +:+ b
        /\ hourlyUrlOf forecastUrl = a +:+ "/forecast/hourly" +:+ b
        /\ forall a' b', forecastUrl = a' +:+ "/forecast" +:+ b' ->
                         (String.length a <= String.length a')%nat).
Proof.
  split.
  - intros Hno. apply (replaceFirst_spec "/forecast" "/forecast/hourly"), Hno.
  - intros Hyes. apply replaceFirst_first, Hyes.
Qed.

Lemma hourlyUrlOf_first_occurrence_witness :
  hourlyUrlOf "https://api.weather.gov/gridpoints/DTX/65,49" 
  = "https://api.weather.gov/gridpoints/DTX/65,49"
  /\ exists a b,
      shelbyForecast = a +:+ "/forecast" +:+ b
      /\ hourlyUrlOf shelbyForecast = a +:+ "/forecast/hourly" +:+ b.
Proof.
  destruct (hourlyUrlOf_first_occurrence "https://api.weather.gov/gridpoints/DTX/65,49")
    as (Hno & _).
  destruct (hourlyUrlOf_first_occurrence shelbyForecast) as (_ & Hyes).
  split; [apply Hno; reflexivity|].
  destruct (Hyes eq_refl) as (a & b & Hs & Hr & _).
  exists a, b. split; [exact Hs | exact Hr].
Defined.

(** ** Regions that report different locations *)

Section RegionOrder.

Variable env : Env.

Lemma processHeader_swap (conditions : gmap string TrailEntry) (a b : Heading) :
  distinctLocations a b ->
  processHeader env (processHeader env conditions a) b
  = processHeader env (processHeader env conditions b) a.
Proof.
  intros Hapart.
  destruct (matchedHeader a) as [[da la]|] eqn:Ha;
    [|rewrite !(processHeader_unmatched env _ a Ha); reflexivity].
  destruct (matchedHeader b) as [[db lb]|] eqn:Hb;
    [|rewrite !(processHeader_unmatched env _ b Hb); reflexivity].
  pose proof (Hapart da la db lb Ha Hb) as Hne.
  rewrite (processHeader_matched env conditions a da la Ha).
  rewrite (processHeader_matched env conditions b db lb Hb).
  destruct (shouldStore (conditions !! la) _) eqn:Sa;
    destruct (shouldStore (conditions !! lb) _) eqn:Sb.
  - rewrite (processHeader_matched env _ b db lb Hb).
    rewrite (processHeader_matched env _ a da la Ha).
    rewrite lookup_insert_ne by exact Hne.
    rewrite lookup_insert_ne by (intros Heq; apply Hne; symmetry; exact Heq).
    rewrite Sa, Sb. apply insert_insert_ne.
    intros Heq; apply Hne; symmetry; exact Heq.
  - rewrite (processHeader_matched env _ b db lb Hb).
    rewrite (processHeader_matched env _ a da la Ha).
    rewrite lookup_insert_ne by exact Hne.
    rewrite Sa, Sb. reflexivity.
  - rewrite (processHeader_matched env _ b db lb Hb).
    rewrite (processHeader_matched env _ a da la Ha).
    rewrite lookup_insert_ne by (intros Heq; apply Hne; symmetry; exact Heq).
    rewrite Sa, Sb. reflexivity.
  - rewrite (processHeader_matched env _ b db lb Hb).
    rewrite (processHeader_matched env _ a da la Ha).
    rewrite Sa, Sb. reflexivity.
Qed.

Lemma headers_swap_one (headers : list Heading) (a : Heading) :
  Forall (distinctLocations a) headers ->
  forall conditions,
    fold_left (processHeader env) headers (processHeader env conditions a)
    = processHeader env (fold_left (processHeader env) headers conditions) a.
Proof.
  induction 1 as [|b headers Hb _ IH]; intros conditions; [reflexivity|].
  simpl. rewrite (processHeader_swap conditions a b Hb). apply IH.
Qed.

Lemma headers_swap (first second : list Heading) :
  Forall (fun a => Forall (distinctLocations a) second) first ->
  forall conditions,
    fold_left (processHeader env) second (fold_left (processHeader env) first conditions)
    = fold_left (processHeader env) first (fold_left (processHeader env) second conditions).
Proof.
  induction 1 as [|a first Ha _ IH]; intros conditions; [reflexivity|].
  simpl. rewrite IH. rewrite (headers_swap_one second a Ha). reflexivity.
Qed.

Lemma regionContribution_swap (conditions : gmap string TrailEntry) (r1 r2 : Z) :
  regionsApart env r1 r2 ->
  regionContribution env (regionContribution env conditions r1) r2
  = regionContribution env (regionContribution env conditions r2) r1.
Proof.
  intros Hapart. unfold regionContribution. unfold regionsApart in Hapart.
  destruct (loadedPage env (regionUrl r1)) as [p1|e1];
    destruct (loadedPage env (regionUrl r2)) as [p2|e2]; try reflexivity.
  apply headers_swap. apply Hapart; reflexivity.
Qed.

Lemma regions_permuted (order order' : list Z) :
  Permutation order order' ->
  (forall r1 r2, In r1 order -> In r2 order -> r1 <> r2 -> regionsApart env r1 r2) ->
  forall conditions,
    fold_left (regionContribution env) order conditions
    = fold_left (regionContribution env) order' conditions.
Proof.
  induction 1 as [|r order order' _ IH|r1 r2 order|order order' order'' H1 IH1 H2 IH2];
    intros Hapart conditions.
  - reflexivity.
  - simpl. apply IH. intros r1 r2 H1 H2. apply Hapart; right; assumption.
  - simpl. destruct (Z.eq_dec r2 r1) as [->|Hne]; [reflexivity|].
    rewrite (regionContribution_swap conditions r2 r1); [reflexivity|].
    apply Hapart; [left; reflexivity | right; left; reflexivity | exact Hne].
  - rewrite (IH1 Hapart). apply IH2.
    intros r1 r2 Hr1 Hr2. apply Hapart.
    + apply (Permutation_in r1 (Permutation_sym H1) Hr1).
    + apply (Permutation_in r2 (Permutation_sym H1) Hr2).
Qed.

End RegionOrder.

(** X19. When no two different regions report under the same key, the
    trail-report map does not depend on the order in which the region
    requests are handled: every permutation of the regions gives the same
    map. *)
Theorem trailMap_order_independent (env : Env) (order order' : list Z) :
  Permutation order order' ->
  (forall r1 r2, In r1 order -> In r2 order -> r1 <> r2 -> regionsApart env r1 r2) ->
  trailMap env order = trailMap env order'.
Proof.
  intros Hperm Hapart. unfold trailMap. apply regions_permuted; assumption.
Qed.

Lemma trailMap_order_independent_witness :
  trailMap (sampleEnv apartRegions id (Ok None)) [11; 13]
  = trailMap (sampleEnv apartRegions id (Ok None)) [13; 11].
Proof.
  apply trailMap_order_independent; [apply perm_swap|].
  intros r1 r2 H1 H2 Hne p1 p2 Hp1 Hp2.
  assert (Hheaders : forall a b,
             In a (page_h4 p1) -> In b (page_h4 p2) -> distinctLocations a b).
  { destruct H1 as [<- | [<- | []]]; destruct H2 as [<- | [<- | []]];
      try (exfalso; apply Hne; reflexivity);
      vm_compute in Hp1; vm_compute in Hp2;
      injection Hp1 as <-; injection Hp2 as <-;
      intros a b Hina Hinb da la db lb Ha Hb;
      cbn [page_h4 In] in Hina, Hinb;
      repeat match goal with
             | H : _ \/ _ |- _ => destruct H as [<- | H]
             | H : False |- _ => destruct H
             end;
      vm_compute in Ha; vm_compute in Hb;
      injection Ha as _ <-; injection Hb as _ <-; discriminate. }
  apply List.Forall_forall. intros a Hina.
  apply List.Forall_forall. intros b Hinb. apply Hheaders; assumption.
Defined.

(** ** The earlier revision: weather and the regional table *)

Section LegacyRuns.

Variable env : Env.

Lemma legacy_weatherStep_run (weatherData : gmap string Legacy.WeatherEntry)
    (locationKey : string) (location : Legacy.GridLocation) (h : list Event) :
  Legacy.weatherStep env weatherData (locationKey, location) h
  = (match env_http env (Legacy.forecastUrl location) with
     | Ok response =>
         match resp_periods response with
         | Some periods =>
             Ok (<[locationKey := legacyEntry env location periods]> weatherData)
         | None => Throw (undefinedError "slice")
         end
     | Throw e => Throw e
     end, h ++ getEvents env (Legacy.forecastUrl location)).
Proof.
  unfold Legacy.weatherStep, bind. rewrite fetchWithRetry_axiosGet.
  destruct (env_http env (Legacy.forecastUrl location)) as [response|e];
    [|reflexivity].
  cbn [defined]. unfold ret.
  destruct (resp_periods response) as [periods|]; reflexivity.
Qed.

Lemma calls_getEvents_other (label url : string) :
  url <> label -> calls label (getEvents env url) = 0%nat.
Proof.
  intros Hne. apply String.eqb_neq in Hne. unfold getEvents.
  destruct (env_http env url); cbn [calls isGet]; rewrite ?Hne; reflexivity.
Qed.

End LegacyRuns.

(** X20. The earlier weather adapter catches nothing.  When the forecast of
    the first location cannot be fetched the adapter throws that error and
    the second location is never requested; when the second fails the
    adapter throws as well, so the forecast already fetched is lost.  When
    both answer, each location carries at most four periods. *)
Theorem legacy_weather_all_or_nothing (env : Env) (h : list Event) :
  (forall error,
      env_http env (Legacy.forecastUrl gridShelby) = Throw error ->
      fst (Legacy.getWeatherData env h) = Throw error
      /\ calls (Legacy.forecastUrl gridHarbor) (snd (Legacy.getWeatherData env h))
         = calls (Legacy.forecastUrl gridHarbor) h)
  /\ (forall error,
         env_http env (Legacy.forecastUrl gridHarbor) = Throw error ->
         exists error', fst (Legacy.getWeatherData env h) = Throw error')
  /\ (forall first second periods1 periods2,
         env_http env (Legacy.forecastUrl gridShelby) = Ok first ->
         resp_periods first = Some periods1 ->
         env_http env (Legacy.forecastUrl gridHarbor) = Ok second ->
         resp_periods second = Some periods2 ->
         Legacy.getWeatherData env h
         = (Ok (<["harborSprings" := legacyEntry env gridHarbor periods2]>
                  (<["shelbyTownship" := legacyEntry env gridShelby periods1]> ∅)),
            h ++ [EvGet (Legacy.forecastUrl gridShelby);
                  EvGet (Legacy.forecastUrl gridHarbor)])
         /\ (length (Legacy.we_forecast (legacyEntry env gridShelby periods1)) <= 4)%nat
         /\ (length (Legacy.we_forecast (legacyEntry env gridHarbor periods2)) <= 4)%nat).
Proof.
  unfold Legacy.getWeatherData, Legacy.LOCATIONS. cbn [forEachM]. unfold bind.
  fold gridShelby gridHarbor.
  rewrite (legacy_weatherStep_run env ∅ "shelbyTownship" gridShelby h).
  split; [|split].
  - intros error Hfail. rewrite Hfail. cbn [fst snd]. split; [reflexivity|].
    rewrite calls_app, calls_getEvents_other; [lia|].
    apply String.eqb_neq. vm_compute. reflexivity.
  - intros error Hfail.
    destruct (env_http env (Legacy.forecastUrl gridShelby)) as [first|e];
      [|exists e; reflexivity].
    destruct (resp_periods first) as [periods1|]; [|eexists; reflexivity].
    rewrite legacy_weatherStep_run, Hfail. unfold ret.
    exists error. reflexivity.
  - intros first second periods1 periods2 Hfirst Hp1 Hsecond Hp2.
    rewrite Hfirst, Hp1, legacy_weatherStep_run, Hsecond, Hp2.
    unfold ret, getEvents. rewrite Hfirst, Hsecond, <- app_assoc.
    split; [reflexivity|].
    unfold legacyEntry. cbn [Legacy.we_forecast].
    rewrite !length_map, !length_take. lia.
Qed.

Lemma legacy_weather_all_or_nothing_witness :
  fst (Legacy.getWeatherData (sampleEnv harborOnly id (Ok None)) [])
  = Throw (NetworkError "getaddrinfo ENOTFOUND")
  /\ calls (Legacy.forecastUrl gridHarbor)
           (snd (Legacy.getWeatherData (sampleEnv harborOnly id (Ok None)) []))
     = 0%nat.
Proof.
  destruct (legacy_weather_all_or_nothing (sampleEnv harborOnly id (Ok None)) [])
    as (Hfirst & _).
  apply (Hfirst (NetworkError "getaddrinfo ENOTFOUND")). reflexivity.
Defined.

Section LegacyRows.

Lemma relevant_row_iff (location : string) :
  existsb (String.eqb location) Legacy.relevantLocations = true
  <-> In location Legacy.relevantLocations.
Proof.
  rewrite existsb_exists. split.
  - intros (x & Hin & Heq). apply String.eqb_eq in Heq. subst x. exact Hin.
  - intros Hin. exists location. split; [exact Hin | apply String.eqb_refl].
Qed.

Lemma processRow_other (conditions : gmap string TrailReport) (row : Legacy.Row)
    (key : string) :
  trim (Legacy.row_first row) <> key ->
  Legacy.processRow conditions row !! key = conditions !! key.
Proof.
  intros Hne. unfold Legacy.processRow.
  destruct (existsb _ Legacy.relevantLocations); [|reflexivity].
  apply lookup_insert_ne. exact Hne.
Qed.

Lemma rows_other (rows : list Legacy.Row) (key : string) :
  (forall row, In row rows -> trim (Legacy.row_first row) <> key) ->
  forall conditions,
    fold_left Legacy.processRow rows conditions !! key = conditions !! key.
Proof.
  induction rows as [|row rows IH]; intros Hother conditions; [reflexivity|].
  simpl. rewrite IH by (intros r Hr; apply Hother; right; exact Hr).
  apply processRow_other, Hother. left. reflexivity.
Qed.

Lemma rows_keys (rows : list Legacy.Row) :
  forall (conditions : gmap string TrailReport) (key : string),
    is_Some (fold_left Legacy.processRow rows conditions !! key) ->
    is_Some (conditions !! key)
    \/ (In key Legacy.relevantLocations
        /\ exists row, In row rows /\ trim (Legacy.row_first row) = key).
Proof.
  induction rows as [|row rows IH]; intros conditions key Hsome; [left; exact Hsome|].
  simpl in Hsome. destruct (IH _ _ Hsome) as [Hrow | (Hrel & r & Hin & Hkey)].
  - unfold Legacy.processRow in Hrow.
    destruct (existsb _ Legacy.relevantLocations) eqn:Hrelevant; [|left; exact Hrow].
    destruct (decide (trim (Legacy.row_first row) = key)) as [Heq|Hne].
    + right. split; [rewrite <- Heq; apply relevant_row_iff, Hrelevant|].
      exists row. split; [left; reflexivity | exact Heq].
    + rewrite lookup_insert_ne in Hrow by exact Hne. left. exact Hrow.
  - right. split; [exact Hrel|]. exists r. split; [right; exact Hin | exact Hkey].
Qed.

End LegacyRows.

(** X21. In the earlier revision of the regional adapter a row is stored
    only when its trimmed first cell is exactly one of the two relevant
    names, under that name; the last such row of the table wins, whatever
    the rows before it said; and a key that is the first cell of no row is
    left as it was. *)
Theorem legacy_rows_last_wins (rows : list Legacy.Row) :
  (forall key,
      is_Some (fold_left Legacy.processRow rows ∅ !! key) ->
      (key = "Nubs Nob" \/ key = "Huron Meadows Metropark")
      /\ exists row, In row rows /\ trim (Legacy.row_first row) = key)
  /\ (forall before row after conditions,
         rows = before ++ row :: after ->
         In (trim (Legacy.row_first row)) Legacy.relevantLocations ->
         (forall later, In later after ->
                        trim (Legacy.row_first later) <> trim (Legacy.row_first row)) ->
         fold_left Legacy.processRow rows conditions !! trim (Legacy.row_first row)
         = Some (rowReport row))
  /\ (forall key conditions,
         (forall row, In row rows -> trim (Legacy.row_first row) <> key) ->
         fold_left Legacy.processRow rows conditions !! key = conditions !! key).
Proof.
  split; [|split].
  - intros key Hsome. destruct (rows_keys rows ∅ key Hsome) as [Hempty | (Hrel & Hrow)].
    + rewrite lookup_empty in Hempty. destruct Hempty as [x Hx]. discriminate Hx.
    + split; [|exact Hrow].
      destruct Hrel as [<- | [<- | []]]; [left | right]; reflexivity.
  - intros before row after conditions -> Hrel Hlater.
    rewrite fold_left_app. simpl. rewrite (rows_other after _ Hlater).
    unfold Legacy.processRow.
    apply relevant_row_iff in Hrel. rewrite Hrel.
    apply lookup_insert_eq.
  - intros key conditions Hother. apply rows_other, Hother.
Qed.

Lemma legacy_rows_last_wins_witness :
  fold_left Legacy.processRow
    [ Legacy.mkRow " Nubs Nob " "Jan 13" "Thin";
      Legacy.mkRow "nubs nob" "Jan 15" "Ignored";
      Legacy.mkRow "Nubs Nob" " Jan 12 " "Groomed " ] ∅ !! "Nubs Nob"
  = Some {| tr_lastUpdated := "Jan 12"; tr_conditions := "Groomed" |}.
Proof.
  destruct (legacy_rows_last_wins
              [ Legacy.mkRow " Nubs Nob " "Jan 13" "Thin";
                Legacy.mkRow "nubs nob" "Jan 15" "Ignored";
                Legacy.mkRow "Nubs Nob" " Jan 12 " "Groomed " ])
    as (_ & Hlast & _).
  apply (Hlast [ Legacy.mkRow " Nubs Nob " "Jan 13" "Thin";
                 Legacy.mkRow "nubs nob" "Jan 15" "Ignored" ]
               (Legacy.mkRow "Nubs Nob" " Jan 12 " "Groomed ") [] ∅).
  - reflexivity.
  - left. reflexivity.
  - intros later [].
Defined.

(** ** The cost and the exit status of a run, on any network *)

Section Budget.

Variable env : Env.

Lemma requests_app (a b : list Event) :
  requests (a ++ b) = (requests a + requests b)%nat.
Proof. unfold requests. rewrite List.filter_app, List.length_app. reflexivity. Qed.

Lemma totalDelay_app (a b : list Event) :
  totalDelay (a ++ b) = totalDelay a + totalDelay b.
Proof.
  unfold totalDelay. induction a as [|ev a IH]; [simpl; lia|].
  destruct ev; simpl; try exact IH. rewrite IH. lia.
Qed.

Lemma budget_app (n m : nat) (a b : list Event) :
  withinBudget n a -> withinBudget m b -> withinBudget (n + m) (a ++ b).
Proof.
  intros [Ra Da] [Rb Db]. unfold withinBudget.
  rewrite requests_app, totalDelay_app. split; lia.
Qed.

Lemma budget_mono (n m : nat) (a : list Event) :
  (n <= m)%nat -> withinBudget n a -> withinBudget m a.
Proof. intros Hle [Ra Da]. split; lia. Qed.



Lemma fetches_nil (n : nat) : fetches n [].
Proof.
  split; [constructor|]. apply (budget_mono 0); [lia|].
  split; vm_compute; [lia | discriminate].
Qed.

Lemma fetches_app (n m : nat) (a b : list Event) :
  fetches n a -> fetches m b -> fetches (n + m) (a ++ b).
Proof.
  intros [Fa Ba] [Fb Bb]. split; [|apply budget_app; assumption].
  apply Forall_app. split; assumption.
Qed.

Lemma fetches_mono (n m : nat) (a : list Event) :
  (n <= m)%nat -> fetches n a -> fetches m a.
Proof. intros Hle [Fa Ba]. split; [exact Fa | exact (budget_mono n m a Hle Ba)]. Qed.

End Budget.

(** The combinators of the monad keep a budget. *)
Lemma appends_mono {A} (m : M A) (n n' : nat) :
  (n <= n')%nat -> appends m (fetches n) -> appends m (fetches n').
Proof.
  intros Hle Hm h. destruct (Hm h) as (evs & Hevs & Hf).
  exists evs. split; [exact Hevs | exact (fetches_mono n n' evs Hle Hf)].
Qed.

Lemma appends_ret {A} (a : A) (n : nat) : appends (ret a) (fetches n).
Proof. intros h. exists []. split; [symmetry; apply app_nil_r | apply fetches_nil]. Qed.

Lemma appends_throw {A} (e : JsError) (n : nat) : appends (@throw A e) (fetches n).
Proof. intros h. exists []. split; [symmetry; apply app_nil_r | apply fetches_nil]. Qed.

Lemma appends_defined {A} (what : string) (o : option A) (n : nat) :
  appends (defined what o) (fetches n).
Proof. destruct o; [apply appends_ret | apply appends_throw]. Qed.

Lemma appends_bind {A B} (n n' : nat) (m : M A) (k : A -> M B) :
  appends m (fetches n) ->
  (forall a, appends (k a) (fetches n')) ->
  appends (bind m k) (fetches (n + n')).
Proof.
  intros Hm Hk h. unfold bind.
  destruct (Hm h) as (e1 & H1 & F1).
  destruct (m h) as [[a|e] h1]; cbn [snd] in H1; subst h1.
  - destruct (Hk a (h ++ e1)) as (e2 & H2 & F2).
    exists (e1 ++ e2). split; [rewrite H2; symmetry; apply app_assoc|].
    apply fetches_app; assumption.
  - exists e1. split; [reflexivity|].
    apply (fetches_mono n); [lia | exact F1].
Qed.

Lemma appends_tryCatch {A} (n n' : nat) (m : M A) (handler : JsError -> M A) :
  appends m (fetches n) ->
  (forall e, appends (handler e) (fetches n')) ->
  appends (tryCatch m handler) (fetches (n + n')).
Proof.
  intros Hm Hk h. unfold tryCatch.
  destruct (Hm h) as (e1 & H1 & F1).
  destruct (m h) as [[a|e] h1]; cbn [snd] in H1; subst h1.
  - exists e1. split; [reflexivity|].
    apply (fetches_mono n); [lia | exact F1].
  - destruct (Hk e (h ++ e1)) as (e2 & H2 & F2).
    exists (e1 ++ e2). split; [rewrite H2; symmetry; apply app_assoc|].
    apply fetches_app; assumption.
Qed.

Lemma appends_promiseAll2 {A B} (n n' : nat) (a : M A) (b : M B) :
  appends a (fetches n) -> appends b (fetches n') ->
  appends (promiseAll2 a b) (fetches (n + n')).
Proof.
  intros Ha Hb h. unfold promiseAll2.
  destruct (Ha h) as (e1 & H1 & F1).
  destruct (a h) as [ra h1]; cbn [snd] in H1; subst h1.
  destruct (Hb (h ++ e1)) as (e2 & H2 & F2).
  destruct (b (h ++ e1)) as [rb h2]; cbn [snd] in H2; subst h2.
  exists (e1 ++ e2). split; [|apply fetches_app; assumption].
  destruct ra, rb; cbn [snd]; symmetry; apply app_assoc.
Qed.

Lemma appends_forEachM {A B} (k : nat) (body : B -> A -> M B) (l : list A) :
  (forall acc x, appends (body acc x) (fetches k)) ->
  forall acc, appends (forEachM body l acc) (fetches (k * length l)).
Proof.
  intros Hbody. induction l as [|x l IH]; intros acc.
  - apply appends_ret.
  - cbn [forEachM length]. apply (appends_mono _ (k + k * length l)); [lia|].
    apply appends_bind; [apply Hbody | exact IH].
Qed.

Lemma returns_ret {A} (a : A) : returns (ret a).
Proof. intros h. exists a. reflexivity. Qed.

Lemma returns_bind {A B} (m : M A) (k : A -> M B) :
  returns m -> (forall a, returns (k a)) -> returns (bind m k).
Proof.
  intros Hm Hk h. unfold bind. destruct (Hm h) as (a & Ha).
  destruct (m h) as [[a'|e] h1]; cbn [fst] in Ha; [|discriminate Ha].
  apply Hk.
Qed.

Lemma returns_tryCatch {A} (m : M A) (handler : JsError -> M A) :
  (forall e, returns (handler e)) -> returns (tryCatch m handler).
Proof.
  intros Hk h. unfold tryCatch.
  destruct (m h) as [[a|e] h1]; [exists a; reflexivity | apply Hk].
Qed.

Lemma returns_forEachM {A B} (body : B -> A -> M B) (l : list A) :
  (forall acc x, returns (body acc x)) ->
  forall acc, returns (forEachM body l acc).
Proof.
  intros Hbody. induction l as [|x l IH]; intros acc.
  - intros h. exists acc. reflexivity.
  - cbn [forEachM]. intros h. unfold bind.
    destruct (Hbody acc x h) as (acc' & Hacc).
    destruct (body acc x h) as [[a|e] h1]; cbn [fst] in Hacc; [|discriminate Hacc].
    apply IH.
Qed.


Section LiveRuns.

Variable net : Live.Network.
Variable env : Env.

(** One fetch, attempt by attempt: each answer is that of the network at
    the history the attempt starts from. *)
Lemma live_fetch_run (url : string) (h : list Event) :
  fetchWithRetry (Live.axiosGet net url) defaultRetries h
  = match net url h with
    | Ok response => (Ok (Some response), h ++ [EvGet url])
    | Throw _ =>
        match net url (((h ++ [EvGet url]) ++ [EvSleep 1000]) ++ [EvRetryLog 1 3]) with
        | Ok response =>
            (Ok (Some response),
             (((h ++ [EvGet url]) ++ [EvSleep 1000]) ++ [EvRetryLog 1 3])
               ++ [EvGet url])
        | Throw _ =>
            match net url
                    ((((((h ++ [EvGet url]) ++ [EvSleep 1000]) ++ [EvRetryLog 1 3])
                         ++ [EvGet url]) ++ [EvSleep 2000]) ++ [EvRetryLog 2 3]) with
            | Ok response =>
                (Ok (Some response),
                 ((((((h ++ [EvGet url]) ++ [EvSleep 1000]) ++ [EvRetryLog 1 3])
                      ++ [EvGet url]) ++ [EvSleep 2000]) ++ [EvRetryLog 2 3])
                   ++ [EvGet url])
            | Throw e =>
                (Throw e,
                 ((((((h ++ [EvGet url]) ++ [EvSleep 1000]) ++ [EvRetryLog 1 3])
                      ++ [EvGet url]) ++ [EvSleep 2000]) ++ [EvRetryLog 2 3])
                   ++ [EvGet url])
            end
        end
    end.
Proof.
  unfold fetchWithRetry, Live.axiosGet, defaultRetries.
  change (Z.to_nat 3) with 3%nat. cbn [retryLoop].
  unfold tryCatch, bind, request, ret, throw, sleep, emit.
  change (0 <? 3) with true. change (0 =? 3 - 1) with false.
  change (0 + 1 <? 3) with true. change (0 + 1 =? 3 - 1) with false.
  change (0 + 1 + 1 <? 3) with true. change (0 + 1 + 1 =? 3 - 1) with true.
  change (1000 * 2 ^ 0) with 1000. change (1000 * 2 ^ (0 + 1)) with 2000.
  change (0 + 1 + 1) with 2. change (0 + 1) with 1.
  cbv beta iota.
  destruct (net url h) as [r1|e1]; [reflexivity|].
  cbv beta iota.
  destruct (net url (((h ++ [EvGet url]) ++ [EvSleep 1000]) ++ [EvRetryLog 1 3]))
    as [r2|e2]; [reflexivity|].
  cbv beta iota.
  destruct (net url
              ((((((h ++ [EvGet url]) ++ [EvSleep 1000]) ++ [EvRetryLog 1 3])
                   ++ [EvGet url]) ++ [EvSleep 2000]) ++ [EvRetryLog 2 3]))
    as [r3|e3]; reflexivity.
Qed.

(** One fetch: at most three requests and the waits of 1000 and 2000 ms,
    whatever the answers are. *)
Lemma appends_fetch (url : string) :
  appends (fetchWithRetry (Live.axiosGet net url) defaultRetries) (fetches 1).
Proof.
  intros h. rewrite live_fetch_run.
  destruct (net url h) as [r1|e1].
  { exists [EvGet url]. split; [reflexivity|].
    split; [repeat constructor | split; vm_compute; [lia | discriminate]]. }
  destruct (net url _) as [r2|e2].
  { exists [EvGet url; EvSleep 1000; EvRetryLog 1 3; EvGet url].
    split; [cbn [snd]; rewrite <- !app_assoc; reflexivity|].
    split; [repeat constructor | split; vm_compute; [lia | discriminate]]. }
  destruct (net url _) as [r3|e3].
  - exists [EvGet url; EvSleep 1000; EvRetryLog 1 3; EvGet url; EvSleep 2000;
            EvRetryLog 2 3; EvGet url].
    split; [cbn [snd]; rewrite <- !app_assoc; reflexivity|].
    split; [repeat constructor | split; vm_compute; [lia | discriminate]].
  - exists [EvGet url; EvSleep 1000; EvRetryLog 1 3; EvGet url; EvSleep 2000;
            EvRetryLog 2 3; EvGet url].
    split; [cbn [snd]; rewrite <- !app_assoc; reflexivity|].
    split; [repeat constructor | split; vm_compute; [lia | discriminate]].
Qed.

End LiveRuns.
Section LiveAdapters.

Variable net : Live.Network.
Variable env : Env.

Lemma appends_load (content : option Page) (n : nat) :
  appends (load content) (fetches n).
Proof. destruct content; [apply appends_ret | apply appends_throw]. Qed.

Lemma appends_readClock (n : nat) : appends (readClock env) (fetches n).
Proof. intros h. exists []. split; [symmetry; apply app_nil_r | apply fetches_nil]. Qed.

Lemma appends_checkDns (hostname : string) :
  appends (checkDns env hostname) (fetches 0).
Proof.
  intros h. exists [EvDns hostname]. split; [reflexivity|].
  split; [repeat constructor | split; vm_compute; [lia | discriminate]].
Qed.

Lemma live_fetchLocation_appends (location : Location) :
  appends (Live.fetchLocation net env location) (fetches 3).
Proof.
  unfold Live.fetchLocation.
  apply (appends_bind 1 2); [apply appends_fetch|]. intros pointResponse.
  apply (appends_bind 0 2); [apply appends_defined|]. intros response.
  apply (appends_bind 0 2); [apply appends_defined|]. intros forecastUrl.
  apply (appends_bind 2 0);
    [apply (appends_promiseAll2 1 1); apply appends_fetch|]. intros responses.
  apply (appends_bind 0 0); [apply appends_defined|]. intros forecastResponse.
  apply (appends_bind 0 0); [apply appends_defined|]. intros periods.
  apply appends_ret.
Qed.

Lemma live_weatherStep_appends (weatherData : gmap string WeatherEntry)
    (item : string * Location) :
  appends (Live.weatherStep net env weatherData item) (fetches 3).
Proof.
  destruct item as [locationKey location]. unfold Live.weatherStep.
  apply (appends_bind 3 0); [|intros entry; apply appends_ret].
  apply (appends_tryCatch 3 0); [apply live_fetchLocation_appends|].
  intros _. apply (appends_bind 0 0); [apply appends_readClock|].
  intros now. apply appends_ret.
Qed.

Lemma live_weatherStep_returns (weatherData : gmap string WeatherEntry)
    (item : string * Location) :
  returns (Live.weatherStep net env weatherData item).
Proof.
  destruct item as [locationKey location]. unfold Live.weatherStep.
  apply returns_bind; [|intros entry; apply returns_ret].
  apply returns_tryCatch. intros _ h. eexists. reflexivity.
Qed.

Lemma live_weather_appends : appends (Live.getWeatherData net env) (fetches 9).
Proof.
  unfold Live.getWeatherData.
  apply (appends_bind 0 9); [apply appends_checkDns|]. intros reachable.
  destruct (negb reachable); [apply appends_ret|].
  apply (appends_forEachM 3 (Live.weatherStep net env) LOCATIONS).
  apply live_weatherStep_appends.
Qed.

Lemma live_weather_returns : returns (Live.getWeatherData net env).
Proof.
  unfold Live.getWeatherData.
  apply returns_bind; [intros h; eexists; reflexivity|]. intros reachable.
  destruct (negb reachable); [apply returns_ret|].
  apply returns_forEachM. apply live_weatherStep_returns.
Qed.

Lemma live_fetchPage_appends {B} (url : string) (k : Page -> M B) :
  (forall page, appends (k page) (fetches 0)) ->
  appends (let* response := fetchWithRetry (Live.axiosGet net url) defaultRetries in
           let* response := defined "data" response in
           let* page := load (resp_page response) in
           k page)
          (fetches 1).
Proof.
  intros Hk.
  apply (appends_bind 1 0); [apply appends_fetch|]. intros response.
  apply (appends_bind 0 0); [apply appends_defined|]. intros response'.
  apply (appends_bind 0 0); [apply appends_load | exact Hk].
Qed.

Lemma live_parkStep_appends (conditions : gmap string ParkEntry)
    (item : string * list string) :
  appends (Live.parkStep net conditions item) (fetches 1).
Proof.
  destruct item as [parkId searchTerms]. unfold Live.parkStep.
  apply (appends_bind 1 0); [|intros entry; apply appends_ret].
  apply (appends_tryCatch 1 0); [|intros error; apply appends_ret].
  unfold Live.fetchPark. apply live_fetchPage_appends.
  intros page. destruct (findPanel page parkId); apply appends_ret.
Qed.

Lemma live_parkStep_returns (conditions : gmap string ParkEntry)
    (item : string * list string) :
  returns (Live.parkStep net conditions item).
Proof.
  destruct item as [parkId searchTerms]. unfold Live.parkStep.
  apply returns_bind; [|intros entry; apply returns_ret].
  apply returns_tryCatch. intros error. apply returns_ret.
Qed.

Lemma live_parks_appends : appends (Live.getMetroparkConditions net) (fetches 2).
Proof.
  unfold Live.getMetroparkConditions.
  apply (appends_bind 2 0); [|intros conditions; apply appends_ret].
  apply (appends_forEachM 1 (Live.parkStep net) PerPark.parkMap).
  apply live_parkStep_appends.
Qed.

Lemma live_parks_returns : returns (Live.getMetroparkConditions net).
Proof.
  unfold Live.getMetroparkConditions.
  apply returns_bind; [|intros conditions; apply returns_ret].
  apply returns_forEachM. apply live_parkStep_returns.
Qed.

Lemma live_regionStep_appends (conditions : gmap string TrailEntry) (region : Z) :
  appends (Live.regionStep net env conditions region) (fetches 1).
Proof.
  unfold Live.regionStep.
  apply (appends_tryCatch 1 0); [|intros error; apply appends_ret].
  apply live_fetchPage_appends. intros page. apply appends_ret.
Qed.

Lemma live_nordic_appends :
  appends (Live.getNordicSkiRacerConditions net env)
          (fetches (length (env_regionOrder env regions))).
Proof.
  unfold Live.getNordicSkiRacerConditions.
  apply (appends_mono _ (1 * length (env_regionOrder env regions) + 0)); [lia|].
  apply appends_bind; [|intros conditions; apply appends_ret].
  apply (appends_forEachM 1 (Live.regionStep net env)).
  apply live_regionStep_appends.
Qed.

Lemma live_nordic_returns : returns (Live.getNordicSkiRacerConditions net env).
Proof.
  unfold Live.getNordicSkiRacerConditions.
  apply returns_bind; [|intros conditions; apply returns_ret].
  apply returns_forEachM. intros conditions region. unfold Live.regionStep.
  apply returns_tryCatch. intros error. apply returns_ret.
Qed.

Lemma live_resort_appends : appends (Live.getNubsNobConditions net) (fetches 1).
Proof.
  unfold Live.getNubsNobConditions. apply live_fetchPage_appends.
  intros page. apply appends_ret.
Qed.

(** A run of [main]: the requests of the four adapters, then either the
    read and the accepted write, or the read, the rejected write, the
    notification and the exit, or, the resort adapter having thrown, the
    notification and the exit. *)
Lemma live_main_shape (h : list Event) :
  exists fetched,
    fetches (12 + length (env_regionOrder env regions)) fetched
    /\ ((exists data,
            env_putContent env (putRequestOf env data) = Ok tt
            /\ Live.main net env h = (Ok 0, h ++ fetched ++ storeEvents env data))
        \/ (exists data error,
               env_putContent env (putRequestOf env data) = Throw error
               /\ Live.main net env h
                  = (Ok 1, h ++ fetched ++ storeEvents env data
                             ++ notifyEvents env error ++ [EvExit 1]))
        \/ (exists error,
               Live.main net env h
               = (Ok 1, h ++ fetched ++ notifyEvents env error ++ [EvExit 1]))).
Proof.
  unfold Live.main, tryCatch, bind, readClock.
  destruct (live_weather_appends h) as (e1 & H1 & F1).
  destruct (live_weather_returns h) as (weather & Hw).
  destruct (Live.getWeatherData net env h) as [r1 h1].
  cbn [fst snd] in H1, Hw. subst r1 h1.
  destruct (live_parks_appends (h ++ e1)) as (e2 & H2 & F2).
  destruct (live_parks_returns (h ++ e1)) as (metro & Hm).
  destruct (Live.getMetroparkConditions net (h ++ e1)) as [r2 h2].
  cbn [fst snd] in H2, Hm. subst r2 h2.
  destruct (live_nordic_appends ((h ++ e1) ++ e2)) as (e3 & H3 & F3).
  destruct (live_nordic_returns ((h ++ e1) ++ e2)) as (nordic & Hn).
  destruct (Live.getNordicSkiRacerConditions net env ((h ++ e1) ++ e2)) as [r3 h3].
  cbn [fst snd] in H3, Hn. subst r3 h3.
  destruct (live_resort_appends (((h ++ e1) ++ e2) ++ e3)) as (e4 & H4 & F4).
  destruct (Live.getNubsNobConditions net (((h ++ e1) ++ e2) ++ e3)) as [r4 h4].
  cbn [snd] in H4. subst h4.
  exists (e1 ++ e2 ++ e3 ++ e4). split.
  { apply (fetches_mono (9 + (2 + (length (env_regionOrder env regions) + 1))));
      [lia|].
    apply fetches_app; [exact F1|]. apply fetches_app; [exact F2|].
    apply fetches_app; [exact F3 | exact F4]. }
  assert (Hh : (((h ++ e1) ++ e2) ++ e3) ++ e4 = h ++ e1 ++ e2 ++ e3 ++ e4)
    by (rewrite <- !app_assoc; reflexivity).
  rewrite Hh. destruct r4 as [nubsNob|error].
  - rewrite updateGitHubData_run.
    destruct (env_putContent env (putRequestOf env _)) as [[]|error] eqn:Hput.
    + left. eexists. split; [exact Hput|]. unfold ret, storeEvents.
      rewrite <- !app_assoc. reflexivity.
    + right. left. eexists _, error. split; [exact Hput|].
      rewrite notifyError_run. unfold exit, bind, emit, ret, storeEvents.
      rewrite <- !app_assoc. reflexivity.
  - right. right. exists error.
    rewrite notifyError_run. unfold exit, bind, emit, ret.
    rewrite <- !app_assoc. reflexivity.
Qed.

(** On the network of [env] the pipeline is the one of the first part. *)
Lemma live_main_stationary (h : list Event) :
  Live.main (Live.stationary env) env h = main env h.
Proof. reflexivity. Qed.

End LiveAdapters.

Section LiveMain.

Variable env : Env.

(** The only write among the requests, the store events of [data] and a
    tail without write is the write of [data]. *)
Lemma put_of_run (fetched tail : list Event) (data : Document) (req : PutRequest) :
  Forall (fun ev => isFetchEvent ev = true) fetched ->
  ~ In (EvPut req) tail ->
  In (EvPut req) (fetched ++ storeEvents env data ++ tail) ->
  req = putRequestOf env data.
Proof.
  intros Hfetch Htail Hin. apply in_app_or in Hin as [Hin|Hin].
  - exfalso. exact (fetch_not_put _ _ Hfetch Hin).
  - simpl in Hin. destruct Hin as [Hin|[Hin|Hin]].
    + discriminate Hin.
    + injection Hin as <-. reflexivity.
    + contradiction.
Qed.

End LiveMain.

(** X16. On any network, also one whose answers change from one attempt to
    the next, [main] never throws: it ends with status 0 or 1.  The status
    is 0 exactly when a write was issued and the remote store accepted it;
    it is 1 exactly when the run ends with [process.exit(1)].  A rejected
    write is not repeated: the run posts the notification for that error
    and exits with 1.  No run issues more than one write. *)
Theorem main_exit_status (net : Live.Network) (env : Env) (h : list Event) :
  exists (code : Z) (evs : list Event),
    Live.main net env h = (Ok code, h ++ evs)
    /\ (code = 0 \/ code = 1)
    /\ (code = 0
        <-> exists req, In (EvPut req) evs /\ env_putContent env req = Ok tt)
    /\ (code = 1 <-> last evs = Some (EvExit 1))
    /\ (length (List.filter isPutEvent evs) <= 1)%nat
    /\ (forall req error,
           In (EvPut req) evs ->
           env_putContent env req = Throw error ->
           code = 1 /\ forall ev, In ev (notifyEvents env error) -> In ev evs).
Proof.
  destruct (live_main_shape net env h)
    as (fetched & [Hfetch _]
        & [(data & Hput & Hrun) | [(data & error & Hput & Hrun) | (error & Hrun)]]).
  - exists 0, (fetched ++ storeEvents env data).
    split; [rewrite Hrun; reflexivity|]. split; [left; reflexivity|].
    assert (Hlast : last (fetched ++ storeEvents env data)
                    = Some (EvPut (putRequestOf env data))).
    { unfold storeEvents.
      change [EvGetContent conditionsPath; EvPut (putRequestOf env data)]
        with ([EvGetContent conditionsPath] ++ [EvPut (putRequestOf env data)]).
      rewrite app_assoc. apply last_snoc. }
    split; [|split; [|split]].
    + split; [|reflexivity]. intros _. exists (putRequestOf env data).
      split; [|exact Hput]. apply in_or_app. right. simpl. auto.
    + rewrite Hlast. split; discriminate.
    + rewrite List.filter_app, (filter_put_fetch _ Hfetch). simpl. lia.
    + intros req error Hin Hfail. exfalso.
      rewrite <- (app_nil_r (storeEvents env data)) in Hin.
      rewrite (put_of_run env fetched [] data req Hfetch (fun x => x) Hin) in Hfail.
      rewrite Hput in Hfail. discriminate Hfail.
  - exists 1, (fetched ++ storeEvents env data ++ notifyEvents env error ++ [EvExit 1]).
    split; [rewrite Hrun; reflexivity|]. split; [right; reflexivity|].
    assert (Hreq : forall req,
               In (EvPut req)
                  (fetched ++ storeEvents env data
                     ++ notifyEvents env error ++ [EvExit 1]) ->
               req = putRequestOf env data).
    { intros req. apply put_of_run; [exact Hfetch | apply notify_not_put]. }
    split; [|split; [|split]].
    + split; [discriminate|]. intros (req & Hin & Hok).
      rewrite (Hreq req Hin), Hput in Hok. discriminate Hok.
    + split; [intros _ | reflexivity]. rewrite !app_assoc. apply last_snoc.
    + rewrite !List.filter_app, (filter_put_fetch _ Hfetch).
      rewrite <- List.filter_app, (filter_put_notify env error). simpl. lia.
    + intros req error' Hin Hfail. split; [reflexivity|].
      rewrite (Hreq req Hin), Hput in Hfail. injection Hfail as <-.
      intros ev Hev. apply in_or_app. right. apply in_or_app. right.
      apply in_or_app. left. exact Hev.
  - exists 1, (fetched ++ notifyEvents env error ++ [EvExit 1]).
    split; [rewrite Hrun; reflexivity|]. split; [right; reflexivity|].
    assert (Hnone : forall req,
               ~ In (EvPut req) (fetched ++ notifyEvents env error ++ [EvExit 1])).
    { intros req Hin. apply in_app_or in Hin as [Hin|Hin].
      - exact (fetch_not_put _ _ Hfetch Hin).
      - exact (notify_not_put env error req Hin). }
    split; [|split; [|split]].
    + split; [discriminate|]. intros (req & Hin & _). destruct (Hnone req Hin).
    + split; [intros _ | reflexivity]. rewrite !app_assoc. apply last_snoc.
    + rewrite List.filter_app, (filter_put_fetch _ Hfetch),
        (filter_put_notify env error). simpl. lia.
    + intros req error' Hin _. destruct (Hnone req Hin).
Qed.

(** On a network that resets the first request to every address, the
    resort page is fetched at the second attempt and the run publishes. *)
Example live_main_second_attempt :
  fst (Live.main (resetOnce onlyResort) sampleRuntime []) = Ok 0
  /\ calls nubsNobUrl (snd (Live.main (resetOnce onlyResort) sampleRuntime []))
     = 2%nat
  /\ delays (snd (getNubsNobConditions
                    (withHttp sampleRuntime onlyResort) [])) = []
  /\ delays (snd (Live.getNubsNobConditions (resetOnce onlyResort) [])) = [1000].
Proof. vm_compute. repeat split. Qed.


